(** * doggo: documentation coverage of exported symbols (core.ts)

    A shallow embedding of the export resolution engine of [core.ts]:
    the line classifier, the declaration locator, the re-export tracer,
    the documentation associator, the symbol synthesizer and the statistics
    aggregator, followed by the properties of the design document that
    were checked against them.

    Conventions of the embedding.
    - A JavaScript string is a [string] of 8-bit characters, the code
      units below 256; texts with other code units are not represented.
      White space ([\s], [trim]) is the white space of that range, a word
      character ([\w]) is one of [A-Za-z0-9_].
    - A JavaScript number that holds a count or a line number is a [nat].
      The percentage is computed in double precision: a double is the
      rational it stands for, and every division and multiplication is
      rounded to 53 significant bits, to nearest, ties to even
      ([Double.round]); [Math.round] is exact on the outcome.
    - [Map] and [Set] objects whose iteration order is observable are
      association lists and lists in insertion order.
    - The file system is a finite table from paths to nodes; an operation
      that throws returns [Throw].
    - The recursion of [traceExportsFromFile] runs under a bound that is
      larger than the number of files; the bound is shown never to be
      reached.
    - The functions of [@std/path] and [@std/fs], [JSON.parse] and the
      regular-expression compiler are the fields of the class [Runtime]. *)

From Stdlib Require Import String Ascii List Bool Arith ZArith.
From Stdlib Require Import QArith Qround Qpower Qreduction Lia Lqa.
Import ListNotations.

Close Scope Q_scope.
Local Open Scope string_scope.
Local Open Scope list_scope.
Local Open Scope nat_scope.

(* ===================================================================== *)
(** ** JavaScript strings *)
(* ===================================================================== *)

Module Js.

(** The character [U+0022]. *)
Definition dquote : ascii := ascii_of_nat 34.
Definition squote : ascii := ascii_of_nat 39.
Definition newline : ascii := ascii_of_nat 10.

(** [\s] and the characters [trim] removes, among the code units below
    256: TAB, LF, VT, FF, CR, SPACE and the no-break space [U+00A0]. *)
Definition is_space (c : ascii) : bool :=
  let n := nat_of_ascii c in
  ((9 <=? n) && (n <=? 13)) || (n =? 32) || (n =? 160).

(** [\w] is [A-Za-z0-9_]. *)
Definition is_word (c : ascii) : bool :=
  let n := nat_of_ascii c in
  ((48 <=? n) && (n <=? 57)) || ((65 <=? n) && (n <=? 90))
  || ((97 <=? n) && (n <=? 122)) || (n =? 95).

Fixpoint all_chars (p : ascii -> bool) (s : string) : bool :=
  match s with
  | EmptyString => true
  | String c s' => p c && all_chars p s'
  end.

(** An identifier: [\w+]. *)
Definition is_identifier (s : string) : bool :=
  negb (s =? "")%string && all_chars is_word s.

(** The characters with a meaning of their own in the source of a regular
    expression; a text without them is a pattern that matches itself. *)
Definition is_meta (c : ascii) : bool :=
  existsb (Ascii.eqb c) (list_ascii_of_string "\^$.*+?()[]{}|").

Definition is_literal (s : string) : bool :=
  all_chars (fun c => negb (is_meta c)) s.

Fixpoint trimStart (s : string) : string :=
  match s with
  | EmptyString => EmptyString
  | String c s' => if is_space c then trimStart s' else s
  end.

Fixpoint trimEnd (s : string) : string :=
  match s with
  | EmptyString => EmptyString
  | String c s' =>
      match trimEnd s' with
      | EmptyString => if is_space c then EmptyString else String c EmptyString
      | t => String c t
      end
  end.

(** [s.trim()] *)
Definition trim (s : string) : string := trimEnd (trimStart s).

(** [s.startsWith(p)] *)
Definition startsWith (s p : string) : bool := String.prefix p s.

(** [s.includes(sub)] *)
Fixpoint includes (s sub : string) : bool :=
  if String.prefix sub s then true
  else match s with
       | EmptyString => false
       | String _ s' => includes s' sub
       end.

(** [s.endsWith(suf)] *)
Definition endsWith (s suf : string) : bool :=
  (String.length suf <=? String.length s)
  && (substring (String.length s - String.length suf) (String.length suf) s =? suf)%string.

(** [s.split(c)] for a one-character separator: never the empty list. *)
Fixpoint split (sep : ascii) (s : string) : list string :=
  match s with
  | EmptyString => [EmptyString]
  | String c s' =>
      let r := split sep s' in
      if Ascii.eqb c sep then EmptyString :: r
      else match r with
           | h :: t => String c h :: t
           | [] => [String c EmptyString]
           end
  end.

(** [a.join(sep)] *)
Definition join_with (sep : string) (a : list string) : string :=
  String.concat sep a.

(** [s.indexOf(sub)], [None] for [-1]. *)
Fixpoint indexOf (s sub : string) : option nat :=
  if String.prefix sub s then Some 0
  else match s with
       | EmptyString => None
       | String _ s' => option_map S (indexOf s' sub)
       end.

(** A string is truthy when it is not empty. *)
Definition truthy (s : string) : bool := negb (s =? "")%string.

(** [a || b] on an optional string and a string. *)
Definition or_else (a : option string) (b : string) : string :=
  match a with
  | Some x => if truthy x then x else b
  | None => b
  end.

(** *** The subset of regular expressions the program uses

    Matching is by backtracking, written with continuations: greedy
    repetition tries the longest run first, an optional group is tried
    before it is skipped, alternatives are tried from the left.  [prev] is
    the character before the current position, [None] at the start of the
    input: it decides [^] and [\b]. *)

Inductive regex : Type :=
| Lit (s : string)                 (* literal text *)
| Chr (p : ascii -> bool)          (* one character of a class *)
| Plus (p : ascii -> bool)         (* [c+] for a class [c] *)
| Star (p : ascii -> bool)         (* [c*] for a class [c] *)
| Seq (r1 r2 : regex)
| Alt (r1 r2 : regex)              (* [(?:r1|r2)] *)
| Opt (r : regex)                  (* [(?:r)?] *)
| Cap (r : regex)                  (* [(r)] *)
| Bol                              (* [^] *)
| WordBoundary.                    (* [\b] *)

Fixpoint cat (l : list regex) : regex :=
  match l with
  | [] => Lit ""
  | [r] => r
  | r :: t => Seq r (cat t)
  end.

Fixpoint lit (l : string) (prev : option ascii) (s : string)
  : option (option ascii * string) :=
  match l with
  | EmptyString => Some (prev, s)
  | String c l' =>
      match s with
      | String d s' => if Ascii.eqb c d then lit l' (Some d) s' else None
      | EmptyString => None
      end
  end.

Section Matcher.
Context {R : Type}.
Let cont := option ascii -> string -> list string -> option R.

Fixpoint star (p : ascii -> bool) (prev : option ascii) (s : string)
  (caps : list string) (k : cont) : option R :=
  match s with
  | String c s' =>
      if p c then
        match star p (Some c) s' caps k with
        | Some x => Some x
        | None => k prev s caps
        end
      else k prev s caps
  | EmptyString => k prev s caps
  end.

Definition word_at (c : option ascii) : bool :=
  match c with Some x => is_word x | None => false end.

Definition first_char (s : string) : option ascii :=
  match s with String c _ => Some c | EmptyString => None end.

Fixpoint rmatch (r : regex) (prev : option ascii) (s : string)
  (caps : list string) (k : cont) : option R :=
  match r with
  | Lit l =>
      match lit l prev s with
      | Some (p', s') => k p' s' caps
      | None => None
      end
  | Chr p =>
      match s with
      | String c s' => if p c then k (Some c) s' caps else None
      | EmptyString => None
      end
  | Plus p =>
      match s with
      | String c s' => if p c then star p (Some c) s' caps k else None
      | EmptyString => None
      end
  | Star p => star p prev s caps k
  | Seq r1 r2 =>
      rmatch r1 prev s caps (fun p' s' c' => rmatch r2 p' s' c' k)
  | Alt r1 r2 =>
      match rmatch r1 prev s caps k with
      | Some x => Some x
      | None => rmatch r2 prev s caps k
      end
  | Opt r1 =>
      match rmatch r1 prev s caps k with
      | Some x => Some x
      | None => k prev s caps
      end
  | Cap r1 =>
      rmatch r1 prev s caps (fun p' s' c' =>
        k p' s' (c' ++ [substring 0 (String.length s - String.length s') s]))
  | Bol => match prev with None => k prev s caps | Some _ => None end
  | WordBoundary =>
      if xorb (word_at prev) (word_at (first_char s)) then k prev s caps
      else None
  end.
End Matcher.

(** One successful match: the text before it, the captured groups, the
    character before the rest, the rest. *)
Definition found : Type := string * list string * option ascii * string.

(** The leftmost match of [r] in [s], scanning from the current position. *)
Fixpoint exec_from (r : regex) (prev : option ascii) (s : string) : option found :=
  match rmatch r prev s [] (fun p' s' c => Some (c, p', s')) with
  | Some (c, p', s') => Some (EmptyString, c, p', s')
  | None =>
      match s with
      | String ch s' =>
          match exec_from r (Some ch) s' with
          | Some (b, c, p', r') => Some (String ch b, c, p', r')
          | None => None
          end
      | EmptyString => None
      end
  end.

(** [s.match(r)], reduced to the list of captured groups. *)
Definition match_ (r : regex) (s : string) : option (list string) :=
  match exec_from r None s with
  | Some (_, c, _, _) => Some c
  | None => None
  end.

(** [r.test(s)] *)
Definition test (r : regex) (s : string) : bool :=
  match match_ r s with Some _ => true | None => false end.

(** The [n]-th group of a match, [match[n]] with [n >= 1]. *)
Definition group (n : nat) (caps : list string) : string :=
  nth (n - 1) caps EmptyString.

(** [s.split(r)] for an [r] that never matches the empty string.  Every
    separator consumes a character, so [String.length s] rounds are
    enough. *)
Fixpoint split_re_aux (fuel : nat) (r : regex) (prev : option ascii)
  (s : string) : list string :=
  match fuel with
  | O => [s]
  | S f =>
      match exec_from r prev s with
      | None => [s]
      | Some (b, _, p', rest) => b :: split_re_aux f r p' rest
      end
  end.

Definition split_re (r : regex) (s : string) : list string :=
  split_re_aux (S (String.length s)) r None s.

End Js.

Import Js.

Example trim_ex : trim "   export { a }  " = "export { a }".
Proof. reflexivity. Qed.

Example split_ex : split "," "a, b as c" = ["a"; " b as c"].
Proof. reflexivity. Qed.

(* ===================================================================== *)
(** ** Data model *)
(* ===================================================================== *)

(** The [type] of an [ExportedSymbol]. *)
Inductive SymbolType : Type :=
| TFunction | TClass | TInterface | TType | TConst | TVariable | TEnum.

Definition SymbolType_eqb (a b : SymbolType) : bool :=
  match a, b with
  | TFunction, TFunction | TClass, TClass | TInterface, TInterface
  | TType, TType | TConst, TConst | TVariable, TVariable | TEnum, TEnum => true
  | _, _ => false
  end.

Inductive ExportType : Type := Named | Default.

Record ExportedSymbol : Type := mkSymbol {
  name : string;
  type : SymbolType;
  file : string;
  line : nat;
  hasJSDoc : bool;
  jsDocContent : option string;
  exportType : ExportType
}.

(** [byType[t]] is the pair [(total, documented)]. *)
Record DocumentationStats : Type := mkStats {
  total : nat;
  documented : nat;
  undocumented : nat;
  percentage : Z;
  byType : list (SymbolType * (nat * nat))
}.

Record AnalysisResult : Type := mkResult {
  path : string;
  hasDenoJson : bool;
  hasExports : bool;
  exportPath : option string;
  symbols : list ExportedSymbol;
  stats : DocumentationStats
}.

(** [exports?: string | Record<string, string>]; the record is the list of
    its own properties in the order [Object.values] enumerates them. *)
Inductive ExportsField : Type :=
| ExportsString (s : string)
| ExportsRecord (entries : list (string * string)).

Record DenoConfig : Type := mkConfig {
  exports : option ExportsField;
  configName : option string;
  configVersion : option string
}.

(** [tline] is the field [line] of the interface [TracedExport]. *)
Record TracedExport : Type := mkTraced {
  originalName : string;
  exportedName : string;
  sourcePath : string;
  tline : nat
}.

(* ===================================================================== *)
(** ** The host: file system, paths, exceptions *)
(* ===================================================================== *)

(** The outcome of an operation that may throw. *)
Inductive result (A : Type) : Type :=
| Ok (a : A)
| Throw.
Arguments Ok {A} a.
Arguments Throw {A}.

Definition bind {A B : Type} (m : result A) (f : A -> result B) : result B :=
  match m with
  | Ok a => f a
  | Throw => Throw
  end.

Notation "x <- m ;; k" := (bind m (fun x => k))
  (at level 61, m at next level, right associativity).

(** [try { body } catch { handler }] *)
Definition try_catch {A : Type} (body : result A) (handler : A) : A :=
  match body with
  | Ok a => a
  | Throw => handler
  end.

Inductive Node : Type :=
| File (content : string)
| Directory.

Definition FileSystem : Type := list (string * Node).

Fixpoint lookup {A : Type} (k : string) (m : list (string * A)) : option A :=
  match m with
  | [] => None
  | (k', v) :: m' => if (k' =? k)%string then Some v else lookup k m'
  end.

(** [Deno.readTextFile(p)]: throws unless [p] is a file. *)
Definition readTextFile (fs : FileSystem) (p : string) : result string :=
  match lookup p fs with
  | Some (File c) => Ok c
  | _ => Throw
  end.

(** [Deno.stat(p)]: throws unless [p] exists. *)
Definition stat (fs : FileSystem) (p : string) : result Node :=
  match lookup p fs with
  | Some n => Ok n
  | None => Throw
  end.

Definition isFile (n : Node) : bool :=
  match n with File _ => true | Directory => false end.

Definition isDirectory (n : Node) : bool :=
  match n with File _ => false | Directory => true end.

(** An entry that [walk] yields. *)
Record WalkEntry : Type := mkEntry {
  entryPath : string;
  entryIsFile : bool
}.

(** What the program imports and does not define.
    - [join], [dirname], [resolve], [relative]: [@std/path];
    - [cwd]: [Deno.cwd()];
    - [walk fs root]: the entries [walk(root, { exts, skip })] of [@std/fs]
      yields for the options of [findSourceFiles];
    - [JSON_parse]: [JSON.parse] followed by the cast to [DenoConfig]; the
      value [null] is [Ok None];
    - [RegExp_test src s]: [new RegExp(src).test(s)], [Throw] when [src] is
      not a regular expression. *)
Class Runtime : Type := {
  join : string -> string -> string;
  dirname : string -> string;
  resolve : string -> string;
  relative : string -> string -> string;
  cwd : string;
  walk : FileSystem -> string -> list WalkEntry;
  JSON_parse : string -> result (option DenoConfig);
  RegExp_test : string -> string -> result bool
}.

(* ===================================================================== *)
(** ** Line classifier *)
(* ===================================================================== *)

Definition isDirectExport (line : string) : bool :=
  startsWith line "export function" ||
  startsWith line "export async function" ||
  startsWith line "export class" ||
  startsWith line "export interface" ||
  startsWith line "export type" ||
  startsWith line "export enum" ||
  startsWith line "export const" ||
  startsWith line "export let" ||
  startsWith line "export var" ||
  startsWith line "export default".

(** [\s+] and [(\w+)] *)
Definition ws1 : regex := Plus is_space.
Definition ws0 : regex := Star is_space.
Definition word1 : regex := Cap (Plus is_word).

(** [(?:const|let|var)] *)
Definition const_let_var : regex := Alt (Lit "const") (Alt (Lit "let") (Lit "var")).

(** The six patterns of [extractExportName], in order. *)
Definition exportNamePatterns : list regex :=
  [ cat [Lit "export"; ws1; Opt (Seq (Lit "async") ws1); Lit "function"; ws1; word1];
    cat [Lit "export"; ws1; Lit "class"; ws1; word1];
    cat [Lit "export"; ws1; Lit "interface"; ws1; word1];
    cat [Lit "export"; ws1; Lit "type"; ws1; word1];
    cat [Lit "export"; ws1; Lit "enum"; ws1; word1];
    cat [Lit "export"; ws1; const_let_var; ws1; word1] ].

(** The first pattern of [patterns] that matches decides. *)
Fixpoint first_match (patterns : list regex) (line : string) : option (list string) :=
  match patterns with
  | [] => None
  | p :: ps =>
      match match_ p line with
      | Some caps => Some caps
      | None => first_match ps line
      end
  end.

Definition extractExportName (line : string) : option string :=
  match first_match exportNamePatterns line with
  | Some caps => Some (group 1 caps)
  | None => if includes line "export default" then Some "default" else None
  end.

Definition isExportLine (line : string) : bool :=
  startsWith line "export " ||
  (includes line "export {" && negb (includes line "export type {")) ||
  includes line "export default".

(** [jsDocBlocks: Map<number, string>]: the latest binding of an index is
    in front. *)
Definition JsDocBlocks : Type := list (nat * string).

Fixpoint blocks_get (i : nat) (m : JsDocBlocks) : option string :=
  match m with
  | [] => None
  | (j, v) :: m' => if j =? i then Some v else blocks_get i m'
  end.

Definition blocks_has (i : nat) (m : JsDocBlocks) : bool :=
  match blocks_get i m with Some _ => true | None => false end.

Definition blocks_set (i : nat) (v : string) (m : JsDocBlocks) : JsDocBlocks :=
  (i, v) :: m.

(** [/\s+as\s+/] *)
Definition re_as : regex := cat [ws1; Lit "as"; ws1].

(** [/export\s*{\s*([^}]+)\s*}/] *)
Definition not_rbrace (c : ascii) : bool := negb (Ascii.eqb c "}").
Definition re_export_block : regex :=
  cat [Lit "export"; ws0; Lit "{"; ws0; Cap (Plus not_rbrace); ws0; Lit "}"].

(** [name = match[1]; type = t] when [r] matches, nothing otherwise. *)
Definition name_of_match (r : regex) (t : SymbolType) (s : string)
  : string * SymbolType :=
  match match_ r s with
  | Some caps => (group 1 caps, t)
  | None => ("", TVariable)
  end.

Definition parseExportedSymbol (line : string) (lineIndex : nat)
  (filePath : string) (jsDocBlocks : JsDocBlocks) : option ExportedSymbol :=
  let trimmed := trim line in
  let hasJSDoc := blocks_has lineIndex jsDocBlocks in
  let jsDocContent := blocks_get lineIndex jsDocBlocks in
  let '(name, type, exportType) :=
    if includes trimmed "export default" then
      if includes trimmed "function" then
        (match match_ (cat [Lit "function"; ws1; word1]) trimmed with
         | Some caps => group 1 caps
         | None => "default"
         end, TFunction, Default)
      else if includes trimmed "class" then
        (match match_ (cat [Lit "class"; ws1; word1]) trimmed with
         | Some caps => group 1 caps
         | None => "default"
         end, TClass, Default)
      else ("default", TVariable, Default)
    else if startsWith trimmed "export function"
            || startsWith trimmed "export async function" then
      (name_of_match (cat [Lit "function"; ws1; word1]) TFunction trimmed, Named)
    else if startsWith trimmed "export class" then
      (name_of_match (cat [Lit "class"; ws1; word1]) TClass trimmed, Named)
    else if startsWith trimmed "export interface" then
      (name_of_match (cat [Lit "interface"; ws1; word1]) TInterface trimmed, Named)
    else if startsWith trimmed "export type" then
      (name_of_match (cat [Lit "type"; ws1; word1]) TType trimmed, Named)
    else if startsWith trimmed "export enum" then
      (name_of_match (cat [Lit "enum"; ws1; word1]) TEnum trimmed, Named)
    else if startsWith trimmed "export const"
            || startsWith trimmed "export let"
            || startsWith trimmed "export var" then
      (name_of_match (cat [const_let_var; ws1; word1])
         (if includes trimmed "const" then TConst else TVariable) trimmed, Named)
    else if includes trimmed "export {" && negb (includes trimmed "from") then
      (match match_ re_export_block trimmed with
       | Some caps =>
           let exports := map trim (split "," (group 1 caps)) in
           (hd "" (split_re re_as (hd "" exports)), TVariable)
       | None => ("", TVariable)
       end, Named)
    else if startsWith trimmed "class " then
      (name_of_match (cat [Lit "class"; ws1; word1]) TClass trimmed, Named)
    else if startsWith trimmed "function "
            || startsWith trimmed "async function " then
      (name_of_match (cat [Lit "function"; ws1; word1]) TFunction trimmed, Named)
    else if startsWith trimmed "interface " then
      (name_of_match (cat [Lit "interface"; ws1; word1]) TInterface trimmed, Named)
    else if startsWith trimmed "type " then
      (name_of_match (cat [Lit "type"; ws1; word1]) TType trimmed, Named)
    else if startsWith trimmed "enum " then
      (name_of_match (cat [Lit "enum"; ws1; word1]) TEnum trimmed, Named)
    else if startsWith trimmed "const " || startsWith trimmed "let "
            || startsWith trimmed "var " then
      (name_of_match (cat [const_let_var; ws1; word1])
         (if startsWith trimmed "const" then TConst else TVariable) trimmed, Named)
    else ("", TVariable, Named) in
  if truthy name then
    Some (mkSymbol name type filePath (lineIndex + 1) hasJSDoc jsDocContent exportType)
  else None.

Example parse_function :
  parseExportedSymbol "export async function load(p: string) {" 4 "a.ts" []
  = Some (mkSymbol "load" TFunction "a.ts" 5 false None Named).
Proof. reflexivity. Qed.

Example parse_block_first_only :
  parseExportedSymbol "export { a, b as c }" 0 "a.ts" []
  = Some (mkSymbol "a" TVariable "a.ts" 1 false None Named).
Proof. reflexivity. Qed.

(* ===================================================================== *)
(** ** Statistics aggregator *)
(* ===================================================================== *)

(** IEEE 754 double precision, for the numbers the analyzers compute with:
    finite and within the exponent range, so that a double is a rational
    with a significand of 53 bits.  Counts are integers below [2^53] and
    stand for themselves. *)
Module Double.
Local Open Scope Q_scope.

(** The exponent of the leading bit of a positive rational:
    [2 ^ binade q <= q < 2 ^ (binade q + 1)]. *)
Definition binade (q : Q) : Z :=
  let e := (Z.log2 (Qnum q) - Z.log2 (Zpos (Qden q)))%Z in
  if Qle_bool (2 ^ e) q then e else (e - 1)%Z.

(** The nearest integer; a tie goes to the even one. *)
Definition nearest_even (q : Q) : Z :=
  let f := Qfloor q in
  match Qcompare (q - inject_Z f) (1 # 2) with
  | Lt => f
  | Gt => (f + 1)%Z
  | Eq => if Z.even f then f else (f + 1)%Z
  end.

(** The double nearest to a positive rational: the significand is the
    rational scaled into [2^52, 2^53) and rounded. *)
Definition round_pos (q : Q) : Q :=
  let e := (binade q - 52)%Z in
  inject_Z (nearest_even (q / 2 ^ e)) * 2 ^ e.

(** The double nearest to a rational. *)
Definition round (q : Q) : Q :=
  let q := Qred q in
  match Qnum q with
  | Z0 => 0
  | Zpos _ => round_pos q
  | Zneg _ => - round_pos (- q)
  end.

(** [a / b] and [a * b] on doubles. *)
Definition div (a b : Q) : Q := round (a / b).
Definition mul (a b : Q) : Q := round (a * b).

End Double.

(** [Math.round]: the nearest integer, a half rounds up. *)
Definition Math_round (q : Q) : Z := Qfloor (q + (1 # 2))%Q.

(** One round of the loop that fills [stats.byType]. *)
Fixpoint bumpType (t : SymbolType) (doc : bool) (m : list (SymbolType * (nat * nat)))
  : list (SymbolType * (nat * nat)) :=
  match m with
  | [] => [(t, (1, if doc then 1 else 0))]
  | (t', (n, d)) :: m' =>
      if SymbolType_eqb t' t then (t', (n + 1, if doc then d + 1 else d)) :: m'
      else (t', (n, d)) :: bumpType t doc m'
  end.

Definition calculateStats (symbols : list ExportedSymbol) : DocumentationStats :=
  let total := length symbols in
  let documented := length (filter (fun s => hasJSDoc s) symbols) in
  let undocumented := length (filter (fun s => negb (hasJSDoc s)) symbols) in
  let percentage :=
    if 0 <? total
    then Math_round
           (Double.mul (Double.div (inject_Z (Z.of_nat documented))
                          (inject_Z (Z.of_nat total))) 100%Q)
    else 100%Z in
  mkStats total documented undocumented percentage
    (fold_left (fun m s => bumpType (type s) (hasJSDoc s) m) symbols []).

(* ===================================================================== *)
(** ** Module path resolution and declaration locator *)
(* ===================================================================== *)

Section Engine.
Context {RT : Runtime}.
Variable fs : FileSystem.

Definition extensions : list string :=
  [".ts"; ".tsx"; ".js"; ".jsx"; ".mjs"; "/mod.ts"; "/index.ts"].

(** The loop over [extensions] of [resolveImportPath]. *)
Fixpoint tryExtensions (basePath : string) (exts : list string) : option string :=
  match exts with
  | [] => None
  | ext :: rest =>
      let fullPath :=
        if endsWith basePath ".ts" || endsWith basePath ".js"
        then basePath else (basePath ++ ext)%string in
      match stat fs fullPath with
      | Ok _ => Some (resolve fullPath)
      | Throw => tryExtensions basePath rest
      end
  end.

Definition resolveImportPath (importPath fromDir : string) : option string :=
  if startsWith importPath "." then
    let basePath := join fromDir importPath in
    match stat fs basePath with
    | Ok _ => Some (resolve basePath)
    | Throw => tryExtensions basePath extensions
    end
  else None.

(** The six patterns [findSymbolInFile] builds from [symbolName], for a
    name that is an identifier. *)
Definition declarationPatterns (symbolName : string) : list regex :=
  [ cat [Bol; Opt (Seq (Lit "async") ws1); Lit "function"; ws1; Lit symbolName; WordBoundary];
    cat [Bol; Lit "class"; ws1; Lit symbolName; WordBoundary];
    cat [Bol; Lit "interface"; ws1; Lit symbolName; WordBoundary];
    cat [Bol; Lit "type"; ws1; Lit symbolName; WordBoundary];
    cat [Bol; Lit "enum"; ws1; Lit symbolName; WordBoundary];
    cat [Bol; const_let_var; ws1; Lit symbolName; WordBoundary] ].

(** Their sources, as the template literals spell them. *)
Definition declarationSources (symbolName : string) : list string :=
  [ ("^(?:async\s+)?function\s+" ++ symbolName ++ "\b")%string;
    ("^class\s+" ++ symbolName ++ "\b")%string;
    ("^interface\s+" ++ symbolName ++ "\b")%string;
    ("^type\s+" ++ symbolName ++ "\b")%string;
    ("^enum\s+" ++ symbolName ++ "\b")%string;
    ("^(?:const|let|var)\s+" ++ symbolName ++ "\b")%string ].

(** All patterns are built before the first is tested. *)
Fixpoint anyOf (rs : list (result bool)) : result bool :=
  match rs with
  | [] => Ok false
  | r :: t => b <- r ;; bs <- anyOf t ;; Ok (b || bs)
  end.

(** Does one of the six patterns match [line]?  A name without
    metacharacters, the empty name included, stands for itself in the
    pattern; any other name is read by the regular-expression compiler. *)
Definition testDeclaration (symbolName line : string) : result bool :=
  if is_literal symbolName
  then Ok (existsb (fun r => test r line) (declarationPatterns symbolName))
  else anyOf (map (fun src => RegExp_test src line) (declarationSources symbolName)).

Definition option_string_eqb (a : option string) (b : string) : bool :=
  match a with Some x => (x =? b)%string | None => false end.

(** The loop of [findSymbolInFile], from index [i]. *)
Fixpoint findSymbolInLines (lines : list string) (i : nat) (symbolName : string)
  : result (option nat) :=
  match lines with
  | [] => Ok None
  | l :: rest =>
      let line := trim l in
      if isDirectExport line && option_string_eqb (extractExportName line) symbolName
      then Ok (Some (i + 1))
      else
        b <- testDeclaration symbolName line ;;
        if b then Ok (Some (i + 1)) else findSymbolInLines rest (S i) symbolName
  end.

Definition findSymbolInFile (filePath symbolName : string) : option nat :=
  try_catch
    (content <- readTextFile fs filePath ;;
     findSymbolInLines (split newline content) 0 symbolName)
    None.

(* ===================================================================== *)
(** ** Import and re-export tracer *)
(* ===================================================================== *)

Definition is_quote (c : ascii) : bool := Ascii.eqb c dquote || Ascii.eqb c squote.
Definition not_quote (c : ascii) : bool := negb (is_quote c).

(** [/from\s+Q([^Q]+)Q/], where [Q] is the class of the two quote
    characters. *)
Definition re_from : regex :=
  cat [Lit "from"; ws1; Chr is_quote; Cap (Plus not_quote); Chr is_quote].

(** [/export\s*(?:type\s+)?{\s*([^}]+)\s*}/] *)
Definition re_export_list : regex :=
  cat [Lit "export"; ws0; Opt (Seq (Lit "type") ws1); Lit "{"; ws0;
       Cap (Plus not_rbrace); ws0; Lit "}"].

(** [/import\s*{([^}]+)}\s*from\s*Q([^Q]+)Q/] *)
Definition re_named_import : regex :=
  cat [Lit "import"; ws0; Lit "{"; Cap (Plus not_rbrace); Lit "}"; ws0;
       Lit "from"; ws0; Chr is_quote; Cap (Plus not_quote); Chr is_quote].

(** [/import\s+(\w+)\s+from\s*Q([^Q]+)Q/] *)
Definition re_default_import : regex :=
  cat [Lit "import"; ws1; word1; ws1; Lit "from"; ws0;
       Chr is_quote; Cap (Plus not_quote); Chr is_quote].

(** [/import\s*\*\s+as\s+(\w+)\s+from\s*Q([^Q]+)Q/] *)
Definition re_namespace_import : regex :=
  cat [Lit "import"; ws0; Lit "*"; ws1; Lit "as"; ws1; word1; ws1; Lit "from"; ws0;
       Chr is_quote; Cap (Plus not_quote); Chr is_quote].

(** [const [a, b] = item.split(/\s+as\s+/).map((s) => s.trim())] *)
Definition splitAs (item : string) : string * option string :=
  match map trim (split_re re_as item) with
  | a :: b :: _ => (a, Some b)
  | [a] => (a, None)
  | [] => ("", None)
  end.

(** [exportsMatch[1].split(",").map((e) => e.trim())] *)
Definition listItems (inner : string) : list string :=
  map trim (split "," inner).

Definition findImportSource (fileContent symbolName currentDir : string)
  : option string :=
  let fix scan (lines : list string) : option string :=
    match lines with
    | [] => None
    | l :: rest =>
        let trimmed := trim l in
        if startsWith trimmed "import " then
          let named :=
            match match_ re_named_import trimmed with
            | Some caps =>
                if existsb (fun imp =>
                     let '(imported, alias) := splitAs imp in
                     (imported =? symbolName)%string
                     || option_string_eqb alias symbolName)
                   (listItems (group 1 caps))
                then Some (group 2 caps) else None
            | None => None
            end in
          match named with
          | Some importPath => resolveImportPath importPath currentDir
          | None =>
              match match_ re_default_import trimmed with
              | Some caps =>
                  if (group 1 caps =? symbolName)%string
                  then resolveImportPath (group 2 caps) currentDir
                  else
                    match match_ re_namespace_import trimmed with
                    | Some caps' =>
                        if (group 1 caps' =? symbolName)%string
                        then resolveImportPath (group 2 caps') currentDir
                        else scan rest
                    | None => scan rest
                    end
              | None =>
                  match match_ re_namespace_import trimmed with
                  | Some caps' =>
                      if (group 1 caps' =? symbolName)%string
                      then resolveImportPath (group 2 caps') currentDir
                      else scan rest
                  | None => scan rest
                  end
              end
          end
        else scan rest
    end in
  scan (split newline fileContent).

(** [exportMap: Map<string, TracedExport[]>], in insertion order. *)
Definition ExportMap : Type := list (string * list TracedExport).

(** [m.set(k, v)]: a present key keeps its place. *)
Fixpoint map_set {A : Type} (k : string) (v : A) (m : list (string * A))
  : list (string * A) :=
  match m with
  | [] => [(k, v)]
  | (k', v') :: m' =>
      if (k' =? k)%string then (k', v) :: m' else (k', v') :: map_set k v m'
  end.

Definition bucket (exportMap : ExportMap) (filePath : string) : list TracedExport :=
  match lookup filePath exportMap with
  | Some l => l
  | None => []
  end.

Definition isDuplicate (existing : list TracedExport) (exportInfo : TracedExport) : bool :=
  existsb (fun e =>
    (exportedName e =? exportedName exportInfo)%string
    && (sourcePath e =? sourcePath exportInfo)%string) existing.

Definition addExport (exportMap : ExportMap) (filePath : string)
  (exportInfo : TracedExport) : ExportMap :=
  let existing := bucket exportMap filePath in
  map_set filePath
    (if isDuplicate existing exportInfo then existing else existing ++ [exportInfo])
    exportMap.

(** [lineNum || i + 1] *)
Definition num_or (a : option nat) (b : nat) : nat :=
  match a with
  | Some n => if n =? 0 then b else n
  | None => b
  end.

(** The two mutable objects the tracer shares along the call chain. *)
Record TraceState : Type := mkTrace {
  analyzedFiles : list string;
  exportMap : ExportMap
}.

Definition visited (filePath : string) (st : TraceState) : bool :=
  existsb (fun p => (p =? filePath)%string) (analyzedFiles st).

Definition withExport (st : TraceState) (filePath : string) (e : TracedExport)
  : TraceState :=
  mkTrace (analyzedFiles st) (addExport (exportMap st) filePath e).

(** The items of [export { ... } from spec], resolved to [resolvedPath]. *)
Definition traceSelective (filePath resolvedPath : string) (i : nat)
  (items : list string) (st : TraceState) : TraceState :=
  fold_left (fun st exportItem =>
    let '(originalName, exportedName) := splitAs exportItem in
    let lineNum := findSymbolInFile resolvedPath originalName in
    withExport st filePath
      (mkTraced originalName (or_else exportedName originalName) resolvedPath
         (num_or lineNum (i + 1)))) items st.

(** The items of [export { ... }] without a [from] clause. *)
Definition traceLocal (filePath content currentDir : string) (i : nat)
  (items : list string) (st : TraceState) : TraceState :=
  fold_left (fun st exportItem =>
    let '(originalName, exportedName) := splitAs exportItem in
    match findImportSource content originalName currentDir with
    | Some importSource =>
        let lineNum := findSymbolInFile importSource originalName in
        withExport st filePath
          (mkTraced originalName (or_else exportedName originalName) importSource
             (num_or lineNum (i + 1)))
    | None =>
        let lineNum := findSymbolInFile filePath originalName in
        withExport st filePath
          (mkTraced originalName (or_else exportedName originalName) filePath
             (num_or lineNum (i + 1)))
    end) items st.

(** One round of the loop over the lines of [filePath]; [self] is the
    recursive call.  [None] only when [self] gives [None].

    The loop that copies the bucket of the target of [export *] reads the
    bucket as it is after the recursive call: when the target is the file
    itself every entry is a duplicate of itself, so nothing is pushed to
    the array that is iterated. *)
Definition traceLine (self : string -> TraceState -> option TraceState)
  (filePath content currentDir : string) (i : nat) (line : string)
  (st : TraceState) : option TraceState :=
  let trimmed := trim line in
  if startsWith trimmed "export *" || startsWith trimmed "export {"
     || startsWith trimmed "export type {" then
    match match_ re_from trimmed with
    | Some fromMatch =>
        let importPath := group 1 fromMatch in
        match resolveImportPath importPath currentDir with
        | Some resolvedPath =>
            if startsWith trimmed "export *" then
              match self resolvedPath st with
              | Some st' =>
                  Some (fold_left (fun st exp => withExport st filePath exp)
                          (bucket (exportMap st') resolvedPath) st')
              | None => None
              end
            else
              match match_ re_export_list trimmed with
              | Some exportsMatch =>
                  Some (traceSelective filePath resolvedPath i
                          (listItems (group 1 exportsMatch)) st)
              | None => Some st
              end
        | None => Some st
        end
    | None =>
        if startsWith trimmed "export {" || startsWith trimmed "export type {" then
          match match_ re_export_list trimmed with
          | Some exportsMatch =>
              Some (traceLocal filePath content currentDir i
                      (listItems (group 1 exportsMatch)) st)
          | None => Some st
          end
        else Some st
    end
  else if isDirectExport trimmed then
    match extractExportName trimmed with
    | Some symbolName =>
        if truthy symbolName then
          Some (withExport st filePath
                  (mkTraced symbolName symbolName filePath (i + 1)))
        else Some st
    | None => Some st
    end
  else Some st.

(** The loop [for (let i = 0; i < lines.length; i++)], from index [i]. *)
Fixpoint traceLines (self : string -> TraceState -> option TraceState)
  (filePath content currentDir : string) (lines : list string) (i : nat)
  (st : TraceState) : option TraceState :=
  match lines with
  | [] => Some st
  | l :: rest =>
      match traceLine self filePath content currentDir i l st with
      | Some st' => traceLines self filePath content currentDir rest (S i) st'
      | None => None
      end
  end.

(** [traceExportsFromFile]; the recursion of the source is bounded by
    [fuel], and [None] says that the bound was reached. *)
Fixpoint traceExportsFromFile (fuel : nat) (filePath : string) (st : TraceState)
  (rootPath : string) : option TraceState :=
  match fuel with
  | O => None
  | S fuel' =>
      if visited filePath st then Some st
      else
        let st := mkTrace (filePath :: analyzedFiles st) (exportMap st) in
        try_catch
          (content <- readTextFile fs filePath ;;
           let lines := split newline content in
           let currentDir := dirname filePath in
           Ok (traceLines (fun p s => traceExportsFromFile fuel' p s rootPath)
                 filePath content currentDir lines 0 st))
          (Some st)
  end.

(* ===================================================================== *)
(** ** Documentation associator and symbol synthesizer *)
(* ===================================================================== *)

(** The first line from index [j] on that is neither blank nor a line
    comment, with its index; [rest] is the list of lines from [j]. *)
Fixpoint nextCodeLine (rest : list string) (j : nat) : option (nat * string) :=
  match rest with
  | [] => None
  | l :: rest' =>
      let nextLine := trim l in
      if truthy nextLine && negb (startsWith nextLine "//")
      then Some (j, nextLine)
      else nextCodeLine rest' (S j)
  end.

(** [jsDocBlocks.set(k, content)] for [k] from [j] to [j + 5], as far as
    the file has lines. *)
Definition bindWindow (lines : list string) (j : nat) (content : string)
  (blocks : JsDocBlocks) : JsDocBlocks :=
  fold_left (fun b k => blocks_set k content b)
    (filter (fun k => k <? length lines) (seq j 6)) blocks.

(** The lookahead of [analyzeFileForJSDoc] after a block closes on line
    [i]: only an export-like line takes the block. *)
Definition bindExport (lines : list string) (i : nat) (content : string)
  (blocks : JsDocBlocks) : JsDocBlocks :=
  match nextCodeLine (skipn (i + 1) lines) (i + 1) with
  | Some (j, nextLine) =>
      if isDirectExport nextLine || startsWith nextLine "export "
      then bindWindow lines j content blocks
      else blocks
  | None => blocks
  end.

(** The lookahead of [analyzeFile]: the next code line takes the block. *)
Definition bindNext (lines : list string) (i : nat) (content : string)
  (blocks : JsDocBlocks) : JsDocBlocks :=
  match nextCodeLine (skipn (i + 1) lines) (i + 1) with
  | Some (j, _) => blocks_set j content blocks
  | None => blocks
  end.

(** The loop that joins the following lines to an unfinished declaration. *)
Fixpoint gatherLines (ls : list string) (fullDeclaration : string) : string :=
  match ls with
  | [] => fullDeclaration
  | l :: rest =>
      let fullDeclaration := (fullDeclaration ++ " " ++ trim l)%string in
      if includes l "{" || includes l ";" then fullDeclaration
      else gatherLines rest fullDeclaration
  end.

(** [fullDeclaration] for the declaration that starts on line [i]. *)
Definition gather (lines : list string) (i : nat) (trimmed : string) : string :=
  if negb (includes trimmed "{") && negb (includes trimmed ";")
  then gatherLines (firstn 9 (skipn (i + 1) lines)) trimmed
  else trimmed.

Definition rename (symbol : ExportedSymbol) (n : string) : ExportedSymbol :=
  mkSymbol n (type symbol) (file symbol) (line symbol) (hasJSDoc symbol)
    (jsDocContent symbol) (exportType symbol).

(** The eight prefixes tried on a line that is not a direct export. *)
Definition barePrefixes (n : string) : list string :=
  [ ("class " ++ n)%string; ("function " ++ n)%string; ("const " ++ n)%string;
    ("let " ++ n)%string; ("var " ++ n)%string; ("interface " ++ n)%string;
    ("type " ++ n)%string; ("enum " ++ n)%string ].

(** The state of the loop over the lines of one source file. *)
Record DocState : Type := mkDoc {
  jsDocBlocks : JsDocBlocks;
  currentJSDoc : list string;
  found_symbols : list ExportedSymbol
}.

(** The block tracking of [analyzeFileForJSDoc] on line [i]; the boolean
    is [true] when the round ends with [continue]. *)
Definition trackJSDoc (lines : list string) (i : nat) (line : string)
  (blocks : JsDocBlocks) (current : list string)
  : JsDocBlocks * list string * bool :=
  let trimmed := trim line in
  if startsWith trimmed "/**" then
    if endsWith trimmed "*/" then
      let jsDocContent := trimmed in
      if negb (includes jsDocContent "@module")
      then (bindExport lines i jsDocContent blocks, current, false)
      else (blocks, current, false)
    else (blocks, [trimmed], false)
  else if 0 <? length current then
    let current := current ++ [line] in
    if endsWith trimmed "*/" then
      let jsDocContent := join_with (String newline "") current in
      if includes jsDocContent "@module" then (blocks, [], true)
      else (bindExport lines i jsDocContent blocks, [], false)
    else (blocks, current, false)
  else (blocks, current, false).

(** The symbols line [i] of the file [source] contributes. *)
Definition synthesize (lines : list string) (source relativePath : string)
  (sourceExports : list TracedExport) (i : nat) (line : string)
  (blocks : JsDocBlocks) : list ExportedSymbol :=
  let trimmed := trim line in
  if isDirectExport trimmed then
    let fullDeclaration := gather lines i trimmed in
    match extractExportName fullDeclaration with
    | Some lineExportName =>
        if truthy lineExportName then
          match find (fun exp =>
                   (originalName exp =? lineExportName)%string
                   && (sourcePath exp =? source)%string) sourceExports with
          | Some exp =>
              match parseExportedSymbol fullDeclaration i relativePath blocks with
              | Some symbol => [rename symbol (exportedName exp)]
              | None => []
              end
          | None => []
          end
        else []
    | None => []
    end
  else
    flat_map (fun exp =>
      if existsb (fun pattern => startsWith trimmed pattern)
           (barePrefixes (originalName exp))
      then
        let fullDeclaration := gather lines i trimmed in
        match parseExportedSymbol fullDeclaration i relativePath blocks with
        | Some symbol => [rename symbol (exportedName exp)]
        | None => []
        end
      else []) sourceExports.

Definition docStep (lines : list string) (source relativePath : string)
  (sourceExports : list TracedExport) (st : DocState) (il : nat * string)
  : DocState :=
  let '(i, line) := il in
  let '(blocks, current, continue) :=
    trackJSDoc lines i line (jsDocBlocks st) (currentJSDoc st) in
  if continue then mkDoc blocks current (found_symbols st)
  else mkDoc blocks current
         (found_symbols st
          ++ synthesize lines source relativePath sourceExports i line blocks).

(** The lines of a file with their indices. *)
Definition indexed (lines : list string) : list (nat * string) :=
  combine (seq 0 (length lines)) lines.

(** The body of the [try] of [analyzeFileForJSDoc] for one source file:
    the symbols it pushes. *)
Definition scanSource (rootPath source : string)
  (sourceExports : list TracedExport) : result (list ExportedSymbol) :=
  content <- readTextFile fs source ;;
  let lines := split newline content in
  let relativePath := relative rootPath source in
  Ok (found_symbols
        (fold_left (docStep lines source relativePath sourceExports)
           (indexed lines) (mkDoc [] [] []))).

(** The key of [seenExports]. *)
Definition seenKey (exp : TracedExport) : string :=
  (sourcePath exp ++ ":" ++ exportedName exp ++ ":" ++ originalName exp)%string.

Definition mem (k : string) (l : list string) : bool :=
  existsb (fun x => (x =? k)%string) l.

(** The first loop of [analyzeFileForJSDoc]: [exportsBySource], with
    [seenExports]. *)
Definition groupBySource (exps : list TracedExport)
  : list (string * list TracedExport) :=
  fst (fold_left (fun '(exportsBySource, seenExports) exp =>
         let key := seenKey exp in
         if mem key seenExports then (exportsBySource, seenExports)
         else (map_set (sourcePath exp)
                 (bucket exportsBySource (sourcePath exp) ++ [exp]) exportsBySource,
               key :: seenExports))
       exps ([], [])).

Definition analyzeFileForJSDoc (exps : list TracedExport)
  (symbols : list ExportedSymbol) (rootPath : string) : list ExportedSymbol :=
  fold_left (fun symbols '(source, sourceExports) =>
    symbols ++ try_catch (scanSource rootPath source sourceExports) [])
    (groupBySource exps) symbols.

(* ===================================================================== *)
(** ** Public-API mode *)
(* ===================================================================== *)

(** The key of [uniqueExports]. *)
Definition uniqueKey (exp : TracedExport) : string :=
  (sourcePath exp ++ ":" ++ originalName exp ++ ":" ++ exportedName exp)%string.

(** [uniqueExports], a [Map] from keys to traced exports: its values in
    insertion order. *)
Definition uniqueExports (exportMap : ExportMap) : list TracedExport :=
  map snd
    (fold_left (fun unique exp =>
       let key := uniqueKey exp in
       match lookup key unique with
       | Some _ => unique
       | None => unique ++ [(key, exp)]
       end)
     (flat_map snd exportMap) []).

Definition exportPaths (exports : ExportsField) : list string :=
  match exports with
  | ExportsString s => [s]
  | ExportsRecord entries => map snd entries
  end.

(** The loop over the entry points.  A call of [traceExportsFromFile] gets
    more fuel than the file system has files. *)
Fixpoint traceEntries (rootPath : string) (paths : list string) (st : TraceState)
  : option TraceState :=
  match paths with
  | [] => Some st
  | exportPath :: rest =>
      let fullPath := join rootPath exportPath in
      match traceExportsFromFile (S (length fs)) fullPath st rootPath with
      | Some st' => traceEntries rootPath rest st'
      | None => None
      end
  end.

Definition analyzeFromExports (rootPath : string) (exports : ExportsField)
  (symbols : list ExportedSymbol) (st : TraceState)
  : option (list ExportedSymbol) :=
  match traceEntries rootPath (exportPaths exports) st with
  | Some st' =>
      Some (analyzeFileForJSDoc (uniqueExports (exportMap st')) symbols rootPath)
  | None => None
  end.

(* ===================================================================== *)
(** ** Full-scan mode *)
(* ===================================================================== *)

(** The block tracking of [analyzeFile] on line [i]. *)
Definition trackJSDocAll (lines : list string) (i : nat) (line : string)
  (blocks : JsDocBlocks) (current : list string) : JsDocBlocks * list string :=
  let trimmed := trim line in
  if startsWith trimmed "/**" then
    if endsWith trimmed "*/" then (bindNext lines i trimmed blocks, current)
    else (blocks, [trimmed])
  else if 0 <? length current then
    let current := current ++ [line] in
    if endsWith trimmed "*/" then
      (bindNext lines i (join_with (String newline "") current) blocks, [])
    else (blocks, current)
  else (blocks, current).

Definition fileStep (lines : list string) (relativePath : string)
  (st : DocState) (il : nat * string) : DocState :=
  let '(i, line) := il in
  let trimmed := trim line in
  let '(blocks, current) :=
    trackJSDocAll lines i line (jsDocBlocks st) (currentJSDoc st) in
  mkDoc blocks current
    (if isExportLine trimmed then
       match parseExportedSymbol trimmed i relativePath blocks with
       | Some symbol => found_symbols st ++ [symbol]
       | None => found_symbols st
       end
     else found_symbols st).

Definition analyzeFile (filePath : string) (symbols : list ExportedSymbol)
  (rootPath : string) : result (list ExportedSymbol) :=
  content <- readTextFile fs filePath ;;
  let lines := split newline content in
  st <- stat fs rootPath ;;
  let relativePath :=
    if isFile st then relative cwd filePath else relative rootPath filePath in
  Ok (found_symbols
        (fold_left (fileStep lines relativePath) (indexed lines)
           (mkDoc [] [] symbols))).

Definition validExts : list string := [".ts"; ".tsx"; ".js"; ".jsx"; ".mjs"].

Definition findSourceFiles (rootPath : string) : result (list string) :=
  st <- stat fs rootPath ;;
  if isFile st then
    Ok (if existsb (fun ext => endsWith rootPath ext) validExts
        then [rootPath] else [])
  else
    Ok (map entryPath (filter entryIsFile (walk fs rootPath))).

Fixpoint analyzeFiles (files : list string) (symbols : list ExportedSymbol)
  (rootPath : string) : result (list ExportedSymbol) :=
  match files with
  | [] => Ok symbols
  | f :: rest =>
      symbols' <- analyzeFile f symbols rootPath ;;
      analyzeFiles rest symbols' rootPath
  end.

Definition analyzeAllFiles (rootPath : string) (symbols : list ExportedSymbol)
  : result (list ExportedSymbol) :=
  files <- findSourceFiles rootPath ;;
  analyzeFiles files symbols rootPath.

(* ===================================================================== *)
(** ** Configuration and entry point *)
(* ===================================================================== *)

(** [line.slice(0, commentIndex)] when the line has a line comment. *)
Definition stripLineComment (l : string) : string :=
  match indexOf l "//" with
  | Some commentIndex => substring 0 commentIndex l
  | None => l
  end.

(** The text after the first [*/] of [s]. *)
Fixpoint afterClose (s : string) : option string :=
  if String.prefix "*/" s then Some (substring 2 (String.length s - 2) s)
  else match s with
       | EmptyString => None
       | String _ s' => afterClose s'
       end.

(** [s.replace(/\/\*[\s\S]*?\*\//g, empty)] *)
Fixpoint stripBlockComments (fuel : nat) (s : string) : string :=
  match fuel with
  | O => s
  | S f =>
      match s with
      | EmptyString => EmptyString
      | String c s' =>
          if String.prefix "/*" s then
            match afterClose (substring 2 (String.length s - 2) s) with
            | Some rest => stripBlockComments f rest
            | None => String c (stripBlockComments f s')
            end
          else String c (stripBlockComments f s')
      end
  end.

Definition loadDenoConfig (rootPath : string) : result (option DenoConfig) :=
  st <- stat fs rootPath ;;
  let rootPath := if isFile st then dirname rootPath else rootPath in
  let configPath := join rootPath "deno.json" in
  Ok (try_catch
        (configContent <- readTextFile fs configPath ;;
         JSON_parse configContent)
        (let configPathJsonc := join rootPath "deno.jsonc" in
         try_catch
           (configContent <- readTextFile fs configPathJsonc ;;
            let jsonContent :=
              stripBlockComments (String.length configContent)
                (join_with (String newline "")
                   (map stripLineComment (split newline configContent))) in
            JSON_parse jsonContent)
           None)).

(** [denoConfig?.exports] when it is truthy. *)
Definition truthyExports (denoConfig : option DenoConfig) : option ExportsField :=
  match denoConfig with
  | Some c =>
      match exports c with
      | Some (ExportsString s) => if truthy s then Some (ExportsString s) else None
      | Some (ExportsRecord r) => Some (ExportsRecord r)
      | None => None
      end
  | None => None
  end.

(** The field [exportPath] of the result. *)
Definition reportedExportPath (denoConfig : option DenoConfig) : option string :=
  match denoConfig with
  | Some c =>
      match exports c with
      | Some (ExportsString s) => Some s
      | Some (ExportsRecord r) => hd_error (map snd r)
      | None => None
      end
  | None => None
  end.

(** [analyzeDirectory].  [None] stands for a run whose tracing reached the
    bound on its recursion; [Some Throw] is a rejected promise. *)
Definition analyzeDirectory (targetPath : string) : option (result AnalysisResult) :=
  let rootPath := resolve targetPath in
  match loadDenoConfig rootPath with
  | Throw => Some Throw
  | Ok denoConfig =>
      let hasDenoJson := match denoConfig with Some _ => true | None => false end in
      let hasExports :=
        match truthyExports denoConfig with Some _ => true | None => false end in
      let exportPath := reportedExportPath denoConfig in
      let outcome :=
        match truthyExports denoConfig with
        | Some exports =>
            option_map Ok (analyzeFromExports rootPath exports [] (mkTrace [] []))
        | None => Some (analyzeAllFiles rootPath [])
        end in
      match outcome with
      | Some (Ok symbols) =>
          Some (Ok (mkResult rootPath hasDenoJson hasExports exportPath symbols
                      (calculateStats symbols)))
      | Some Throw => Some Throw
      | None => None
      end
  end.

End Engine.

(* ===================================================================== *)
(** ** A host for the examples *)
(* ===================================================================== *)

(** POSIX paths as [@std/path] computes them, a directory walk in table
    order, and a JSON decoder given by a table of the texts it knows.  The
    general theorems below hold for every [Runtime]. *)
Module Posix.

Definition segments (p : string) : list string :=
  filter (fun s => truthy s && negb (s =? ".")%string) (split "/" p).

(** Resolve [..] against the segments collected so far (in reverse). *)
Fixpoint collapse (absolute : bool) (segs acc : list string) : list string :=
  match segs with
  | [] => rev acc
  | s :: rest =>
      if (s =? "..")%string then
        match acc with
        | [] => collapse absolute rest (if absolute then [] else [".."])
        | a :: acc' =>
            if (a =? "..")%string then collapse absolute rest (s :: acc)
            else collapse absolute rest acc'
        end
      else collapse absolute rest (s :: acc)
  end.

Definition isAbsolute (p : string) : bool := startsWith p "/".

(** The segments of a path without [.] and with [..] resolved. *)
Definition normalizeString (p : string) : string :=
  join_with "/" (collapse (isAbsolute p) (segments p) []).

(** [normalize] keeps a trailing separator. *)
Definition normalize (p : string) : string :=
  let body := normalizeString p in
  let body := if truthy body || isAbsolute p then body else "." in
  let body := if truthy body && endsWith p "/" then (body ++ "/")%string else body in
  if isAbsolute p then ("/" ++ body)%string else body.

Definition join (a b : string) : string :=
  if truthy a then
    if truthy b then normalize (a ++ "/" ++ b)%string else normalize a
  else if truthy b then normalize b else ".".

(** [resolve] drops it. *)
Definition resolve_in (cwd p : string) : string :=
  let q := if isAbsolute p then p else (cwd ++ "/" ++ p)%string in
  let body := normalizeString q in
  if isAbsolute q then ("/" ++ body)%string
  else if truthy body then body else ".".

Definition dirname (p : string) : string :=
  match rev (segments p) with
  | [] => if isAbsolute p then "/" else "."
  | _ :: parents =>
      let body := join_with "/" (rev parents) in
      if isAbsolute p then ("/" ++ body)%string
      else if truthy body then body else "."
  end.

Fixpoint dropCommon (a b : list string) : list string * list string :=
  match a, b with
  | x :: a', y :: b' => if (x =? y)%string then dropCommon a' b' else (a, b)
  | _, _ => (a, b)
  end.

Definition relative_in (cwd from to : string) : string :=
  let '(up, down) :=
    dropCommon (segments (resolve_in cwd from)) (segments (resolve_in cwd to)) in
  join_with "/" (map (fun _ => "..") up ++ down).

Definition skipped (p : string) : bool :=
  existsb (fun pat => includes p pat)
    ["node_modules"; ".git"; "dist"; "build"; "coverage"; ".test."; ".spec.";
     "test/"; "tests/"; "_test."].

Definition walk (fs : FileSystem) (root : string) : list WalkEntry :=
  flat_map (fun '(p, n) =>
    if startsWith p (root ++ "/") && isFile n && negb (skipped p)
       && existsb (fun ext => endsWith p ext) [".ts"; ".tsx"; ".js"; ".jsx"; ".mjs"]
    then [mkEntry p true] else []) fs.

(** The JSON texts of [configs] decode to the configurations listed with
    them; every other text is rejected. *)
Definition JSON_parse (configs : list (string * DenoConfig)) (text : string)
  : result (option DenoConfig) :=
  match lookup text configs with
  | Some c => Ok (Some c)
  | None => Throw
  end.

(** The examples look up no name with a metacharacter of regular
    expressions; all other names are matched without the compiler. *)
Definition RegExp_test (src s : string) : result bool := Throw.

Definition runtime (cwd : string) (configs : list (string * DenoConfig)) : Runtime :=
  Build_Runtime join dirname (resolve_in cwd) (relative_in cwd) cwd walk
    (JSON_parse configs) RegExp_test.

End Posix.

(** The text of the lines [ls] of a file. *)
Definition text (ls : list string) : string := join_with (String newline "") ls.

Module Fixtures.

(** tests/fixtures/simple/basic.ts *)
Definition basic_ts : string := text
  [ "export function documentedFunction(x: number): number {";
    "  return x * 2;";
    "}";
    "";
    "export class UndocumentedClass {";
    "  constructor(public name: string) {}";
    "}";
    "";
    "export interface DocumentedInterface {";
    "  id: string;";
    "}";
    "";
    "export const undocumentedConst = 42;";
    "" ].

(** tests/fixtures/prefix_bug/types.ts *)
Definition types_ts : string := text
  [ "export type ServerRateLimitDescription = {";
    "  name: string;";
    "  duration: number;";
    "};";
    "";
    "export type Server = {";
    "  host: string;";
    "  port: number;";
    "};";
    "" ].

Definition fs : FileSystem :=
  [ ("/repo", Directory); ("/repo/tests", Directory);
    ("/repo/tests/basic.ts", File basic_ts);
    ("/repo/tests/types.ts", File types_ts) ].

#[local] Instance rt : Runtime := Posix.runtime "/repo" [].

Definition summary (r : option (result AnalysisResult))
  : option (list (string * SymbolType * nat * bool) * (nat * nat * nat * Z)) :=
  match r with
  | Some (Ok a) =>
      Some (map (fun s => (name s, type s, line s, hasJSDoc s)) (symbols a),
            (total (stats a), documented (stats a), undocumented (stats a),
             percentage (stats a)))
  | _ => None
  end.

End Fixtures.

(* ===================================================================== *)
(** * Properties *)
(* ===================================================================== *)

(** ** Statistics *)

Module DoubleFacts.
Import Double.
Local Open Scope Q_scope.

Definition u : Q := 1 # 9007199254740992.

Lemma two_pow_pos (e : Z) : 0 < 2 ^ e.
Proof. apply Qpower_0_lt. reflexivity. Qed.

Lemma binade_lower (q : Q) : 0 < q -> 2 ^ binade q <= q.
Proof.
  intros Hq. unfold binade.
  destruct (Qle_bool _ q) eqn:E; [apply Qle_bool_iff, E|].
  destruct q as [n d]. cbn [Qnum Qden] in *.
  assert (Hn : (0 < n)%Z) by (unfold Qlt in Hq; simpl in Hq; lia).
  set (a := Z.log2 n). set (b := Z.log2 (Z.pos d)).
  pose proof (Z.log2_spec n Hn) as [Ha _]. fold a in Ha.
  pose proof (Z.log2_spec (Z.pos d) ltac:(lia)) as [_ Hb]. fold b in Hb.
  pose proof (Z.log2_nonneg n). pose proof (Z.log2_nonneg (Z.pos d)).
  assert (HY : 2 ^ (Z.succ b) == inject_Z (2 ^ Z.succ b))
    by (rewrite Zpower_Qpower by lia; reflexivity).
  assert (HX : 2 ^ (a - b - 1) * 2 ^ (Z.succ b) == inject_Z (2 ^ a)).
  { rewrite <- Qpower_plus by discriminate.
    replace (a - b - 1 + Z.succ b)%Z with a by lia.
    rewrite Zpower_Qpower by lia. reflexivity. }
  pose proof (two_pow_pos (a - b - 1)) as HXpos.
  pose proof (two_pow_pos (Z.succ b)) as HYpos.
  apply Qnot_lt_le. intros Hlt.
  assert (H1 : (n # d) * 2 ^ Z.succ b < inject_Z (2 ^ a)).
  { rewrite <- HX. apply Qmult_lt_r; assumption. }
  rewrite HY in H1. unfold Qlt, Qmult, inject_Z in H1. simpl in H1.
  fold a b in H1. nia.
Qed.

Lemma binade_upper (q : Q) : 0 < q -> q < 2 ^ (binade q + 1).
Proof.
  intros Hq. unfold binade.
  destruct (Qle_bool _ q) eqn:E.
  - destruct q as [n d]. cbn [Qnum Qden] in *.
    assert (Hn : (0 < n)%Z) by (unfold Qlt in Hq; simpl in Hq; lia).
    set (a := Z.log2 n). set (b := Z.log2 (Z.pos d)).
    pose proof (Z.log2_spec n Hn) as [_ Ha]. fold a in Ha.
    pose proof (Z.log2_spec (Z.pos d) ltac:(lia)) as [Hb _]. fold b in Hb.
    pose proof (Z.log2_nonneg n). pose proof (Z.log2_nonneg (Z.pos d)).
    assert (HY : 2 ^ b == inject_Z (2 ^ b))
      by (rewrite Zpower_Qpower by lia; reflexivity).
    assert (HX : 2 ^ (a - b + 1) * 2 ^ b == inject_Z (2 ^ Z.succ a)).
    { rewrite <- Qpower_plus by discriminate.
      replace (a - b + 1 + b)%Z with (Z.succ a) by lia.
      rewrite Zpower_Qpower by lia. reflexivity. }
    pose proof (two_pow_pos b) as HYpos.
    apply Qnot_le_lt. intros Hle.
    assert (H1 : inject_Z (2 ^ Z.succ a) <= (n # d) * 2 ^ b).
    { rewrite <- HX. apply Qmult_le_r; assumption. }
    rewrite HY in H1. unfold Qle, Qmult, inject_Z in H1. simpl in H1.
    fold a b in H1. nia.
  - replace (Z.log2 (Qnum q) - Z.log2 (Z.pos (Qden q)) - 1 + 1)%Z
      with (Z.log2 (Qnum q) - Z.log2 (Z.pos (Qden q)))%Z by lia.
    apply Qnot_le_lt. intros Hle. apply Qle_bool_iff in Hle. congruence.
Qed.

Lemma nearest_even_close (y : Q) :
  y - (1 # 2) <= inject_Z (nearest_even y) <= y + (1 # 2).
Proof.
  unfold nearest_even.
  pose proof (Qfloor_le y) as Hlo. pose proof (Qlt_floor y) as Hhi.
  rewrite inject_Z_plus in Hhi. change (inject_Z 1) with 1 in Hhi.
  destruct (Qcompare_spec (y - inject_Z (Qfloor y)) (1 # 2)) as [E|E|E].
  - destruct (Z.even (Qfloor y));
      [|rewrite inject_Z_plus; change (inject_Z 1) with 1]; lra.
  - lra.
  - rewrite inject_Z_plus. change (inject_Z 1) with 1. lra.
Qed.

Lemma round_pos_error (q : Q) :
  0 < q -> q * (1 - u) <= round_pos q <= q * (1 + u).
Proof.
  intros Hq. unfold round_pos.
  set (e := (binade q - 52)%Z).
  pose proof (two_pow_pos e) as HP.
  pose proof (nearest_even_close (q / 2 ^ e)) as Hm.
  set (M := inject_Z (nearest_even (q / 2 ^ e))) in *.
  assert (Hy : q / 2 ^ e * 2 ^ e == q).
  { field. intros H0. rewrite H0 in HP. discriminate. }
  assert (Hb : 2 ^ e * 4503599627370496 <= q).
  { pose proof (binade_lower q Hq) as Hl.
    replace (binade q) with (e + 52)%Z in Hl by (subst e; lia).
    rewrite Qpower_plus in Hl by discriminate. exact Hl. }
  set (P := 2 ^ e) in *. set (y := q / P) in *. unfold u.
  clearbody M y P. clear e.
  assert (H1 : 0 <= (M - y + (1 # 2)) * P)
    by (apply Qmult_le_0_compat; [clear - Hm; lra | clear - HP; lra]).
  assert (H2 : 0 <= (y + (1 # 2) - M) * P)
    by (apply Qmult_le_0_compat; [clear - Hm; lra | clear - HP; lra]).
  clear Hm.
  split; lra.
Qed.

Lemma round_error (q : Q) :
  0 <= q -> q * (1 - u) <= round q <= q * (1 + u).
Proof.
  intros Hq. unfold round.
  pose proof (Qred_correct q) as Hr.
  set (q' := Qred q) in *. clearbody q'.
  destruct (Qnum q') as [|p|p] eqn:E.
  - assert (q' == 0) by (unfold Qeq; rewrite E; reflexivity). unfold u. lra.
  - assert (0 < q') by (unfold Qlt; rewrite E; simpl; lia).
    pose proof (round_pos_error q' H). unfold u in *. lra.
  - assert (q' < 0) by (unfold Qlt; rewrite E; simpl; lia). lra.
Qed.

Lemma round_compat (q q' : Q) : q == q' -> round q = round q'.
Proof. intros H. unfold round. rewrite (Qred_complete _ _ H). reflexivity. Qed.

(** The expression [Math.round((d / t) * 100)] of both analyzers. *)
Definition pct (d t : Z) : Z :=
  Math_round (mul (div (inject_Z d) (inject_Z t)) 100).

Lemma pct_bounds (d t : Z) :
  (0 <= d <= t)%Z -> (0 < t)%Z ->
  let x := mul (div (inject_Z d) (inject_Z t)) 100 in
  0 <= x
  /\ 100 * (1 - u) * (1 - u) * inject_Z d <= inject_Z t * x
     <= 100 * (1 + u) * (1 + u) * inject_Z d.
Proof.
  intros Hd Ht x. subst x. unfold mul, div.
  set (D := inject_Z d). set (T := inject_Z t).
  assert (HD : 0 <= D) by (subst D; unfold Qle, inject_Z; simpl; lia).
  assert (HT : 0 < T) by (subst T; unfold Qlt, inject_Z; simpl; lia).
  assert (Hx0 : D / T * T == D).
  { field. intros H0. rewrite H0 in HT. discriminate. }
  assert (Hx0pos : 0 <= D / T).
  { apply Qle_shift_div_l; [exact HT|lra]. }
  pose proof (round_error (D / T) Hx0pos) as Hr.
  set (x0 := D / T) in *. set (r := round x0) in *. clearbody r x0.
  assert (Hrpos : 0 <= r).
  { assert (0 <= x0 * (1 - u)) by (apply Qmult_le_0_compat; [exact Hx0pos|unfold u; lra]).
    lra. }
  assert (Hr100 : 0 <= r * 100) by lra.
  pose proof (round_error (r * 100) Hr100) as Hx.
  set (x := round (r * 100)) in *. clearbody x.
  assert (Hxpos : 0 <= x).
  { assert (0 <= r * 100 * (1 - u)) by (apply Qmult_le_0_compat; [lra|unfold u; lra]).
    lra. }
  split; [exact Hxpos|].
  assert (A1 : 0 <= (r - x0 * (1 - u)) * T) by (apply Qmult_le_0_compat; lra).
  assert (A2 : 0 <= (x0 * (1 + u) - r) * T) by (apply Qmult_le_0_compat; lra).
  assert (A3 : 0 <= (x - r * 100 * (1 - u)) * T) by (apply Qmult_le_0_compat; lra).
  assert (A4 : 0 <= (r * 100 * (1 + u) - x) * T) by (apply Qmult_le_0_compat; lra).
  unfold u in *. split.
  - nra.
  - nra.
Qed.


Lemma pct_floor (d t : Z) :
  (0 < t)%Z ->
  let x := mul (div (inject_Z d) (inject_Z t)) 100 in
  let p := inject_Z (pct d t) in
  2 * inject_Z t * p <= 2 * (inject_Z t * x) + inject_Z t
  /\ 2 * (inject_Z t * x) - inject_Z t < 2 * inject_Z t * p.
Proof.
  intros Ht x p. subst p. unfold pct, Math_round. fold x.
  pose proof (Qfloor_le (x + (1 # 2))) as Hlo.
  pose proof (Qlt_floor (x + (1 # 2))) as Hhi.
  rewrite inject_Z_plus in Hhi. change (inject_Z 1) with 1 in Hhi.
  set (P := inject_Z (Qfloor (x + (1 # 2)))) in *.
  assert (HT : 0 < inject_Z t) by (unfold Qlt, inject_Z; simpl; lia).
  set (T := inject_Z t) in *. clearbody P x T.
  assert (A1 : 0 <= (x + (1 # 2) - P) * T) by (apply Qmult_le_0_compat; lra).
  assert (A2 : 0 < (P + 1 - (x + (1 # 2))) * T) by (apply Qmult_lt_0_compat; lra).
  split; lra.
Qed.

Lemma Q_to_Z_lt (a b : Z) : inject_Z a < inject_Z b -> (a < b)%Z.
Proof. intros H. rewrite Zlt_Qlt. exact H. Qed.

(** The percentage is a nearest integer of [100 * d / t]. *)
Lemma pct_nearest (d t : Z) :
  (0 <= d <= t)%Z -> (0 < t < 4294967296)%Z ->
  (200 * d - t <= 2 * t * pct d t <= 200 * d + t)%Z.
Proof.
  intros Hd Ht.
  destruct (pct_bounds d t Hd ltac:(lia)) as [_ [Hlo Hhi]].
  destruct (pct_floor d t ltac:(lia)) as [Hp1 Hp2].
  cbv zeta in *.
  assert (HD : 0 <= inject_Z d) by (unfold Qle, inject_Z; simpl; lia).
  assert (HDT : inject_Z d <= inject_Z t) by (rewrite <- Zle_Qle; lia).
  assert (HT : inject_Z t < 4294967296) by (unfold Qlt, inject_Z; simpl; lia).
  set (x := mul (div (inject_Z d) (inject_Z t)) 100) in *.
  assert (H1 : inject_Z (2 * t * pct d t) < inject_Z (200 * d + t + 1)).
  { rewrite !inject_Z_plus, !inject_Z_mult.
    change (inject_Z 2) with 2. change (inject_Z 200) with 200.
    change (inject_Z 1) with 1.
    set (P := inject_Z (pct d t)) in *. set (D := inject_Z d) in *.
    set (T := inject_Z t) in *. set (TX := T * x) in *. set (TP := 2 * T * P) in *.
    clearbody TP TX T D. unfold u in *. lra. }
  assert (H2 : inject_Z (200 * d - t - 1) < inject_Z (2 * t * pct d t)).
  { unfold Z.sub. rewrite !inject_Z_plus, !inject_Z_opp, !inject_Z_mult.
    change (inject_Z 2) with 2. change (inject_Z 200) with 200.
    change (inject_Z 1) with 1.
    set (P := inject_Z (pct d t)) in *. set (D := inject_Z d) in *.
    set (T := inject_Z t) in *. set (TX := T * x) in *. set (TP := 2 * T * P) in *.
    clearbody TP TX T D. unfold u in *. lra. }
  apply Q_to_Z_lt in H1. apply Q_to_Z_lt in H2. lia.
Qed.

(** The percentage lies between 0 and 100. *)
Lemma pct_range (d t : Z) :
  (0 <= d <= t)%Z -> (0 < t)%Z -> (0 <= pct d t <= 100)%Z.
Proof.
  intros Hd Ht.
  destruct (pct_bounds d t Hd Ht) as [Hpos [_ Hhi]].
  destruct (pct_floor d t Ht) as [Hp1 Hp2].
  cbv zeta in *.
  assert (HD : 0 <= inject_Z d) by (unfold Qle, inject_Z; simpl; lia).
  assert (HDT : inject_Z d <= inject_Z t) by (rewrite <- Zle_Qle; lia).
  assert (HT : 0 < inject_Z t) by (unfold Qlt, inject_Z; simpl; lia).
  set (x := mul (div (inject_Z d) (inject_Z t)) 100) in *.
  assert (HTX : 0 <= inject_Z t * x) by (apply Qmult_le_0_compat; lra).
  assert (H1 : inject_Z (2 * t * pct d t) < inject_Z (2 * t * 101)).
  { rewrite !inject_Z_mult.
    change (inject_Z 2) with 2. change (inject_Z 101) with 101.
    set (P := inject_Z (pct d t)) in *. set (D := inject_Z d) in *.
    set (T := inject_Z t) in *. set (TX := T * x) in *. set (TP := 2 * T * P) in *.
    clearbody TP TX T D. unfold u in *. lra. }
  assert (H2 : inject_Z (2 * t * (-1)) < inject_Z (2 * t * pct d t)).
  { rewrite !inject_Z_mult.
    change (inject_Z 2) with 2. change (inject_Z (-1)) with (-1).
    set (P := inject_Z (pct d t)) in *. set (D := inject_Z d) in *.
    set (T := inject_Z t) in *. set (TX := T * x) in *. set (TP := 2 * T * P) in *.
    clearbody TP TX T D. lra. }
  apply Q_to_Z_lt in H1. apply Q_to_Z_lt in H2. nia.
Qed.

(** At 199 of 200 the double arithmetic is exact. *)
Lemma pct_tie (d t : Z) :
  (0 < t)%Z -> (200 * d = 199 * t)%Z -> pct d t = 100%Z.
Proof.
  intros Ht H. unfold pct, div.
  rewrite (round_compat (inject_Z d / inject_Z t) (199 # 200)).
  - vm_compute. reflexivity.
  - destruct t as [|p|p]; try lia.
    unfold Qeq, Qdiv, Qmult, Qinv, inject_Z; simpl. lia.
Qed.

End DoubleFacts.

Module StatsFacts.

Lemma split_by_doc (symbols : list ExportedSymbol) :
  length (filter (fun s => hasJSDoc s) symbols)
  + length (filter (fun s => negb (hasJSDoc s)) symbols) = length symbols.
Proof.
  induction symbols as [|s l IH]; simpl; [reflexivity|].
  destruct (hasJSDoc s); simpl; lia.
Qed.

Lemma documented_le_total (symbols : list ExportedSymbol) :
  documented (calculateStats symbols) <= total (calculateStats symbols).
Proof.
  simpl. pose proof (split_by_doc symbols). lia.
Qed.

(** The percentage of a non-empty list is the expression of the code. *)
Lemma percentage_nonempty (symbols : list ExportedSymbol) :
  symbols <> [] ->
  percentage (calculateStats symbols)
  = DoubleFacts.pct (Z.of_nat (documented (calculateStats symbols)))
      (Z.of_nat (total (calculateStats symbols))).
Proof.
  intros Hne. unfold calculateStats; simpl.
  destruct symbols as [|s l]; [congruence|]. reflexivity.
Qed.

End StatsFacts.

Lemma empty_or_not (A : Type) (l : list A) : l = [] \/ l <> [].
Proof. destruct l; [left; reflexivity | right; discriminate]. Qed.

Lemma total_pos (symbols : list ExportedSymbol) :
  symbols <> [] -> (0 < Z.of_nat (total (calculateStats symbols)))%Z.
Proof.
  intros Hne. simpl. destruct symbols; [congruence | simpl; lia].
Qed.

Lemma percentage_range (symbols : list ExportedSymbol) :
  (0 <= percentage (calculateStats symbols) <= 100)%Z.
Proof.
  destruct (empty_or_not _ symbols) as [E|Hne].
  - subst symbols. cbn. lia.
  - rewrite (StatsFacts.percentage_nonempty symbols Hne).
    pose proof (total_pos symbols Hne).
    pose proof (StatsFacts.documented_le_total symbols).
    apply DoubleFacts.pct_range; lia.
Qed.

(** C8.  For every list of symbols, [calculateStats] returns statistics
    with [documented + undocumented = total] and a percentage between 0 and
    100; the percentage is 100 for the empty list, and otherwise it is
    [Math.round ((documented / total) * 100)] as the doubles give it, which
    for a list shorter than [2^32], as every array is, is an integer at
    distance at most one half from [100 * documented / total]. *)
Theorem calculateStats_percentage (symbols : list ExportedSymbol) :
  let s := calculateStats symbols in
  let t := Z.of_nat (total s) in
  let d := Z.of_nat (documented s) in
  total s = length symbols /\
  documented s + undocumented s = total s /\
  (0 <= percentage s <= 100)%Z /\
  ((total s = 0 /\ percentage s = 100%Z) \/
   (total s <> 0 /\
    percentage s
    = Math_round (Double.mul (Double.div (inject_Z d) (inject_Z t)) 100%Q) /\
    ((t < 4294967296)%Z ->
     (2 * t * percentage s - t <= 200 * d <= 2 * t * percentage s + t)%Z))).
Proof.
  intros s t d.
  split; [reflexivity|]. split; [apply StatsFacts.split_by_doc|].
  split; [apply percentage_range|].
  destruct (empty_or_not _ symbols) as [E|Hne].
  - left. subst s symbols. split; reflexivity.
  - right. pose proof (total_pos symbols Hne) as Ht. fold s t in Ht.
    pose proof (StatsFacts.percentage_nonempty symbols Hne) as Hp.
    pose proof (StatsFacts.documented_le_total symbols) as Hd.
    fold s d t in Hp. fold s in Hd.
    split; [subst t; lia|]. split; [exact Hp|].
    intros Htl. rewrite Hp.
    pose proof (DoubleFacts.pct_nearest d t) as Hn.
    subst d t. lia.
Qed.

(** 23 documented symbols followed by 17 undocumented ones. *)
Definition twentyThreeOfForty : list ExportedSymbol :=
  repeat (mkSymbol "f" TFunction "mod.ts" 1 true None Named) 23
  ++ repeat (mkSymbol "f" TFunction "mod.ts" 1 false None Named) 17.

(** At a tie the doubles decide between the two nearest integers: 23 of 40
    is 57.5 and comes out as 57, 1 of 8 is 12.5 and comes out as 13. *)
Example percentage_at_ties :
  percentage (calculateStats twentyThreeOfForty) = 57%Z
  /\ DoubleFacts.pct 1 8 = 13%Z.
Proof. split; vm_compute; reflexivity. Qed.

Lemma calculateStats_percentage_witness :
  let s := calculateStats twentyThreeOfForty in
  total s = 40 /\ documented s + undocumented s = total s
  /\ percentage s = 57%Z
  /\ (2 * 40 * percentage s - 40 <= 200 * 23 <= 2 * 40 * percentage s + 40)%Z.
Proof.
  destruct (calculateStats_percentage twentyThreeOfForty)
    as [Htotal [Hsum [_ [[H0 _]|[_ [Hp Hnear]]]]]].
  - vm_compute in H0. discriminate.
  - split; [exact Htotal|]. split; [exact Hsum|].
    split; [vm_compute; reflexivity|].
    apply Hnear. vm_compute. reflexivity.
Defined.

(** C2, as the program has it.  The percentage is 100 exactly when the
    list is empty or at least 99.5 percent of the symbols are documented:
    [199 * total <= 200 * documented].  The list is an array, which has
    fewer than [2^32] elements. *)
Theorem percentage_100_iff (symbols : list ExportedSymbol) :
  (Z.of_nat (length symbols) < 4294967296)%Z ->
  let s := calculateStats symbols in
  percentage s = 100%Z <-> (total s = 0 \/ 199 * total s <= 200 * documented s).
Proof.
  intros Hlen s.
  destruct (empty_or_not _ symbols) as [E|Hne].
  - subst s symbols. cbn. split; [now left|reflexivity].
  - pose proof (total_pos symbols Hne) as Ht.
    pose proof (percentage_range symbols) as Hrange.
    pose proof (StatsFacts.percentage_nonempty symbols Hne) as Hp.
    pose proof (StatsFacts.documented_le_total symbols) as Hd.
    fold s in Ht, Hrange, Hp, Hd. rewrite Hp in *.
    assert (Htl : (Z.of_nat (total s) < 4294967296)%Z) by exact Hlen.
    set (d := Z.of_nat (documented s)) in *.
    set (t := Z.of_nat (total s)) in *.
    pose proof (DoubleFacts.pct_nearest d t ltac:(subst d t; lia) ltac:(lia)) as Hn.
    split.
    + intros H100. right. rewrite H100 in Hn. subst d t. lia.
    + intros [H0|Hge]; [subst t; lia|].
      destruct (Z.eq_dec (200 * d) (199 * t)) as [Htie|Hoff].
      * apply DoubleFacts.pct_tie; [exact Ht|exact Htie].
      * assert (199 * t < 200 * d)%Z by (subst d t; lia). nia.
Qed.

(** A documented and an undocumented symbol. *)
Definition symbolWith (doc : bool) : ExportedSymbol :=
  mkSymbol "f" TFunction "mod.ts" 1 doc None Named.

(** 201 symbols, all but one documented. *)
Definition allButOne : list ExportedSymbol :=
  repeat (symbolWith true) 200 ++ [symbolWith false].

Example allButOne_stats :
  let s := calculateStats allButOne in
  (total s, documented s, undocumented s, percentage s) = (201, 200, 1, 100%Z).
Proof. vm_compute. reflexivity. Qed.

(** C2, as stated, fails: 200 documented symbols out of 201 give
    99.502..., which rounds to 100 although one symbol is undocumented. *)
Lemma percentage_100_not_all_documented :
  let s := calculateStats allButOne in
  ~ (percentage s = 100%Z <-> (total s = 0 \/ documented s = total s)).
Proof.
  intros s [H _].
  assert (Hp : percentage s = 100%Z) by (vm_compute; reflexivity).
  destruct (H Hp) as [H0|Hd]; vm_compute in H0 || vm_compute in Hd; discriminate.
Qed.

Lemma percentage_100_iff_witness :
  let s := calculateStats allButOne in
  percentage s = 100%Z <-> (total s = 0 \/ 199 * total s <= 200 * documented s).
Proof.
  apply (percentage_100_iff allButOne). vm_compute. reflexivity.
Defined.

(* ===================================================================== *)
(** ** The tracer: visited files and termination *)
(* ===================================================================== *)

Section TraceFacts.
Context {RT : Runtime}.
Variable fs : FileSystem.
Variable rootPath : string.

Lemma lookup_In (A : Type) (k : string) (m : list (string * A)) (v : A) :
  lookup k m = Some v -> In k (map fst m).
Proof.
  induction m as [|[k' v'] m IH]; simpl; [discriminate|].
  destruct (String.eqb_spec k' k); [intros _; now left | intros H; right; auto].
Qed.

Lemma readable_In (p c : string) :
  readTextFile fs p = Ok c -> In p (map fst fs).
Proof.
  unfold readTextFile. destruct (lookup p fs) as [n|] eqn:E; [|discriminate].
  intros _. eapply lookup_In; eauto.
Qed.

Lemma mem_In (k : string) (l : list string) : mem k l = true <-> In k l.
Proof.
  unfold mem. rewrite existsb_exists. split.
  - intros [x [Hin Heq]]. apply String.eqb_eq in Heq. now subst.
  - intros Hin. exists k. split; [assumption | apply String.eqb_refl].
Qed.

Lemma visited_In (p : string) (st : TraceState) :
  visited p st = true <-> In p (analyzedFiles st).
Proof. apply mem_In. Qed.

(** The paths of the file system that the tracer has not entered yet. *)
Definition pending (seen : list string) : list string :=
  filter (fun p => negb (mem p seen)) (map fst fs).

Lemma pending_bound (seen : list string) : length (pending seen) <= length fs.
Proof.
  unfold pending. etransitivity; [apply filter_length_le|].
  rewrite length_map. reflexivity.
Qed.

Lemma pending_incl (seen seen' : list string) :
  incl seen seen' -> length (pending seen') <= length (pending seen).
Proof.
  intros Hincl. unfold pending.
  induction (map fst fs) as [|p l IH]; simpl; [lia|].
  destruct (mem p seen') eqn:E'; destruct (mem p seen) eqn:E; simpl; try lia.
  apply mem_In in E. apply Hincl in E. apply mem_In in E. congruence.
Qed.

Lemma mem_cons (x p : string) (seen : list string) :
  mem x (p :: seen) = (p =? x)%string || mem x seen.
Proof. reflexivity. Qed.

Lemma pending_enter (seen : list string) (p : string) :
  In p (map fst fs) -> mem p seen = false ->
  length (pending (p :: seen)) < length (pending seen).
Proof.
  intros Hin Hnew. unfold pending.
  induction (map fst fs) as [|q l IH]; [contradiction|].
  assert (Hle : length (filter (fun x => negb (mem x (p :: seen))) l)
                <= length (filter (fun x => negb (mem x seen)) l)).
  { clear. induction l as [|x l IH]; [simpl; lia|].
    cbn [filter]. rewrite mem_cons.
    destruct (p =? x)%string; destruct (mem x seen); cbn [negb orb length]; lia. }
  cbn [filter]. rewrite mem_cons.
  destruct Hin as [Heq|Hin].
  - subst q. rewrite String.eqb_refl, Hnew. cbn [negb orb length]. lia.
  - specialize (IH Hin).
    destruct (p =? q)%string; destruct (mem q seen); cbn [negb orb length]; lia.
Qed.

(** Recording an export leaves the set of visited files alone. *)
Lemma fold_keeps (A : Type) (Inv : TraceState -> Prop)
  (f : TraceState -> A -> TraceState) (l : list A) :
  (forall st a, Inv st -> Inv (f st a)) ->
  forall st, Inv st -> Inv (fold_left f l st).
Proof.
  intros Hf. induction l as [|a l IH]; simpl; auto.
Qed.

Definition export_closed (Inv : TraceState -> Prop) : Prop :=
  forall st f e, Inv st -> Inv (withExport st f e).

Lemma traceSelective_keeps (Inv : TraceState -> Prop) filePath resolvedPath i items :
  export_closed Inv ->
  forall st, Inv st -> Inv (traceSelective fs filePath resolvedPath i items st).
Proof.
  intros Hc. unfold traceSelective. apply fold_keeps.
  intros st a Hst. destruct (splitAs a). apply Hc, Hst.
Qed.

Lemma traceLocal_keeps (Inv : TraceState -> Prop) filePath content dir i items :
  export_closed Inv ->
  forall st, Inv st -> Inv (traceLocal fs filePath content dir i items st).
Proof.
  intros Hc. unfold traceLocal. apply fold_keeps.
  intros st a Hst. destruct (splitAs a).
  destruct (findImportSource fs content s dir); apply Hc, Hst.
Qed.

(** One line keeps an invariant that the recursive call keeps. *)
Lemma traceLine_keeps (Inv : TraceState -> Prop)
  (self : string -> TraceState -> option TraceState)
  filePath content dir i l st :
  export_closed Inv ->
  (forall q s, Inv s -> exists s', self q s = Some s' /\ Inv s') ->
  Inv st ->
  exists st', traceLine fs self filePath content dir i l st = Some st' /\ Inv st'.
Proof.
  intros Hc Hself Hst. unfold traceLine.
  destruct (_ || _ || _).
  - destruct (match_ re_from (trim l)) as [fromMatch|].
    + destruct (resolveImportPath fs (group 1 fromMatch) dir) as [resolvedPath|];
        [|eauto].
      destruct (startsWith (trim l) "export *").
      * destruct (Hself resolvedPath st Hst) as [st' [-> Hst']].
        eexists; split; [reflexivity|]. apply fold_keeps; auto.
      * destruct (match_ re_export_list (trim l)); [|eauto].
        eexists; split; [reflexivity|]. apply traceSelective_keeps; auto.
    + destruct (_ || _); [|eauto].
      destruct (match_ re_export_list (trim l)); [|eauto].
      eexists; split; [reflexivity|]. apply traceLocal_keeps; auto.
  - destruct (isDirectExport (trim l)); [|eauto].
    destruct (extractExportName (trim l)) as [n|]; [|eauto].
    destruct (truthy n); eauto.
Qed.

Lemma traceLines_keeps (Inv : TraceState -> Prop)
  (self : string -> TraceState -> option TraceState)
  filePath content dir lines :
  export_closed Inv ->
  (forall q s, Inv s -> exists s', self q s = Some s' /\ Inv s') ->
  forall i st, Inv st ->
  exists st', traceLines fs self filePath content dir lines i st = Some st' /\ Inv st'.
Proof.
  intros Hc Hself. induction lines as [|l lines IH]; intros i st Hst; simpl.
  - eauto.
  - destruct (traceLine_keeps Inv self filePath content dir i l st Hc Hself Hst)
      as [st1 [-> H1]].
    apply IH, H1.
Qed.

(** Files are only ever added to the visited set. *)
Definition grows_from (seen : list string) (st : TraceState) : Prop :=
  incl seen (analyzedFiles st).

Lemma grows_closed (seen : list string) : export_closed (grows_from seen).
Proof. intros st f e H. exact H. Qed.

(** With more fuel than pending files, the tracer returns; the file it was
    called on is visited afterwards, and no file is forgotten. *)
Lemma trace_total (fuel : nat) :
  forall filePath st,
    length (pending (analyzedFiles st)) < fuel ->
    exists st',
      traceExportsFromFile fs fuel filePath st rootPath = Some st'
      /\ incl (analyzedFiles st) (analyzedFiles st')
      /\ visited filePath st' = true.
Proof.
  induction fuel as [|fuel IH]; intros filePath st Hfuel; [lia|].
  simpl. destruct (visited filePath st) eqn:Hv.
  - exists st. repeat split; auto using incl_refl.
  - set (st1 := mkTrace (filePath :: analyzedFiles st) (exportMap st)).
    assert (Hv1 : forall s, grows_from (analyzedFiles st1) s -> visited filePath s = true).
    { intros s Hs. apply visited_In, Hs. now left. }
    assert (H01 : incl (analyzedFiles st) (analyzedFiles st1))
      by (apply incl_tl, incl_refl).
    destruct (readTextFile fs filePath) as [content|] eqn:Hread; simpl.
    + assert (Hlt : length (pending (analyzedFiles st1)) < fuel).
      { pose proof (pending_enter (analyzedFiles st) filePath
                      (readable_In _ _ Hread) Hv). simpl. lia. }
      destruct (traceLines_keeps (grows_from (analyzedFiles st1))
                  (fun p s => traceExportsFromFile fs fuel p s rootPath)
                  filePath content (dirname filePath)
                  (split newline content) (grows_closed _)) with (i := 0) (st := st1)
        as [st' [Hrun Hgrow]].
      * intros q s Hs.
        destruct (IH q s) as [s' [Hq [Hincl _]]].
        { pose proof (pending_incl _ _ Hs). lia. }
        exists s'. split; [exact Hq|]. eapply incl_tran; eauto.
      * apply incl_refl.
      * exists st'. split; [exact Hrun|]. split; [|auto].
        eapply incl_tran; eauto.
    + exists st1. repeat split; auto. apply Hv1, incl_refl.
Qed.

(** The bound used by [analyzeFromExports] is always enough. *)
Lemma trace_returns (filePath : string) (st : TraceState) :
  exists st',
    traceExportsFromFile fs (S (length fs)) filePath st rootPath = Some st'
    /\ incl (analyzedFiles st) (analyzedFiles st')
    /\ visited filePath st' = true.
Proof.
  apply trace_total. pose proof (pending_bound (analyzedFiles st)). lia.
Qed.

(** *** What a returned call has done *)

Lemma traceLine_sound (Inv : TraceState -> Prop)
  (self : string -> TraceState -> option TraceState)
  filePath content dir i l st st' :
  export_closed Inv ->
  (forall q s s', Inv s -> self q s = Some s' -> Inv s') ->
  Inv st ->
  traceLine fs self filePath content dir i l st = Some st' -> Inv st'.
Proof.
  intros Hc Hself Hst. unfold traceLine.
  destruct (_ || _ || _).
  - destruct (match_ re_from (trim l)) as [fromMatch|].
    + destruct (resolveImportPath fs (group 1 fromMatch) dir) as [resolvedPath|];
        [|intros [= <-]; assumption].
      destruct (startsWith (trim l) "export *").
      * destruct (self resolvedPath st) as [s1|] eqn:E; [|discriminate].
        intros [= <-]. apply fold_keeps; [auto|]. eapply Hself; eauto.
      * destruct (match_ re_export_list (trim l)); intros [= <-]; [|assumption].
        apply traceSelective_keeps; auto.
    + destruct (_ || _); [|intros [= <-]; assumption].
      destruct (match_ re_export_list (trim l)); intros [= <-]; [|assumption].
      apply traceLocal_keeps; auto.
  - destruct (isDirectExport (trim l)); [|intros [= <-]; assumption].
    destruct (extractExportName (trim l)) as [n|]; [|intros [= <-]; assumption].
    destruct (truthy n); intros [= <-]; auto.
Qed.

Lemma traceLines_sound (Inv : TraceState -> Prop)
  (self : string -> TraceState -> option TraceState)
  filePath content dir lines :
  export_closed Inv ->
  (forall q s s', Inv s -> self q s = Some s' -> Inv s') ->
  forall i st st', Inv st ->
  traceLines fs self filePath content dir lines i st = Some st' -> Inv st'.
Proof.
  intros Hc Hself. induction lines as [|l lines IH]; intros i st st' Hst; simpl.
  - intros [= <-]. assumption.
  - destruct (traceLine fs self filePath content dir i l st) as [s1|] eqn:E;
      [|discriminate].
    apply IH. eapply traceLine_sound; eauto.
Qed.

(** A call that returns has visited its file and forgotten none. *)
Lemma trace_grows (fuel : nat) :
  forall filePath st st',
    traceExportsFromFile fs fuel filePath st rootPath = Some st' ->
    incl (analyzedFiles st) (analyzedFiles st') /\ visited filePath st' = true.
Proof.
  induction fuel as [|fuel IH]; intros filePath st st'; simpl; [discriminate|].
  destruct (visited filePath st) eqn:Hv.
  - intros [= <-]. split; [apply incl_refl | assumption].
  - set (st1 := mkTrace (filePath :: analyzedFiles st) (exportMap st)).
    destruct (readTextFile fs filePath) as [content|]; simpl.
    + intros Hrun.
      assert (Hg : grows_from (analyzedFiles st1) st').
      { eapply traceLines_sound; [apply grows_closed | | | exact Hrun].
        - intros q s s' Hs Hq. apply IH in Hq. eapply incl_tran; [exact Hs|apply Hq].
        - apply incl_refl. }
      split.
      * eapply incl_tran; [|exact Hg]. apply incl_tl, incl_refl.
      * apply visited_In, Hg. now left.
    + intros [= <-]. split; [apply incl_tl, incl_refl|].
      apply visited_In. now left.
Qed.

(** *** The bound does not show in the result *)

Definition extends (self1 self2 : string -> TraceState -> option TraceState) : Prop :=
  forall q s r, self1 q s = Some r -> self2 q s = Some r.

Lemma traceLine_extends self1 self2 filePath content dir i l st r :
  extends self1 self2 ->
  traceLine fs self1 filePath content dir i l st = Some r ->
  traceLine fs self2 filePath content dir i l st = Some r.
Proof.
  intros Hext. unfold traceLine.
  destruct (_ || _ || _); [|auto].
  destruct (match_ re_from (trim l)) as [fromMatch|]; [|auto].
  destruct (resolveImportPath fs (group 1 fromMatch) dir) as [resolvedPath|]; [|auto].
  destruct (startsWith (trim l) "export *"); [|auto].
  destruct (self1 resolvedPath st) as [s1|] eqn:E; [|discriminate].
  rewrite (Hext _ _ _ E). auto.
Qed.

Lemma traceLines_extends self1 self2 filePath content dir lines :
  extends self1 self2 ->
  forall i st r,
    traceLines fs self1 filePath content dir lines i st = Some r ->
    traceLines fs self2 filePath content dir lines i st = Some r.
Proof.
  intros Hext. induction lines as [|l lines IH]; intros i st r; simpl; [auto|].
  destruct (traceLine fs self1 filePath content dir i l st) as [s1|] eqn:E;
    [|discriminate].
  rewrite (traceLine_extends _ _ _ _ _ _ _ _ _ Hext E). apply IH.
Qed.

Lemma trace_fuel_S (fuel : nat) :
  forall filePath st r,
    traceExportsFromFile fs fuel filePath st rootPath = Some r ->
    traceExportsFromFile fs (S fuel) filePath st rootPath = Some r.
Proof.
  induction fuel as [|fuel IH]; intros filePath st r; [discriminate|].
  intros H. simpl in H. cbn [traceExportsFromFile].
  destruct (visited filePath st); [exact H|].
  destruct (readTextFile fs filePath) as [content|]; simpl in *; [|exact H].
  eapply traceLines_extends; [|exact H].
  intros q s r'. apply IH.
Qed.

Lemma trace_fuel_add (extra fuel : nat) filePath st r :
  traceExportsFromFile fs fuel filePath st rootPath = Some r ->
  traceExportsFromFile fs (fuel + extra) filePath st rootPath = Some r.
Proof.
  induction extra as [|k IH]; intros H.
  - now rewrite Nat.add_0_r.
  - rewrite Nat.add_succ_r. apply trace_fuel_S, IH, H.
Qed.

(** *** A line [export * from spec] enters the file [spec] resolves to *)

Definition star_line (l : string) (dir target : string) : Prop :=
  startsWith (trim l) "export *" = true /\
  exists fromMatch,
    match_ re_from (trim l) = Some fromMatch /\
    resolveImportPath fs (group 1 fromMatch) dir = Some target.

Definition well_behaved (self : string -> TraceState -> option TraceState) : Prop :=
  forall q s s', self q s = Some s' ->
    incl (analyzedFiles s) (analyzedFiles s') /\ visited q s' = true.

Lemma traceLines_enters self filePath content dir target la lines :
  well_behaved self ->
  star_line la dir target ->
  In la lines ->
  forall i st st',
    traceLines fs self filePath content dir lines i st = Some st' ->
    visited target st' = true.
Proof.
  intros Hself [Hstar [fromMatch [Hfrom Hres]]].
  assert (Hstep : forall seen q s s', grows_from seen s -> self q s = Some s' ->
                                      grows_from seen s').
  { intros seen q s s' Hs Hq. apply Hself in Hq.
    eapply incl_tran; [exact Hs | apply Hq]. }
  induction lines as [|l lines IH]; intros Hin i st st'; [contradiction|].
  simpl. destruct (traceLine fs self filePath content dir i l st) as [s1|] eqn:E;
    [|discriminate].
  intros Hrest. destruct Hin as [->|Hin]; [|eapply IH; eauto].
  assert (Ht : visited target s1 = true).
  { unfold traceLine in E. rewrite Hstar, Hfrom, Hres in E. simpl in E.
    destruct (self target st) as [s2|] eqn:E2; [|discriminate].
    injection E as <-. apply Hself in E2. destruct E2 as [_ Hv].
    apply visited_In. apply visited_In in Hv.
    apply (fold_keeps _ (fun s => In target (analyzedFiles s))); auto. }
  apply visited_In.
  eapply (traceLines_sound (grows_from (analyzedFiles s1)));
    [apply grows_closed | apply Hstep | apply incl_refl | exact Hrest |].
  apply visited_In, Ht.
Qed.

End TraceFacts.

Section CycleSafety.
Context {RT : Runtime}.
Variable fs : FileSystem.
Variable rootPath : string.

(** Entering a file that is already visited returns at once, with the
    state as it is. *)
Lemma reentry_returns (fuel : nat) (p : string) (s : TraceState) :
  visited p s = true -> traceExportsFromFile fs (S fuel) p s rootPath = Some s.
Proof. intros Hv. simpl. rewrite Hv. reflexivity. Qed.

(** Tracing from a file whose [export *] line leads to [target]. *)
Lemma trace_through_star (start target content la : string) (st : TraceState) :
  readTextFile fs start = Ok content ->
  In la (split newline content) ->
  star_line fs la (dirname start) target ->
  visited start st = false ->
  exists st',
    traceExportsFromFile fs (S (length fs)) start st rootPath = Some st'
    /\ visited start st' = true /\ visited target st' = true
    /\ forall extra,
         traceExportsFromFile fs (S (length fs) + extra) start st rootPath = Some st'.
Proof.
  intros Hread Hin Hstar Hnew.
  destruct (trace_returns fs rootPath start st) as [st' [Hrun [_ Hv]]].
  exists st'. split; [exact Hrun|]. split; [exact Hv|]. split.
  - simpl in Hrun. rewrite Hnew, Hread in Hrun. simpl in Hrun.
    eapply traceLines_enters; [| exact Hstar | exact Hin | exact Hrun].
    intros q s s' Hq. eapply trace_grows; eauto.
  - intros extra. apply trace_fuel_add, Hrun.
Qed.

(** C5.  When [a] has a line [export * from] that resolves to [b] and [b]
    has one that resolves to [a], tracing from either file returns: the
    bound on the recursion is not reached and does not show in the result,
    and both files are visited.  A file is entered in the visited set
    before its lines are scanned, so the second entry of the cycle returns
    at once. *)
Theorem export_star_cycle_terminates (a b ca cb la lb : string) (st : TraceState) :
  readTextFile fs a = Ok ca ->
  readTextFile fs b = Ok cb ->
  In la (split newline ca) -> star_line fs la (dirname a) b ->
  In lb (split newline cb) -> star_line fs lb (dirname b) a ->
  visited a st = false -> visited b st = false ->
  (exists st',
     traceExportsFromFile fs (S (length fs)) a st rootPath = Some st'
     /\ visited a st' = true /\ visited b st' = true
     /\ forall extra,
          traceExportsFromFile fs (S (length fs) + extra) a st rootPath = Some st')
  /\
  (exists st',
     traceExportsFromFile fs (S (length fs)) b st rootPath = Some st'
     /\ visited b st' = true /\ visited a st' = true
     /\ forall extra,
          traceExportsFromFile fs (S (length fs) + extra) b st rootPath = Some st')
  /\
  (forall fuel p s, visited p s = true ->
     traceExportsFromFile fs (S fuel) p s rootPath = Some s).
Proof.
  intros Ha Hb Hla Hsa Hlb Hsb Hna Hnb. split; [|split].
  - eapply trace_through_star; eauto.
  - eapply trace_through_star; eauto.
  - intros fuel p s. apply reentry_returns.
Qed.

End CycleSafety.

Module Cycle.

Definition a_ts : string := text
  [ "export * from './b.ts';";
    "export const x = 1;" ].

Definition b_ts : string := text
  [ "export * from './a.ts';";
    "export const y = 2;" ].

Definition fs : FileSystem :=
  [ ("/p", Directory); ("/p/a.ts", File a_ts); ("/p/b.ts", File b_ts) ].

Definition rt : Runtime := Posix.runtime "/p" [].

(** The run from [a.ts]: [b.ts] is scanned while [a.ts] has no exports
    recorded yet, so the bucket of [b.ts] misses [x]. *)
Example run_from_a :
  traceExportsFromFile (RT := rt) fs (S (length fs)) "/p/a.ts" (mkTrace [] []) "/p"
  = Some (mkTrace ["/p/b.ts"; "/p/a.ts"]
            [ ("/p/b.ts", [mkTraced "y" "y" "/p/b.ts" 2]);
              ("/p/a.ts", [mkTraced "y" "y" "/p/b.ts" 2;
                           mkTraced "x" "x" "/p/a.ts" 2]) ]).
Proof. vm_compute. reflexivity. Qed.

Lemma export_star_cycle_witness :
  (exists st',
     traceExportsFromFile (RT := rt) fs (S (length fs)) "/p/a.ts" (mkTrace [] []) "/p"
     = Some st'
     /\ visited "/p/a.ts" st' = true /\ visited "/p/b.ts" st' = true
     /\ forall extra,
          traceExportsFromFile (RT := rt) fs (S (length fs) + extra) "/p/a.ts"
            (mkTrace [] []) "/p" = Some st')
  /\
  (exists st',
     traceExportsFromFile (RT := rt) fs (S (length fs)) "/p/b.ts" (mkTrace [] []) "/p"
     = Some st'
     /\ visited "/p/b.ts" st' = true /\ visited "/p/a.ts" st' = true
     /\ forall extra,
          traceExportsFromFile (RT := rt) fs (S (length fs) + extra) "/p/b.ts"
            (mkTrace [] []) "/p" = Some st')
  /\
  (forall fuel p s, visited p s = true ->
     traceExportsFromFile (RT := rt) fs (S fuel) p s "/p" = Some s).
Proof.
  apply (export_star_cycle_terminates (RT := rt) fs "/p" "/p/a.ts" "/p/b.ts"
           a_ts b_ts "export * from './b.ts';" "export * from './a.ts';"
           (mkTrace [] [])).
  - reflexivity.
  - reflexivity.
  - simpl. auto.
  - split; [reflexivity|]. eexists. split; reflexivity.
  - simpl. auto.
  - split; [reflexivity|]. eexists. split; reflexivity.
  - reflexivity.
  - reflexivity.
Defined.

End Cycle.

(* ===================================================================== *)
(** ** Entry points of the public-API mode *)
(* ===================================================================== *)

Section EntryFacts.
Context {RT : Runtime}.
Variable fs : FileSystem.
Variable rootPath : string.

(** The loop over the entry points returns, and has entered every one. *)
Lemma traceEntries_returns (paths : list string) :
  forall st,
    exists st',
      traceEntries fs rootPath paths st = Some st'
      /\ incl (analyzedFiles st) (analyzedFiles st')
      /\ forall exportPath, In exportPath paths ->
           visited (join rootPath exportPath) st' = true.
Proof.
  induction paths as [|p paths IH]; intros st; cbn [traceEntries].
  - exists st. repeat split; [apply incl_refl | contradiction].
  - destruct (trace_returns fs rootPath (join rootPath p) st) as [s1 [-> [H1 Hv]]].
    destruct (IH s1) as [st' [-> [H2 Hall]]].
    exists st'. split; [reflexivity|]. split; [eapply incl_tran; eauto|].
    intros q [<-|Hq]; [|auto].
    apply visited_In, H2. apply visited_In in Hv. exact Hv.
Qed.

Lemma analyzeFromExports_returns (exports : ExportsField)
  (symbols : list ExportedSymbol) (st : TraceState) :
  exists st',
    traceEntries fs rootPath (exportPaths exports) st = Some st'
    /\ analyzeFromExports fs rootPath exports symbols st
       = Some (analyzeFileForJSDoc fs (uniqueExports (exportMap st')) symbols rootPath).
Proof.
  destruct (traceEntries_returns (exportPaths exports) st) as [st' [H _]].
  exists st'. split; [exact H|]. unfold analyzeFromExports. rewrite H. reflexivity.
Qed.

End EntryFacts.

Section ModeFacts.
Context {RT : Runtime}.
Variable fs : FileSystem.

(** A run in public-API mode, spelled out. *)
Lemma analyzeDirectory_public (targetPath : string) (denoConfig : option DenoConfig)
  (exports : ExportsField) :
  loadDenoConfig fs (resolve targetPath) = Ok denoConfig ->
  truthyExports denoConfig = Some exports ->
  exists st',
    traceEntries fs (resolve targetPath) (exportPaths exports) (mkTrace [] []) = Some st'
    /\ analyzeDirectory fs targetPath
       = Some (Ok (let symbols :=
                     analyzeFileForJSDoc fs (uniqueExports (exportMap st')) []
                       (resolve targetPath) in
                   mkResult (resolve targetPath)
                     (match denoConfig with Some _ => true | None => false end)
                     true (reportedExportPath denoConfig) symbols
                     (calculateStats symbols))).
Proof.
  intros Hload Hexp.
  destruct (analyzeFromExports_returns fs (resolve targetPath) exports []
              (mkTrace [] [])) as [st' [Htrace Hrun]].
  exists st'. split; [exact Htrace|].
  unfold analyzeDirectory. rewrite Hload, Hexp, Hrun. reflexivity.
Qed.


End ModeFacts.

Section ReadFailures.
Context {RT : Runtime}.
Variable fs : FileSystem.

(** An entry file that cannot be read leaves the export table as it is. *)
Lemma trace_unreadable (fuel : nat) (rootPath filePath : string) (st : TraceState) :
  readTextFile fs filePath = Throw ->
  exists st',
    traceExportsFromFile fs (S fuel) filePath st rootPath = Some st'
    /\ exportMap st' = exportMap st.
Proof.
  intros Hread. simpl. destruct (visited filePath st).
  - exists st. split; reflexivity.
  - rewrite Hread. simpl. eexists. split; reflexivity.
Qed.

Lemma traceEntries_unreadable (rootPath : string) (paths : list string) :
  (forall p, In p paths -> readTextFile fs (join rootPath p) = Throw) ->
  forall st st',
    traceEntries fs rootPath paths st = Some st' -> exportMap st' = exportMap st.
Proof.
  induction paths as [|p paths IH]; intros Hall st st'; cbn [traceEntries].
  - intros [= <-]. reflexivity.
  - destruct (trace_unreadable (length fs) rootPath (join rootPath p) st)
      as [s1 [-> H1]]; [apply Hall; now left|].
    intros Hrest. rewrite <- H1. apply IH; [|exact Hrest].
    intros q Hq. apply Hall. now right.
Qed.

(** C4, as the program has it.  In public-API mode no failure to read a
    file reaches the caller: the run returns a result whatever the file
    system holds, and entry files that cannot be read contribute nothing,
    like any other file that is missing during tracing or locating. *)
Theorem public_api_never_throws (targetPath : string)
  (denoConfig : option DenoConfig) (exports : ExportsField) :
  loadDenoConfig fs (resolve targetPath) = Ok denoConfig ->
  truthyExports denoConfig = Some exports ->
  exists r,
    analyzeDirectory fs targetPath = Some (Ok r)
    /\ ((forall p, In p (exportPaths exports) ->
           readTextFile fs (join (resolve targetPath) p) = Throw) ->
        symbols r = [] /\ percentage (stats r) = 100%Z).
Proof.
  intros Hload Hexp.
  destruct (analyzeDirectory_public fs targetPath denoConfig exports Hload Hexp)
    as [st' [Htrace Hrun]].
  eexists. split; [exact Hrun|].
  intros Hall. apply (traceEntries_unreadable _ _ Hall) in Htrace.
  cbn [symbols stats]. rewrite Htrace. split; reflexivity.
Qed.

End ReadFailures.

(** Double quotes for the single quotes of [s]: JSON texts are written
    with single quotes below. *)
Fixpoint json (s : string) : string :=
  match s with
  | EmptyString => EmptyString
  | String c s' => String (if Ascii.eqb c squote then dquote else c) (json s')
  end.

Module Entries.

Definition config : DenoConfig :=
  mkConfig (Some (ExportsRecord [(".", "./a.ts"); ("./b", "./b.ts")])) None None.

Definition config_text : string :=
  json "{ 'exports': { '.': './a.ts', './b': './b.ts' } }".

Definition fs : FileSystem :=
  [ ("/p", Directory);
    ("/p/deno.json", File config_text);
    ("/p/a.ts", File (text ["export const a = 1;"]));
    ("/p/b.ts", File (text ["/** b */"; "export function b() {}"])) ].

Definition rt : Runtime := Posix.runtime "/p" [(config_text, config)].

Example two_entries_run :
  Fixtures.summary (analyzeDirectory (RT := rt) fs "/p")
  = Some ([("a", TConst, 1, false); ("b", TFunction, 2, true)], (2, 1, 1, 50%Z))
  /\ option_map (fun r => option_map exportPath r)
       (match analyzeDirectory (RT := rt) fs "/p" with
        | Some (Ok r) => Some (Some r)
        | _ => None
        end) = Some (Some (Some "./a.ts")).
Proof. vm_compute. split; reflexivity. Qed.


End Entries.

Module MissingEntry.

Definition config : DenoConfig := mkConfig (Some (ExportsString "./mod.ts")) None None.

Definition config_text : string := json "{ 'exports': './mod.ts' }".

(** The configuration names [./mod.ts], which does not exist. *)
Definition fs : FileSystem :=
  [ ("/p", Directory);
    ("/p/deno.json", File config_text);
    ("/p/other.ts", File (text ["export const hidden = 1;"])) ].

Definition rt : Runtime := Posix.runtime "/p" [(config_text, config)].

(** C4, as stated, fails: the entry file cannot be read, and the run
    returns an empty report with 100 percent instead of an error. *)
Lemma missing_entry_is_not_an_error :
  readTextFile fs (Posix.join "/p" "./mod.ts") = Throw
  /\ analyzeDirectory (RT := rt) fs "/p"
     = Some (Ok (mkResult "/p" true true (Some "./mod.ts") []
                   (mkStats 0 0 0 100%Z []))).
Proof. vm_compute. split; reflexivity. Qed.

(** A rejected run exists in the model: the target itself is missing. *)
Example missing_target_throws :
  analyzeDirectory (RT := rt) fs "/q" = Some Throw.
Proof. vm_compute. reflexivity. Qed.

(** In full-scan mode a file that cannot be read does reject the run. *)
Example full_scan_read_throws :
  analyzeFile (RT := rt) fs "/p/gone.ts" [] "/p" = Throw.
Proof. vm_compute. reflexivity. Qed.

Lemma public_api_never_throws_witness :
  exists r,
    analyzeDirectory (RT := rt) fs "/p" = Some (Ok r)
    /\ ((forall p, In p ["./mod.ts"] ->
           readTextFile fs (Posix.join (Posix.resolve_in "/p" "/p") p) = Throw) ->
        symbols r = [] /\ percentage (stats r) = 100%Z).
Proof.
  apply (public_api_never_throws (RT := rt) fs "/p" (Some config)
           (ExportsString "./mod.ts")).
  - vm_compute. reflexivity.
  - reflexivity.
Defined.

End MissingEntry.

(* ===================================================================== *)
(** ** Deduplication of traced exports *)
(* ===================================================================== *)

(** What identifies a traced export: source file, declared name, exported
    name. *)
Definition triple (exp : TracedExport) : string * string * string :=
  (sourcePath exp, originalName exp, exportedName exp).

Module Dedup.



(** One round of the loop that fills [uniqueExports]. *)
Definition remember (unique : list (string * TracedExport)) (exp : TracedExport)
  : list (string * TracedExport) :=
  match lookup (uniqueKey exp) unique with
  | Some _ => unique
  | None => unique ++ [(uniqueKey exp, exp)]
  end.















End Dedup.

Section DedupClaim.
Context {RT : Runtime}.
Variable fs : FileSystem.


End DedupClaim.

Module Overloads.

Definition config : DenoConfig := mkConfig (Some (ExportsString "./mod.ts")) None None.
Definition config_text : string := json "{ 'exports': './mod.ts' }".

(** [f] is declared in [m.ts] with two overload signatures and reaches the
    entry point through [a.ts] and through [b.ts]. *)
Definition fs : FileSystem :=
  [ ("/p", Directory);
    ("/p/deno.json", File config_text);
    ("/p/mod.ts", File (text ["export * from './a.ts';"; "export * from './b.ts';"]));
    ("/p/a.ts", File (text ["export { f } from './m.ts';"]));
    ("/p/b.ts", File (text ["export { f } from './m.ts';"]));
    ("/p/m.ts", File (text
       [ "export function f(x: string): string;";
         "export function f(x: number): number;";
         "export function f(x: any): any { return x; }" ])) ].

Definition rt : Runtime := Posix.runtime "/p" [(config_text, config)].

Definition traced : option TraceState :=
  traceEntries (RT := rt) fs "/p" ["./mod.ts"] (mkTrace [] []).

Example one_traced_export :
  option_map (fun st => uniqueExports (exportMap st)) traced
  = Some [mkTraced "f" "f" "/p/m.ts" 1].
Proof. vm_compute. reflexivity. Qed.

(** C1.  The deduplication stops at the traced exports: the one triple of
    [f], reached through two chains, is handed over once, and the
    documentation pass makes a symbol of every line of [m.ts] that declares
    [f], three symbols of the same name. *)
Lemma three_symbols_for_one_triple :
  option_map (fun st => map triple (uniqueExports (exportMap st))) traced
  = Some [("/p/m.ts", "f", "f")]
  /\ Fixtures.summary (analyzeDirectory (RT := rt) fs "/p")
     = Some ([("f", TFunction, 1, false); ("f", TFunction, 2, false);
              ("f", TFunction, 3, false)], (3, 0, 3, 0%Z)).
Proof. vm_compute. split; reflexivity. Qed.

End Overloads.

(* ===================================================================== *)
(** ** Where the symbols of the public-API mode come from *)
(* ===================================================================== *)


Module DocFacts.

Lemma parse_fields l i f b sym :
  parseExportedSymbol l i f b = Some sym ->
  file sym = f /\ line sym = i + 1
  /\ hasJSDoc sym = blocks_has i b /\ jsDocContent sym = blocks_get i b.
Proof.
  unfold parseExportedSymbol.
  destruct (if includes (trim l) "export default" then _ else _) as [[n t] e].
  destruct (truthy n); [|discriminate].
  intros [= <-]. simpl. auto.
Qed.

(** Whether a line yields a symbol, and its name and kind, do not depend
    on the documentation blocks. *)
Lemma parse_blocks l i f b b' sym :
  parseExportedSymbol l i f b = Some sym ->
  exists sym',
    parseExportedSymbol l i f b' = Some sym'
    /\ name sym' = name sym /\ type sym' = type sym
    /\ exportType sym' = exportType sym.
Proof.
  unfold parseExportedSymbol.
  destruct (if includes (trim l) "export default" then _ else _) as [[n t] e].
  destruct (truthy n); [|discriminate].
  intros [= <-]. eexists. split; [reflexivity|]. simpl. auto.
Qed.

Section Synthesis.
Variables (lines : list string) (source relativePath : string).
Variable sourceExports : list TracedExport.




End Synthesis.



Lemma nth_indexed (ls : list string) :
  forall k i l, nth_error ls i = Some l -> In (k + i, l) (combine (seq k (length ls)) ls).
Proof.
  induction ls as [|x ls IH]; intros k i l; destruct i; simpl; try discriminate.
  - intros [= ->]. left. f_equal. lia.
  - intros H. right. replace (k + S i) with (S k + i) by lia. apply IH, H.
Qed.

End DocFacts.

Section Provenance.
Context {RT : Runtime}.
Variable fs : FileSystem.
Variable rootPath : string.









End Provenance.

(* ===================================================================== *)
(** ** Selective re-exports *)
(* ===================================================================== *)

Section Buckets.

Lemma lookup_map_set_same (A : Type) (k : string) (v : A) (m : list (string * A)) :
  lookup k (map_set k v m) = Some v.
Proof.
  induction m as [|[k' v'] m IH]; simpl.
  - now rewrite String.eqb_refl.
  - destruct (String.eqb_spec k' k) as [->|Hne]; simpl.
    + now rewrite String.eqb_refl.
    + destruct (String.eqb_spec k' k); [contradiction | exact IH].
Qed.

Lemma bucket_addExport (m : ExportMap) (f : string) (e : TracedExport) :
  bucket (addExport m f e) f
  = if isDuplicate (bucket m f) e then bucket m f else bucket m f ++ [e].
Proof.
  unfold addExport. unfold bucket at 1. rewrite lookup_map_set_same. reflexivity.
Qed.

(** After [addExport] the bucket has an export with that exported name
    and that source. *)
Lemma addExport_present (m : ExportMap) (f : string) (e : TracedExport) :
  exists e', In e' (bucket (addExport m f e) f)
             /\ exportedName e' = exportedName e /\ sourcePath e' = sourcePath e.
Proof.
  rewrite bucket_addExport. destruct (isDuplicate (bucket m f) e) eqn:E.
  - unfold isDuplicate in E. apply existsb_exists in E.
    destruct E as [e' [Hin Heq]]. apply andb_prop in Heq. destruct Heq as [H1 H2].
    apply String.eqb_eq in H1. apply String.eqb_eq in H2. exists e'. auto.
  - exists e. split; [apply in_or_app; right; now left | auto].
Qed.

End Buckets.

Section Selective.
Context {RT : Runtime}.
Variable fs : FileSystem.

(** The line [l] is [export { inner } from spec] or
    [export type { inner } from spec], and [spec] resolves to [target]. *)
Definition selective_line (l dir target inner : string) : Prop :=
  startsWith (trim l) "export *" = false
  /\ startsWith (trim l) "export {" || startsWith (trim l) "export type {" = true
  /\ exists fromMatch exportsMatch,
       match_ re_from (trim l) = Some fromMatch
       /\ resolveImportPath fs (group 1 fromMatch) dir = Some target
       /\ match_ re_export_list (trim l) = Some exportsMatch
       /\ group 1 exportsMatch = inner.

Lemma traceLine_selective self filePath content dir i l st target inner :
  selective_line l dir target inner ->
  traceLine fs self filePath content dir i l st
  = Some (traceSelective fs filePath target i (listItems inner) st).
Proof.
  intros [Hstar [Hblock [fm [em [Hfrom [Hres [Hlist Hinner]]]]]]].
  unfold traceLine. rewrite Hstar. cbn [orb]. rewrite Hblock, Hfrom, Hres, Hlist, Hinner.
  reflexivity.
Qed.

(** The export that the item [originalName as exportedName] of a statement
    on line [i] records. *)
Definition selectiveExport (resolvedPath : string) (i : nat)
  (originalName : string) (exportedName : option string) : TracedExport :=
  mkTraced originalName (or_else exportedName originalName) resolvedPath
    (num_or (findSymbolInFile fs resolvedPath originalName) (i + 1)).

End Selective.

Section Emission.
Variables (lines : list string) (source relativePath : string).
Variable sourceExports : list TracedExport.

Lemma docStep_keeps st il s :
  In s (found_symbols st) ->
  In s (found_symbols (docStep lines source relativePath sourceExports st il)).
Proof.
  destruct il as [i l]. unfold docStep.
  destruct (trackJSDoc lines i l (jsDocBlocks st) (currentJSDoc st)) as [[b c] k].
  destruct k; simpl; [auto|]. intros H. apply in_or_app. now left.
Qed.

Lemma scan_keeps (il : list (nat * string)) :
  forall st s,
    In s (found_symbols st) ->
    In s (found_symbols
            (fold_left (docStep lines source relativePath sourceExports) il st)).
Proof.
  induction il as [|x il IH]; intros st s H; cbn [fold_left]; [exact H|].
  apply IH, docStep_keeps, H.
Qed.

(** Only a line that closes a block ends the round early. *)
Lemma trackJSDoc_continue i l blocks current :
  endsWith (trim l) "*/" = false ->
  snd (trackJSDoc lines i l blocks current) = false.
Proof.
  intros Hend. unfold trackJSDoc. rewrite Hend.
  destruct (startsWith (trim l) "/**"); [reflexivity|].
  destruct (0 <? length current); reflexivity.
Qed.

(** A direct export line of a tracked name yields a symbol. *)
Lemma docStep_emits st i l n exp sym :
  isDirectExport (trim l) = true ->
  endsWith (trim l) "*/" = false ->
  extractExportName (gather lines i (trim l)) = Some n ->
  truthy n = true ->
  find (fun exp => (originalName exp =? n)%string
                   && (sourcePath exp =? source)%string) sourceExports = Some exp ->
  parseExportedSymbol (gather lines i (trim l)) i relativePath [] = Some sym ->
  exists s,
    In s (found_symbols (docStep lines source relativePath sourceExports st (i, l)))
    /\ name s = exportedName exp /\ type s = type sym
    /\ file s = relativePath /\ line s = i + 1.
Proof.
  intros Hdirect Hend Hname Htruthy Hfind Hparse.
  unfold docStep.
  pose proof (trackJSDoc_continue i l (jsDocBlocks st) (currentJSDoc st) Hend) as Hk.
  destruct (trackJSDoc lines i l (jsDocBlocks st) (currentJSDoc st)) as [[b c] k].
  simpl in Hk. subst k.
  destruct (DocFacts.parse_blocks _ _ _ _ b _ Hparse) as [sym' [Hp' [Hn [Ht _]]]].
  destruct (DocFacts.parse_fields _ _ _ _ _ Hp') as [Hf [Hl _]].
  exists (rename sym' (exportedName exp)). split; [|simpl; auto].
  cbn [found_symbols]. apply in_or_app. right.
  unfold synthesize. rewrite Hdirect, Hname, Htruthy, Hfind, Hp'. now left.
Qed.

Lemma scan_emits i l n exp sym :
  nth_error lines i = Some l ->
  isDirectExport (trim l) = true ->
  endsWith (trim l) "*/" = false ->
  extractExportName (gather lines i (trim l)) = Some n ->
  truthy n = true ->
  find (fun exp => (originalName exp =? n)%string
                   && (sourcePath exp =? source)%string) sourceExports = Some exp ->
  parseExportedSymbol (gather lines i (trim l)) i relativePath [] = Some sym ->
  exists s,
    In s (found_symbols
            (fold_left (docStep lines source relativePath sourceExports)
               (indexed lines) (mkDoc [] [] [])))
    /\ name s = exportedName exp /\ type s = type sym
    /\ file s = relativePath /\ line s = i + 1.
Proof.
  intros Hnth Hdirect Hend Hname Htruthy Hfind Hparse.
  pose proof (DocFacts.nth_indexed lines 0 i l Hnth) as Hin. simpl in Hin.
  apply in_split in Hin. destruct Hin as [before [after Hsplit]].
  unfold indexed. rewrite Hsplit, fold_left_app. cbn [fold_left].
  destruct (docStep_emits
              (fold_left (docStep lines source relativePath sourceExports) before
                 (mkDoc [] [] [])) i l n exp sym Hdirect Hend Hname Htruthy Hfind Hparse)
    as [s [Hs H]].
  exists s. split; [apply scan_keeps, Hs | exact H].
Qed.

End Emission.

Section TrackedExports.
Context {RT : Runtime}.
Variable fs : FileSystem.
Variable rootPath : string.

(** X26.  When a line of a source file is a direct export that declares a
    name, does not close a comment, and [exp] is the first export tracked
    for that name in the file, the scan of the file yields a symbol under
    the exported name of [exp], with the path of the file, the number of
    that line and the kind of the declaration. *)
Theorem tracked_export_emitted (source content l n : string) (i : nat)
  (sourceExports : list TracedExport) (exp : TracedExport) (sym : ExportedSymbol) :
  readTextFile fs source = Ok content ->
  nth_error (split newline content) i = Some l ->
  isDirectExport (trim l) = true ->
  endsWith (trim l) "*/" = false ->
  extractExportName (gather (split newline content) i (trim l)) = Some n ->
  truthy n = true ->
  find (fun exp => (originalName exp =? n)%string
                   && (sourcePath exp =? source)%string) sourceExports = Some exp ->
  parseExportedSymbol (gather (split newline content) i (trim l)) i
    (relative rootPath source) [] = Some sym ->
  exists syms s,
    scanSource fs rootPath source sourceExports = Ok syms /\ In s syms
    /\ name s = exportedName exp /\ type s = type sym
    /\ file s = relative rootPath source /\ line s = i + 1.
Proof.
  intros Hread Hnth Hdirect Hend Hname Htruthy Hfind Hparse.
  unfold scanSource. rewrite Hread. simpl bind.
  destruct (scan_emits (split newline content) source (relative rootPath source)
              sourceExports i l n exp sym Hnth Hdirect Hend Hname Htruthy Hfind Hparse)
    as [s [Hin H]].
  eexists _, s. split; [reflexivity|]. split; [exact Hin | exact H].
Qed.

End TrackedExports.

Section RenameFidelity.
Context {RT : Runtime}.
Variable fs : FileSystem.
Variable rootPath : string.

Lemma traceSelective_cons filePath resolvedPath i item items st :
  traceSelective fs filePath resolvedPath i (item :: items) st
  = traceSelective fs filePath resolvedPath i items
      (withExport st filePath
         (selectiveExport fs resolvedPath i (fst (splitAs item)) (snd (splitAs item)))).
Proof.
  unfold traceSelective at 1. cbn [fold_left].
  destruct (splitAs item) as [original alias]. reflexivity.
Qed.

Lemma traceSelective_keeps_exports filePath resolvedPath i items :
  forall st e',
    In e' (bucket (exportMap st) filePath) ->
    In e' (bucket (exportMap (traceSelective fs filePath resolvedPath i items st))
             filePath).
Proof.
  induction items as [|item items IH]; intros st e' H; [exact H|].
  rewrite traceSelective_cons. apply IH. unfold withExport. cbn [exportMap].
  rewrite bucket_addExport.
  destruct (isDuplicate _ _); [exact H | apply in_or_app; now left].
Qed.

Lemma traceSelective_from filePath resolvedPath i items :
  forall st e',
    In e' (bucket (exportMap (traceSelective fs filePath resolvedPath i items st))
             filePath) ->
    In e' (bucket (exportMap st) filePath)
    \/ exists item,
         In item items
         /\ e' = selectiveExport fs resolvedPath i (fst (splitAs item))
                   (snd (splitAs item)).
Proof.
  induction items as [|x items IH]; intros st e' H; [now left|].
  rewrite traceSelective_cons in H. apply IH in H. destruct H as [H|[item [Hin ->]]].
  - unfold withExport in H. cbn [exportMap] in H. rewrite bucket_addExport in H.
    destruct (isDuplicate _ _); [now left|].
    apply in_app_or in H. destruct H as [H|[<-|[]]]; [now left|].
    right. exists x. split; [now left | reflexivity].
  - right. exists item. split; [now right | reflexivity].
Qed.

Lemma traceSelective_records filePath resolvedPath i items :
  forall st item,
    In item items ->
    exists e',
      In e' (bucket (exportMap (traceSelective fs filePath resolvedPath i items st))
               filePath)
      /\ exportedName e' = or_else (snd (splitAs item)) (fst (splitAs item))
      /\ sourcePath e' = resolvedPath.
Proof.
  induction items as [|x items IH]; intros st item; [contradiction|].
  rewrite traceSelective_cons. intros [->|Hin]; [|apply IH, Hin].
  destruct (addExport_present (exportMap st) filePath
              (selectiveExport fs resolvedPath i (fst (splitAs item))
                 (snd (splitAs item)))) as [e' [He [Hn Hs]]].
  exists e'. split; [|split; assumption].
  apply traceSelective_keeps_exports. exact He.
Qed.

(** X24.  A selective re-export [export { ... } from spec] whose specifier
    resolves records every item under the file of the statement, with the
    resolved module as source; what it adds to the table is, for an item,
    the export of the name before [as] under the name after it, with the
    line the locator finds in the resolved module, and the number of the
    line of the statement when it finds none. *)
Theorem selective_exports_recorded (self : string -> TraceState -> option TraceState)
  (filePath content dir : string) (i : nat) (l : string) (st : TraceState)
  (resolvedPath inner : string) :
  selective_line fs l dir resolvedPath inner ->
  let recorded item :=
    mkTraced (fst (splitAs item)) (or_else (snd (splitAs item)) (fst (splitAs item)))
      resolvedPath
      (match findSymbolInFile fs resolvedPath (fst (splitAs item)) with
       | Some k => if k =? 0 then i + 1 else k
       | None => i + 1
       end) in
  exists st',
    traceLine fs self filePath content dir i l st = Some st'
    /\ (forall item, In item (listItems inner) ->
          exists e', In e' (bucket (exportMap st') filePath)
                     /\ exportedName e'
                        = or_else (snd (splitAs item)) (fst (splitAs item))
                     /\ sourcePath e' = resolvedPath)
    /\ (forall e', In e' (bucket (exportMap st') filePath) ->
          In e' (bucket (exportMap st) filePath)
          \/ exists item, In item (listItems inner) /\ e' = recorded item).
Proof.
  intros Hline recorded.
  eexists. split; [apply traceLine_selective; exact Hline|]. split.
  - intros item Hin. apply traceSelective_records, Hin.
  - intros e' He. apply traceSelective_from in He.
    destruct He as [He|[item [Hin ->]]]; [now left|].
    right. exists item. split; [exact Hin | reflexivity].
Qed.

End RenameFidelity.

Module Renamed.

Definition config : DenoConfig := mkConfig (Some (ExportsString "./mod.ts")) None None.
Definition config_text : string := json "{ 'exports': './mod.ts' }".
Definition rt : Runtime := Posix.runtime "/p" [(config_text, config)].

(** [foo] is declared in [m.ts]. *)
Definition fs : FileSystem :=
  [ ("/p", Directory);
    ("/p/deno.json", File config_text);
    ("/p/mod.ts", File (text ["// entry"; "export { foo as bar } from './m.ts';"]));
    ("/p/m.ts", File (text ["// implementation"; "";
                            "export function foo(): void {}"])) ].

Example renamed_run :
  Fixtures.summary (analyzeDirectory (RT := rt) fs "/p")
  = Some ([("bar", TFunction, 3, false)], (1, 0, 1, 0%Z)).
Proof. vm_compute. reflexivity. Qed.

(** [m.ts] passes [foo] on from [n.ts]: the locator finds no declaration of
    [foo] in [m.ts]. *)
Definition fs_chain : FileSystem :=
  [ ("/p", Directory);
    ("/p/deno.json", File config_text);
    ("/p/mod.ts", File (text ["// entry"; "export { foo as bar } from './m.ts';"]));
    ("/p/m.ts", File (text ["export { foo } from './n.ts';"]));
    ("/p/n.ts", File (text ["export function foo(): void {}"])) ].

(** C3.  The declaration of [foo] is not located in the resolved module:
    the traced export records line 2 of the entry file, and the output has
    no symbol [bar] at all, where the re-export line was to stand in. *)
Lemma renamed_symbol_missing :
  findSymbolInFile (RT := rt) fs_chain "/p/m.ts" "foo" = None
  /\ option_map exportMap
       (traceEntries (RT := rt) fs_chain "/p" ["./mod.ts"] (mkTrace [] []))
     = Some [("/p/mod.ts", [mkTraced "foo" "bar" "/p/m.ts" 2])]
  /\ Fixtures.summary (analyzeDirectory (RT := rt) fs_chain "/p")
     = Some ([], (0, 0, 0, 100%Z)).
Proof. vm_compute. repeat split; reflexivity. Qed.

Lemma selective_exports_witness :
  exists st',
    traceLine (RT := rt) fs (fun _ s => Some s) "/p/mod.ts" "" "/p" 1
      "export { foo as bar } from './m.ts';" (mkTrace ["/p/mod.ts"] []) = Some st'
    /\ (forall item, In item ["foo as bar"] ->
          exists e', In e' (bucket (exportMap st') "/p/mod.ts")
                     /\ exportedName e'
                        = or_else (snd (splitAs item)) (fst (splitAs item))
                     /\ sourcePath e' = "/p/m.ts")
    /\ (forall e', In e' (bucket (exportMap st') "/p/mod.ts") ->
          In e' []
          \/ exists item,
               In item ["foo as bar"]
               /\ e' = mkTraced (fst (splitAs item))
                         (or_else (snd (splitAs item)) (fst (splitAs item))) "/p/m.ts"
                         (match findSymbolInFile (RT := rt) fs "/p/m.ts"
                                  (fst (splitAs item)) with
                          | Some k => if k =? 0 then 1 + 1 else k
                          | None => 1 + 1
                          end)).
Proof.
  apply (selective_exports_recorded (RT := rt) fs (fun _ s => Some s)
           "/p/mod.ts" "" "/p" 1 "export { foo as bar } from './m.ts';"
           (mkTrace ["/p/mod.ts"] []) "/p/m.ts" "foo as bar ").
  split; [reflexivity|]. split; [reflexivity|].
  eexists _, _. repeat split; reflexivity.
Defined.

Lemma tracked_export_witness :
  exists syms s,
    scanSource (RT := rt) fs "/p" "/p/m.ts" [mkTraced "foo" "bar" "/p/m.ts" 3] = Ok syms
    /\ In s syms
    /\ name s = "bar" /\ type s = TFunction /\ file s = "m.ts" /\ line s = 2 + 1.
Proof.
  apply (tracked_export_emitted (RT := rt) fs "/p" "/p/m.ts"
           (text ["// implementation"; ""; "export function foo(): void {}"])
           "export function foo(): void {}" "foo" 2
           [mkTraced "foo" "bar" "/p/m.ts" 3] (mkTraced "foo" "bar" "/p/m.ts" 3)
           (mkSymbol "foo" TFunction "m.ts" 3 false None Named));
    reflexivity.
Defined.


End Renamed.

Module Vanishing.

Definition config : DenoConfig := mkConfig (Some (ExportsString "./mod.ts")) None None.
Definition config_text : string := json "{ 'exports': './mod.ts' }".
Definition rt : Runtime := Posix.runtime "/p" [(config_text, config)].

(** [helper] is re-exported from [lib.ts], which passes on everything of
    [impl.ts]: [lib.ts] has no declaration of [helper]. *)
Definition fs : FileSystem :=
  [ ("/p", Directory);
    ("/p/deno.json", File config_text);
    ("/p/mod.ts", File (text ["export { helper } from './lib.ts';"]));
    ("/p/lib.ts", File (text ["export * from './impl.ts';"]));
    ("/p/impl.ts", File (text ["export function helper(): void {}"])) ].

(** C7.  The traced export is recorded with the line of the re-export
    statement, as the fall-back, and still no symbol for it is in the
    output: the documentation pass never reads the recorded line. *)
Lemma fallback_symbol_vanishes :
  findSymbolInFile (RT := rt) fs "/p/lib.ts" "helper" = None
  /\ option_map exportMap
       (traceEntries (RT := rt) fs "/p" ["./mod.ts"] (mkTrace [] []))
     = Some [("/p/mod.ts", [mkTraced "helper" "helper" "/p/lib.ts" 1])]
  /\ Fixtures.summary (analyzeDirectory (RT := rt) fs "/p")
     = Some ([], (0, 0, 0, 100%Z)).
Proof. vm_compute. repeat split; reflexivity. Qed.

End Vanishing.

(* ===================================================================== *)
(** ** Module-level documentation blocks *)
(* ===================================================================== *)

Section ModuleBlocks.
Variable lines : list string.

(** In the documentation pass of the public-API mode, a block that closes
    on one line and carries the module tag binds nothing. *)
Lemma trackJSDoc_module_single i l blocks current :
  startsWith (trim l) "/**" = true ->
  includes (trim l) "@module" = true ->
  fst (fst (trackJSDoc lines i l blocks current)) = blocks.
Proof.
  intros Hs Hm. unfold trackJSDoc. rewrite Hs.
  destruct (endsWith (trim l) "*/"); [|reflexivity].
  rewrite Hm. reflexivity.
Qed.

(** So does a block of several lines: the round ends at once. *)
Lemma trackJSDoc_module_multi i l blocks current :
  startsWith (trim l) "/**" = false ->
  includes (join_with (String newline "") (current ++ [l])) "@module" = true ->
  fst (fst (trackJSDoc lines i l blocks current)) = blocks.
Proof.
  intros Hs Hm. unfold trackJSDoc. rewrite Hs.
  destruct (0 <? length current); [|reflexivity].
  destruct (endsWith (trim l) "*/"); [|reflexivity].
  rewrite Hm. reflexivity.
Qed.

End ModuleBlocks.

Module ModuleDoc.

Definition lib_ts : string := text
  [ "/**";
    " * Helpers of the package.";
    " * @module";
    " */";
    "";
    "export const x = 1;" ].

(** No configuration: the directory is scanned in full. *)
Definition fs_scan : FileSystem :=
  [ ("/p", Directory); ("/p/lib.ts", File lib_ts) ].

Definition config : DenoConfig := mkConfig (Some (ExportsString "./lib.ts")) None None.
Definition config_text : string := json "{ 'exports': './lib.ts' }".

(** The same file as the entry point of the public API. *)
Definition fs_api : FileSystem :=
  [ ("/p", Directory); ("/p/deno.json", File config_text);
    ("/p/lib.ts", File lib_ts) ].

Definition rt : Runtime := Posix.runtime "/p" [(config_text, config)].

(** C6 at work in the public-API mode, and broken in the full-scan mode:
    the module block makes [x] count as documented there. *)
Theorem module_block_counts_in_full_scan :
  Fixtures.summary (analyzeDirectory (RT := rt) fs_api "/p")
  = Some ([("x", TConst, 6, false)], (1, 0, 1, 0%Z))
  /\ Fixtures.summary (analyzeDirectory (RT := rt) fs_scan "/p")
     = Some ([("x", TConst, 6, true)], (1, 1, 0, 100%Z)).
Proof. vm_compute. split; reflexivity. Qed.

End ModuleDoc.

(* ===================================================================== *)
(** ** Block exports without a [from] clause *)
(* ===================================================================== *)

Section BlockExports.

Lemma prefix_agree (a : string) (c d : ascii) (x y : string) :
  forall s,
    String.prefix (a ++ String c x) s = true ->
    String.prefix (a ++ String d y) s = true -> c = d.
Proof.
  induction a as [|e a IH]; intros s; destruct s as [|b s]; simpl;
    try discriminate.
  - destruct (ascii_dec c b); [|discriminate].
    destruct (ascii_dec d b); [congruence | discriminate].
  - destruct (ascii_dec e b); [apply IH | discriminate].
Qed.

(** A line that starts with [export {] starts with none of the keywords
    of a direct export. *)
Lemma block_not_direct (s : string) (c : ascii) (rest : string) :
  startsWith s "export {" = true ->
  c <> "{"%char ->
  startsWith s ("export " ++ String c rest) = false.
Proof.
  intros Hb Hc. destruct (startsWith s ("export " ++ String c rest)) eqn:E;
    [|reflexivity].
  exfalso. apply Hc. symmetry.
  exact (prefix_agree "export " "{" c "" rest s Hb E).
Qed.

Lemma startsWith_includes (s p : string) :
  startsWith s p = true -> includes s p = true.
Proof.
  unfold startsWith. intros H. destruct s; cbn [includes]; rewrite H; reflexivity.
Qed.

Ltac not_direct H :=
  rewrite (block_not_direct _ _ _ H) by discriminate.

Lemma prefix_split (p s : string) :
  String.prefix p s = true -> exists r, s = (p ++ r)%string.
Proof.
  revert s. induction p as [|c p IH]; intros s H; [exists s; reflexivity|].
  destruct s as [|d s]; [discriminate|]. cbn [String.prefix] in H.
  destruct (ascii_dec c d) as [->|]; [|discriminate].
  destruct (IH s H) as [r ->]. exists r. reflexivity.
Qed.

(** What [parseExportedSymbol] makes of a block export: nothing when the
    line has the letters [from] anywhere, and otherwise at most one symbol,
    for the name before [as] in the first item. *)
Lemma parse_block (line : string) (i : nat) (f : string) (blocks : JsDocBlocks) :
  startsWith (trim line) "export {" = true ->
  includes (trim line) "export default" = false ->
  parseExportedSymbol line i f blocks
  = (if includes (trim line) "from" then None
     else
       match match_ re_export_block (trim line) with
       | Some caps =>
           let n := hd "" (split_re re_as (hd "" (listItems (group 1 caps)))) in
           if truthy n
           then Some (mkSymbol n TVariable f (i + 1) (blocks_has i blocks)
                        (blocks_get i blocks) Named)
           else None
       | None => None
       end).
Proof.
  intros Hb Hdef. unfold parseExportedSymbol.
  rewrite Hdef.
  change "export function" with ("export " ++ String "f" "unction")%string.
  change "export async function" with ("export " ++ String "a" "sync function")%string.
  change "export class" with ("export " ++ String "c" "lass")%string.
  change "export interface" with ("export " ++ String "i" "nterface")%string.
  change "export type" with ("export " ++ String "t" "ype")%string.
  change "export enum" with ("export " ++ String "e" "num")%string.
  change "export const" with ("export " ++ String "c" "onst")%string.
  change "export let" with ("export " ++ String "l" "et")%string.
  change "export var" with ("export " ++ String "v" "ar")%string.
  repeat not_direct Hb.
  rewrite (startsWith_includes _ _ Hb).
  destruct (includes (trim line) "from") eqn:Hfrom.
  - destruct (prefix_split _ _ Hb) as [r ->]. reflexivity.
  - cbn [orb andb negb]. destruct (match_ re_export_block (trim line)); reflexivity.
Qed.

End BlockExports.

Section LocalBlocks.
Context {RT : Runtime}.
Variable fs : FileSystem.

(** The export that an item of [export { ... }] records: from the module
    the name was imported from, or else from the file itself. *)
Definition localExport (filePath content dir : string) (i : nat) (item : string)
  : TracedExport :=
  let '(original, alias) := splitAs item in
  match findImportSource fs content original dir with
  | Some importSource =>
      mkTraced original (or_else alias original) importSource
        (num_or (findSymbolInFile fs importSource original) (i + 1))
  | None =>
      mkTraced original (or_else alias original) filePath
        (num_or (findSymbolInFile fs filePath original) (i + 1))
  end.

Lemma localExport_name filePath content dir i item :
  exportedName (localExport filePath content dir i item)
  = or_else (snd (splitAs item)) (fst (splitAs item))
  /\ originalName (localExport filePath content dir i item) = fst (splitAs item).
Proof.
  unfold localExport. destruct (splitAs item) as [original alias].
  destruct (findImportSource fs content original dir); split; reflexivity.
Qed.

Lemma traceLocal_cons filePath content dir i item items st :
  traceLocal fs filePath content dir i (item :: items) st
  = traceLocal fs filePath content dir i items
      (withExport st filePath (localExport filePath content dir i item)).
Proof.
  unfold traceLocal at 1. cbn [fold_left]. unfold localExport.
  destruct (splitAs item) as [original alias].
  destruct (findImportSource fs content original dir); reflexivity.
Qed.

Lemma addExport_keeps (m : ExportMap) (f : string) (e e' : TracedExport) :
  In e' (bucket m f) -> In e' (bucket (addExport m f e) f).
Proof.
  intros H. rewrite bucket_addExport.
  destruct (isDuplicate (bucket m f) e); [exact H | apply in_or_app; now left].
Qed.

Lemma traceLocal_keeps_exports filePath content dir i items :
  forall st e',
    In e' (bucket (exportMap st) filePath) ->
    In e' (bucket (exportMap (traceLocal fs filePath content dir i items st)) filePath).
Proof.
  induction items as [|item items IH]; intros st e' H; [exact H|].
  rewrite traceLocal_cons. apply IH. unfold withExport. cbn [exportMap].
  apply addExport_keeps, H.
Qed.

(** Every item of the block has its export in the bucket of the file. *)
Lemma traceLocal_records filePath content dir i items :
  forall st item,
    In item items ->
    exists e',
      In e' (bucket (exportMap (traceLocal fs filePath content dir i items st)) filePath)
      /\ exportedName e' = or_else (snd (splitAs item)) (fst (splitAs item))
      /\ sourcePath e' = sourcePath (localExport filePath content dir i item).
Proof.
  induction items as [|x items IH]; intros st item; [contradiction|].
  rewrite traceLocal_cons. intros [->|Hin]; [|apply IH, Hin].
  destruct (addExport_present (exportMap st) filePath
              (localExport filePath content dir i item)) as [e' [He [Hn Hs]]].
  exists e'. split; [|split].
  - apply traceLocal_keeps_exports. exact He.
  - rewrite Hn. apply localExport_name.
  - exact Hs.
Qed.

Lemma traceLine_local self filePath content dir i l st exportsMatch :
  startsWith (trim l) "export {" || startsWith (trim l) "export type {" = true ->
  match_ re_from (trim l) = None ->
  match_ re_export_list (trim l) = Some exportsMatch ->
  traceLine fs self filePath content dir i l st
  = Some (traceLocal fs filePath content dir i (listItems (group 1 exportsMatch)) st).
Proof.
  intros Hblock Hfrom Hlist. unfold traceLine.
  rewrite <- orb_assoc, Hblock, orb_true_r, Hfrom, Hlist. reflexivity.
Qed.

(** C9, as the program has it.  For a line that starts with [export {]
    (and has no [export default] in it):
    - [parseExportedSymbol], which classifies the lines of the full-scan
      mode, reports nothing when the letters [from] occur anywhere in the
      line, in a clause or inside a name; otherwise it reports the first
      item only, under the name before [as], with the kind [variable];
    - the tracer of the public-API mode, when the line has no clause
      [from] with a quoted specifier, splits the block on commas and on
      [as] and records one export per item, unless the file already exports
      that name from the same source; it records no kind. *)
Theorem block_export_entries (self : string -> TraceState -> option TraceState)
  (filePath content dir : string) (i : nat) (l f : string) (blocks : JsDocBlocks)
  (st : TraceState) :
  startsWith (trim l) "export {" = true ->
  includes (trim l) "export default" = false ->
  parseExportedSymbol l i f blocks
  = (if includes (trim l) "from" then None
     else
       match match_ re_export_block (trim l) with
       | Some caps =>
           let n := hd "" (split_re re_as (hd "" (listItems (group 1 caps)))) in
           if truthy n
           then Some (mkSymbol n TVariable f (i + 1) (blocks_has i blocks)
                        (blocks_get i blocks) Named)
           else None
       | None => None
       end)
  /\ (match_ re_from (trim l) = None ->
      forall exportsMatch,
        match_ re_export_list (trim l) = Some exportsMatch ->
        exists st',
          traceLine fs self filePath content dir i l st = Some st'
          /\ st' = traceLocal fs filePath content dir i
                     (listItems (group 1 exportsMatch)) st
          /\ forall item, In item (listItems (group 1 exportsMatch)) ->
               exists e', In e' (bucket (exportMap st') filePath)
                          /\ exportedName e'
                             = or_else (snd (splitAs item)) (fst (splitAs item))
                          /\ sourcePath e'
                             = sourcePath (localExport filePath content dir i item)).
Proof.
  intros Hb Hdef. split.
  - apply parse_block; assumption.
  - intros Hnofrom exportsMatch Hlist.
    eexists. split; [|split; [reflexivity|]].
    + apply traceLine_local; [rewrite Hb; reflexivity | assumption | assumption].
    + intros item Hin. apply traceLocal_records, Hin.
Qed.

End LocalBlocks.

Module Blocks.

Definition lib_ts : string := text
  [ "const a = 1;";
    "const b = 2;";
    "export { a, b as c };" ].

Definition fs_scan : FileSystem :=
  [ ("/p", Directory); ("/p/lib.ts", File lib_ts) ].

Definition config : DenoConfig := mkConfig (Some (ExportsString "./lib.ts")) None None.
Definition config_text : string := json "{ 'exports': './lib.ts' }".

Definition fs_api : FileSystem :=
  [ ("/p", Directory); ("/p/deno.json", File config_text);
    ("/p/lib.ts", File lib_ts) ].

Definition rt : Runtime := Posix.runtime "/p" [(config_text, config)].

(** C9, as stated, fails: the classifier returns one entry for a block of
    two names, and the public-API mode, which has both, reports the kind of
    the declarations, not [variable]. *)
Lemma block_first_name_only :
  parseExportedSymbol "export { a, b as c };" 2 "lib.ts" []
  = Some (mkSymbol "a" TVariable "lib.ts" 3 false None Named)
  /\ Fixtures.summary (analyzeDirectory (RT := rt) fs_scan "/p")
     = Some ([("a", TVariable, 3, false)], (1, 0, 1, 0%Z))
  /\ Fixtures.summary (analyzeDirectory (RT := rt) fs_api "/p")
     = Some ([("a", TConst, 1, false); ("c", TConst, 2, false)], (2, 0, 2, 0%Z)).
Proof. vm_compute. repeat split; reflexivity. Qed.

(** A name with the letters [from] in it: the classifier reports nothing,
    the tracer records both items. *)
Example block_with_from_in_a_name :
  parseExportedSymbol "export { fromJSON, b as c };" 2 "lib.ts" [] = None
  /\ option_map (fun st => map (fun e => (originalName e, exportedName e))
                            (bucket (exportMap st) "/p/lib.ts"))
       (traceLine (RT := rt) fs_api (fun _ s => Some s) "/p/lib.ts" lib_ts "/p" 2
          "export { fromJSON, b as c };" (mkTrace ["/p/lib.ts"] []))
     = Some [("fromJSON", "fromJSON"); ("b", "c")].
Proof. vm_compute. split; reflexivity. Qed.

Lemma block_export_witness :
  parseExportedSymbol "export { a, b as c };" 2 "lib.ts" []
  = Some (mkSymbol "a" TVariable "lib.ts" 3 false None Named)
  /\ exists st',
       traceLine (RT := rt) fs_api (fun _ s => Some s) "/p/lib.ts" lib_ts "/p" 2
         "export { a, b as c };" (mkTrace ["/p/lib.ts"] []) = Some st'
       /\ st' = traceLocal (RT := rt) fs_api "/p/lib.ts" lib_ts "/p" 2
                  ["a"; "b as c"] (mkTrace ["/p/lib.ts"] [])
       /\ forall item, In item ["a"; "b as c"] ->
            exists e', In e' (bucket (exportMap st') "/p/lib.ts")
                       /\ exportedName e'
                          = or_else (snd (splitAs item)) (fst (splitAs item))
                       /\ sourcePath e' = "/p/lib.ts".
Proof.
  destruct (block_export_entries (RT := rt) fs_api (fun _ s => Some s)
              "/p/lib.ts" lib_ts "/p" 2 "export { a, b as c };" "lib.ts" []
              (mkTrace ["/p/lib.ts"] [])) as [Hparse Htrace];
    [reflexivity | reflexivity |].
  split; [exact Hparse|].
  destruct (Htrace eq_refl ["a, b as c "] eq_refl) as [st' [Hrun [Hst Hitems]]].
  exists st'. split; [exact Hrun|]. split; [exact Hst|].
  intros item Hin. destruct (Hitems item Hin) as [e' [He [Hn Hs]]].
  exists e'. split; [exact He|]. split; [exact Hn|].
  rewrite Hs. destruct Hin as [<-|[<-|[]]]; reflexivity.
Defined.

End Blocks.

(* ===================================================================== *)
(** ** The tests of the repository, replayed *)
(* ===================================================================== *)

Module RepoTests.
Import Fixtures.

(** analyzeDirectory - finds exported symbols, detects JSDoc presence,
    calculates stats correctly, tracks symbol types correctly. *)
Example basic_symbols :
  summary (analyzeDirectory (RT := rt) fs "/repo/tests/basic.ts")
  = Some ([("documentedFunction", TFunction, 1, false);
           ("UndocumentedClass", TClass, 5, false);
           ("DocumentedInterface", TInterface, 9, false);
           ("undocumentedConst", TConst, 13, false)], (4, 0, 4, 0%Z)).
Proof. vm_compute. reflexivity. Qed.

Example basic_byType :
  option_map (fun r => match r with Ok a => byType (stats a) | Throw => [] end)
    (analyzeDirectory (RT := rt) fs "/repo/tests/basic.ts")
  = Some [(TFunction, (1, 0)); (TClass, (1, 0)); (TInterface, (1, 0));
          (TConst, (1, 0))].
Proof. vm_compute. reflexivity. Qed.

(** analyzeDirectory - correctly matches symbols with prefix names. *)
Example prefix_names :
  summary (analyzeDirectory (RT := rt) fs "/repo/tests/types.ts")
  = Some ([("ServerRateLimitDescription", TType, 1, false);
           ("Server", TType, 6, false)], (2, 0, 2, 0%Z)).
Proof. vm_compute. reflexivity. Qed.

(** The locator finds [Server] on its own line. *)
Example locate_Server :
  findSymbolInFile (RT := rt) fs "/repo/tests/types.ts" "Server" = Some 6.
Proof. vm_compute. reflexivity. Qed.

End RepoTests.

(* ===================================================================== *)
(** * Further properties of the engine *)
(* ===================================================================== *)

(** ** Invariants of the export table *)

Section TraceInvariants.
Context {RT : Runtime}.
Variable fs : FileSystem.
Variable rootPath : string.

(** An invariant that recording an export under the file [filePath]
    keeps. *)
Definition closed_at (J : TraceState -> Prop) (filePath : string) : Prop :=
  forall st e, J st -> J (withExport st filePath e).

Lemma traceSelective_at (J : TraceState -> Prop) filePath resolvedPath i items :
  closed_at J filePath ->
  forall st, J st -> J (traceSelective fs filePath resolvedPath i items st).
Proof.
  intros Hc. unfold traceSelective. apply fold_keeps.
  intros st a Hst. destruct (splitAs a). apply Hc, Hst.
Qed.

Lemma traceLocal_at (J : TraceState -> Prop) filePath content dir i items :
  closed_at J filePath ->
  forall st, J st -> J (traceLocal fs filePath content dir i items st).
Proof.
  intros Hc. unfold traceLocal. apply fold_keeps.
  intros st a Hst. destruct (splitAs a).
  destruct (findImportSource fs content s dir); apply Hc, Hst.
Qed.

Lemma traceLine_at (J : TraceState -> Prop)
  (self : string -> TraceState -> option TraceState)
  filePath content dir i l st st' :
  closed_at J filePath ->
  (forall q s s', J s -> self q s = Some s' -> J s') ->
  J st ->
  traceLine fs self filePath content dir i l st = Some st' -> J st'.
Proof.
  intros Hc Hself Hst. unfold traceLine.
  destruct (_ || _ || _).
  - destruct (match_ re_from (trim l)) as [fromMatch|].
    + destruct (resolveImportPath fs (group 1 fromMatch) dir) as [resolvedPath|];
        [|intros [= <-]; assumption].
      destruct (startsWith (trim l) "export *").
      * destruct (self resolvedPath st) as [s1|] eqn:E; [|discriminate].
        intros [= <-]. apply fold_keeps; [intros; apply Hc; assumption|].
        eapply Hself; eauto.
      * destruct (match_ re_export_list (trim l)); intros [= <-]; [|assumption].
        apply traceSelective_at; auto.
    + destruct (_ || _); [|intros [= <-]; assumption].
      destruct (match_ re_export_list (trim l)); intros [= <-]; [|assumption].
      apply traceLocal_at; auto.
  - destruct (isDirectExport (trim l)); [|intros [= <-]; assumption].
    destruct (extractExportName (trim l)) as [n|]; [|intros [= <-]; assumption].
    destruct (truthy n); intros [= <-]; [apply Hc|]; assumption.
Qed.

Lemma traceLines_at (J : TraceState -> Prop)
  (self : string -> TraceState -> option TraceState)
  filePath content dir lines :
  closed_at J filePath ->
  (forall q s s', J s -> self q s = Some s' -> J s') ->
  forall i st st', J st ->
  traceLines fs self filePath content dir lines i st = Some st' -> J st'.
Proof.
  intros Hc Hself. induction lines as [|l lines IH]; intros i st st' Hst; simpl.
  - intros [= <-]. assumption.
  - destruct (traceLine fs self filePath content dir i l st) as [s1|] eqn:E;
      [|discriminate].
    apply IH. eapply traceLine_at; eauto.
Qed.

Variable Inv : TraceState -> Prop.
Hypothesis Inv_export :
  forall st p e, Inv st -> visited p st = true -> Inv (withExport st p e).
Hypothesis Inv_enter :
  forall st p, Inv st -> Inv (mkTrace (p :: analyzedFiles st) (exportMap st)).

(** Such an invariant holds after every call of the tracer. *)
Lemma trace_invariant (fuel : nat) :
  forall filePath st st',
    traceExportsFromFile fs fuel filePath st rootPath = Some st' ->
    Inv st -> Inv st'.
Proof.
  induction fuel as [|fuel IH]; intros filePath st st'; simpl; [discriminate|].
  destruct (visited filePath st) eqn:Hv; [intros [= <-]; auto|].
  set (st1 := mkTrace (filePath :: analyzedFiles st) (exportMap st)).
  destruct (readTextFile fs filePath) as [content|]; simpl;
    [|intros [= <-]; apply Inv_enter].
  intros Hrun Hst.
  assert (Hv1 : visited filePath st1 = true) by (apply visited_In; now left).
  apply (traceLines_at (fun s => Inv s /\ visited filePath s = true)
           (fun p s => traceExportsFromFile fs fuel p s rootPath)
           filePath content (dirname filePath) (split newline content)) with
    (i := 0) (st := st1).
  - intros s e [Hs Hvs]. split; [apply Inv_export; assumption | exact Hvs].
  - intros q s s' [Hs Hvs] Hq. split; [eapply IH; eauto|].
    apply (trace_grows fs rootPath) in Hq. destruct Hq as [Hincl _].
    apply visited_In, Hincl, visited_In, Hvs.
  - split; [apply Inv_enter, Hst | exact Hv1].
  - exact Hrun.
Qed.

Lemma traceEntries_invariant (paths : list string) :
  forall st st',
    traceEntries fs rootPath paths st = Some st' -> Inv st -> Inv st'.
Proof.
  induction paths as [|p paths IH]; intros st st'; cbn [traceEntries].
  - intros [= <-]. auto.
  - destruct (traceExportsFromFile fs (S (length fs)) (join rootPath p) st rootPath)
      as [s1|] eqn:E; [|discriminate].
    intros Hrest Hst. eapply IH; [exact Hrest|].
    eapply trace_invariant; eauto.
Qed.

End TraceInvariants.

Section TableInvariants.
Context {RT : Runtime}.
Variable fs : FileSystem.
Variable rootPath : string.

(** What [addExport] compares: exported name and source path. *)
Definition exportKey (e : TracedExport) : string * string :=
  (exportedName e, sourcePath e).

Definition distinct_exports (l : list TracedExport) : Prop :=
  NoDup (map exportKey l).

Lemma isDuplicate_false (existing : list TracedExport) (e : TracedExport) :
  isDuplicate existing e = false -> ~ In (exportKey e) (map exportKey existing).
Proof.
  unfold isDuplicate. intros Hd Hin. apply in_map_iff in Hin.
  destruct Hin as [x [Hk Hx]]. unfold exportKey in Hk. injection Hk as Hn Hs.
  assert (Ht : existsb (fun e0 => (exportedName e0 =? exportedName e)%string
                                  && (sourcePath e0 =? sourcePath e)%string)
                 existing = true).
  { apply existsb_exists. exists x. split; [exact Hx|].
    rewrite Hn, Hs, !String.eqb_refl. reflexivity. }
  congruence.
Qed.

Lemma lookup_map_set_other (A : Type) (k k' : string) (v : A) (m : list (string * A)) :
  k <> k' -> lookup k' (map_set k v m) = lookup k' m.
Proof.
  intros Hne. induction m as [|[k0 v0] m IH]; simpl.
  - destruct (String.eqb_spec k k'); [contradiction | reflexivity].
  - destruct (String.eqb_spec k0 k) as [->|H0]; simpl.
    + destruct (String.eqb_spec k k'); [contradiction | reflexivity].
    + destruct (String.eqb_spec k0 k'); [reflexivity | exact IH].
Qed.

Lemma bucket_addExport_other (m : ExportMap) (f g : string) (e : TracedExport) :
  f <> g -> bucket (addExport m f e) g = bucket m g.
Proof.
  intros Hne. unfold addExport, bucket at 1.
  rewrite lookup_map_set_other by exact Hne. reflexivity.
Qed.

Lemma addExport_distinct (m : ExportMap) (f : string) (e : TracedExport) :
  (forall g, distinct_exports (bucket m g)) ->
  forall g, distinct_exports (bucket (addExport m f e) g).
Proof.
  intros Hm g. destruct (String.eqb_spec f g) as [<-|Hne].
  - rewrite bucket_addExport. destruct (isDuplicate (bucket m f) e) eqn:E; [apply Hm|].
    unfold distinct_exports. rewrite map_app. simpl.
    apply NoDup_app; [apply Hm | constructor; [tauto | constructor] |].
    intros k Hin [<-|[]]. eapply isDuplicate_false; eauto.
  - rewrite bucket_addExport_other by exact Hne. apply Hm.
Qed.

(** X1.  After the entry points are traced from an empty table, no file
    of the table has two exports with the same exported name and the same
    source path. *)
Theorem traced_buckets_distinct (paths : list string) :
  exists st',
    traceEntries fs rootPath paths (mkTrace [] []) = Some st'
    /\ forall filePath, distinct_exports (bucket (exportMap st') filePath).
Proof.
  destruct (traceEntries_returns fs rootPath paths (mkTrace [] [])) as [st' [Hrun _]].
  exists st'. split; [exact Hrun|].
  apply (traceEntries_invariant fs rootPath
           (fun st => forall g, distinct_exports (bucket (exportMap st) g)))
    with (paths := paths) (st := mkTrace [] []); [| |exact Hrun|].
  - intros st p e Hst _. unfold withExport. cbn [exportMap].
    apply addExport_distinct, Hst.
  - intros st p Hst. exact Hst.
  - intros g. constructor.
Qed.

Lemma map_set_keys (A : Type) (k k0 : string) (v : A) (m : list (string * A)) :
  In k (map fst (map_set k0 v m)) -> k = k0 \/ In k (map fst m).
Proof.
  induction m as [|[k' v'] m IH]; simpl.
  - intros [<-|[]]. now left.
  - destruct (String.eqb_spec k' k0) as [->|Hne]; simpl.
    + intros [<-|Hin]; [now left | right; now right].
    + intros [<-|Hin]; [right; now left|].
      apply IH in Hin. destruct Hin; [now left | right; now right].
Qed.

(** X2.  Exports are recorded only under files that the tracer has
    entered: every key of the export table is in the visited set. *)
Theorem traced_keys_visited (paths : list string) :
  exists st',
    traceEntries fs rootPath paths (mkTrace [] []) = Some st'
    /\ forall filePath, In filePath (map fst (exportMap st')) ->
                        visited filePath st' = true.
Proof.
  destruct (traceEntries_returns fs rootPath paths (mkTrace [] [])) as [st' [Hrun _]].
  exists st'. split; [exact Hrun|].
  apply (traceEntries_invariant fs rootPath
           (fun st => forall f, In f (map fst (exportMap st)) -> visited f st = true))
    with (paths := paths) (st := mkTrace [] []); [| |exact Hrun|].
  - intros st p e Hst Hp f Hin. unfold withExport, addExport in Hin.
    cbn [exportMap] in Hin. apply map_set_keys in Hin.
    destruct Hin as [->|Hin]; [exact Hp | apply Hst, Hin].
  - intros st p Hst f Hin. cbn [exportMap] in Hin.
    apply visited_In. right. apply visited_In, Hst, Hin.
  - intros f [].
Qed.

(** Recording the same export twice is recording it once. *)
Lemma addExport_twice (m : ExportMap) (f : string) (e : TracedExport) :
  bucket (addExport (addExport m f e) f e) f = bucket (addExport m f e) f.
Proof.
  rewrite (bucket_addExport (addExport m f e)).
  destruct (isDuplicate (bucket (addExport m f e) f) e) eqn:E; [reflexivity|].
  exfalso. destruct (addExport_present m f e) as [e' [Hin [Hn Hs]]].
  unfold isDuplicate in E.
  assert (Ht : existsb (fun e0 => (exportedName e0 =? exportedName e)%string
                                  && (sourcePath e0 =? sourcePath e)%string)
                 (bucket (addExport m f e) f) = true).
  { apply existsb_exists. exists e'. split; [exact Hin|].
    rewrite Hn, Hs, !String.eqb_refl. reflexivity. }
  congruence.
Qed.

End TableInvariants.

(* ===================================================================== *)
(** ** Module path resolution *)
(* ===================================================================== *)

Section Resolution.
Context {RT : Runtime}.
Variable fs : FileSystem.

Definition exists_at (p : string) : Prop := exists n, stat fs p = Ok n.

Lemma tryExtensions_sound (basePath : string) (exts : list string) (r : string) :
  tryExtensions fs basePath exts = Some r ->
  exists ext q,
    In ext exts /\ exists_at q /\ r = resolve q
    /\ q = (if endsWith basePath ".ts" || endsWith basePath ".js"
            then basePath else (basePath ++ ext)%string).
Proof.
  induction exts as [|ext exts IH]; simpl; [discriminate|].
  destruct (stat fs _) as [n|] eqn:E.
  - intros [= <-]. exists ext. eexists. split; [now left|].
    split; [exists n; exact E|]. split; reflexivity.
  - intros H. destruct (IH H) as [ext' [q [Hin Hq]]].
    exists ext', q. split; [now right | exact Hq].
Qed.

(** X3.  A specifier resolves only when it is relative, and then to
    [resolve] of a path that exists: the joined path itself or the joined
    path with one of the seven suffixes; the suffixes are tried only when
    nothing exists at the joined path. *)
Theorem resolveImportPath_sound (importPath fromDir r : string) :
  resolveImportPath fs importPath fromDir = Some r ->
  startsWith importPath "." = true
  /\ exists q,
       exists_at q /\ r = resolve q
       /\ (q = join fromDir importPath
           \/ (stat fs (join fromDir importPath) = Throw
               /\ exists ext, In ext extensions
                              /\ q = (join fromDir importPath ++ ext)%string)).
Proof.
  unfold resolveImportPath.
  destruct (startsWith importPath "."); [|discriminate].
  intros H. split; [reflexivity|].
  destruct (stat fs (join fromDir importPath)) as [n|] eqn:E.
  - injection H as <-. exists (join fromDir importPath).
    split; [exists n; exact E|]. split; [reflexivity | now left].
  - apply tryExtensions_sound in H. destruct H as [ext [q [Hin [Hq [Hr Hform]]]]].
    exists q. split; [exact Hq|]. split; [exact Hr|].
    destruct (endsWith _ ".ts" || endsWith _ ".js").
    + subst q. destruct Hq as [n Hn]. congruence.
    + right. split; [reflexivity|]. exists ext. auto.
Qed.

Lemma tryExtensions_fixed (basePath : string) (exts : list string) :
  stat fs basePath = Throw ->
  endsWith basePath ".ts" || endsWith basePath ".js" = true ->
  tryExtensions fs basePath exts = None.
Proof.
  intros Hs He. induction exts as [|ext exts IH]; simpl; [reflexivity|].
  rewrite He, Hs. exact IH.
Qed.

(** X4.  A specifier whose joined path ends in [.ts] or [.js] and does not
    exist never resolves: no suffix is appended to it, whatever other
    files exist. *)
Theorem resolveImportPath_no_suffix (importPath fromDir : string) :
  stat fs (join fromDir importPath) = Throw ->
  endsWith (join fromDir importPath) ".ts"
  || endsWith (join fromDir importPath) ".js" = true ->
  resolveImportPath fs importPath fromDir = None.
Proof.
  intros Hs He. unfold resolveImportPath.
  destruct (startsWith importPath "."); [|reflexivity].
  rewrite Hs. apply tryExtensions_fixed; assumption.
Qed.

(** X5.  Whatever exists at the joined path wins, a directory included:
    the specifier resolves to it, and tracing the resolved path of a
    directory records the path as visited and no export. *)
Theorem resolveImportPath_directory (importPath fromDir rootPath : string)
  (st : TraceState) (fuel : nat) :
  startsWith importPath "." = true ->
  lookup (join fromDir importPath) fs = Some Directory ->
  lookup (resolve (join fromDir importPath)) fs = Some Directory ->
  let resolvedPath := resolve (join fromDir importPath) in
  resolveImportPath fs importPath fromDir = Some resolvedPath
  /\ exists st',
       traceExportsFromFile fs (S fuel) resolvedPath st rootPath = Some st'
       /\ exportMap st' = exportMap st
       /\ visited resolvedPath st' = true.
Proof.
  intros Hrel Hdir Hres resolvedPath. split.
  - unfold resolveImportPath, stat. rewrite Hrel, Hdir. reflexivity.
  - cbn [traceExportsFromFile]. destruct (visited resolvedPath st) eqn:Hv.
    + exists st. auto.
    + unfold readTextFile. fold resolvedPath in Hres. rewrite Hres. simpl.
      eexists. split; [reflexivity|]. split; [reflexivity|].
      unfold visited, mem. cbn [analyzedFiles existsb].
      rewrite String.eqb_refl. reflexivity.
Qed.

End Resolution.

Module ResolutionExamples.

Definition fs : FileSystem :=
  [ ("/p", Directory); ("/p/utils", Directory);
    ("/p/utils.ts", File (text ["export const u = 1;"]));
    ("/p/utils/mod.ts", File (text ["export const m = 1;"]));
    ("/p/a.js.ts", File (text ["export const a = 1;"])) ].

Definition rt : Runtime := Posix.runtime "/p" [].

Lemma resolveImportPath_sound_witness :
  startsWith "./utils/mod" "." = true
  /\ exists q,
       exists_at fs q /\ "/p/utils/mod.ts" = Posix.resolve_in "/p" q
       /\ (q = Posix.join "/p" "./utils/mod"
           \/ (stat fs (Posix.join "/p" "./utils/mod") = Throw
               /\ exists ext, In ext extensions
                              /\ q = (Posix.join "/p" "./utils/mod" ++ ext)%string)).
Proof.
  apply (resolveImportPath_sound (RT := rt) fs "./utils/mod" "/p" "/p/utils/mod.ts").
  reflexivity.
Defined.

Lemma resolveImportPath_no_suffix_witness :
  resolveImportPath (RT := rt) fs "./a.js" "/p" = None.
Proof.
  apply (resolveImportPath_no_suffix (RT := rt) fs "./a.js" "/p"); reflexivity.
Defined.

Lemma resolveImportPath_directory_witness :
  resolveImportPath (RT := rt) fs "./utils" "/p" = Some "/p/utils"
  /\ exists st',
       traceExportsFromFile (RT := rt) fs 4 "/p/utils" (mkTrace [] []) "/p" = Some st'
       /\ exportMap st' = []
       /\ visited "/p/utils" st' = true.
Proof.
  apply (resolveImportPath_directory (RT := rt) fs "./utils" "/p" "/p"
           (mkTrace [] []) 3); reflexivity.
Defined.

End ResolutionExamples.

(* ===================================================================== *)
(** ** Declaration locator *)
(* ===================================================================== *)

Lemma word_not_meta (c : ascii) : is_word c = true -> is_meta c = false.
Proof.
  destruct c as [[] [] [] [] [] [] [] []]; vm_compute; congruence.
Qed.

Lemma identifier_literal (s : string) : is_identifier s = true -> is_literal s = true.
Proof.
  unfold is_identifier, is_literal. intros H. apply andb_prop in H.
  destruct H as [_ H]. induction s as [|c s IH]; [reflexivity|].
  cbn [all_chars] in *. apply andb_prop in H. destruct H as [Hc Hs].
  rewrite (word_not_meta c Hc), (IH Hs). reflexivity.
Qed.

Section Locator.
Context {RT : Runtime}.
Variable fs : FileSystem.

(** The trimmed line [line] is taken for a declaration of [symbolName]:
    it is a direct export of that name, or one of the six patterns
    matches. *)
Definition declares (symbolName line : string) : bool :=
  (isDirectExport line && option_string_eqb (extractExportName line) symbolName)
  || match testDeclaration symbolName line with Ok b => b | Throw => false end.

Lemma findSymbolInLines_first (symbolName : string) (lines : list string) :
  forall i k,
    findSymbolInLines lines i symbolName = Ok (Some k) ->
    exists j l,
      k = i + j + 1
      /\ nth_error lines j = Some l
      /\ declares symbolName (trim l) = true
      /\ forall j' l', j' < j -> nth_error lines j' = Some l' ->
                       declares symbolName (trim l') = false.
Proof.
  induction lines as [|x lines IH]; intros i k; simpl; [discriminate|].
  destruct (isDirectExport (trim x)
            && option_string_eqb (extractExportName (trim x)) symbolName) eqn:Hd.
  - intros [= <-]. exists 0, x. split; [lia|]. split; [reflexivity|].
    split; [unfold declares; rewrite Hd; reflexivity | intros; lia].
  - destruct (testDeclaration symbolName (trim x)) as [b|] eqn:Ht; simpl;
      [|discriminate].
    destruct b.
    + intros [= <-]. exists 0, x. split; [lia|]. split; [reflexivity|].
      split; [unfold declares; rewrite Hd, Ht; reflexivity | intros; lia].
    + intros H. apply IH in H. destruct H as [j [l [Hk [Hnth [Hdec Hfirst]]]]].
      exists (S j), l. split; [lia|]. split; [exact Hnth|]. split; [exact Hdec|].
      intros j' l' Hlt Hn'. destruct j' as [|j'].
      * simpl in Hn'. injection Hn' as <-. unfold declares. rewrite Hd, Ht.
        reflexivity.
      * simpl in Hn'. eapply Hfirst; [|exact Hn']. lia.
Qed.

(** X6.  When the locator answers, the answer is the 1-based number of
    the first line of the file that is taken for a declaration of the
    name. *)
Theorem findSymbolInFile_first (filePath symbolName : string) (k : nat) :
  findSymbolInFile fs filePath symbolName = Some k ->
  exists content l,
    readTextFile fs filePath = Ok content
    /\ 1 <= k <= length (split newline content)
    /\ nth_error (split newline content) (k - 1) = Some l
    /\ declares symbolName (trim l) = true
    /\ forall j l', j < k - 1 -> nth_error (split newline content) j = Some l' ->
                    declares symbolName (trim l') = false.
Proof.
  unfold findSymbolInFile.
  destruct (readTextFile fs filePath) as [content|]; simpl; [|discriminate].
  destruct (findSymbolInLines (split newline content) 0 symbolName) as [[k'|]|] eqn:E;
    simpl; try discriminate.
  intros [= <-]. apply findSymbolInLines_first in E.
  destruct E as [j [l [Hk [Hnth [Hdec Hfirst]]]]].
  exists content, l. split; [reflexivity|]. subst k'.
  replace (0 + j + 1 - 1) with j by lia.
  split; [|split; [exact Hnth | split; [exact Hdec | exact Hfirst]]].
  assert (j < length (split newline content)) by (apply nth_error_Some; congruence).
  lia.
Qed.

Lemma findSymbolInLines_complete (symbolName : string) (lines : list string) :
  is_identifier symbolName = true ->
  forall i j l,
    nth_error lines j = Some l ->
    declares symbolName (trim l) = true ->
    exists k, findSymbolInLines lines i symbolName = Ok (Some k) /\ k <= i + j + 1.
Proof.
  intros Hid. induction lines as [|x lines IH]; intros i j l Hnth Hdec;
    [destruct j; discriminate|].
  cbn [findSymbolInLines].
  destruct (isDirectExport (trim x)
            && option_string_eqb (extractExportName (trim x)) symbolName) eqn:Hd.
  - exists (i + 1). split; [reflexivity | lia].
  - assert (Ht : exists b, testDeclaration symbolName (trim x) = Ok b).
    { unfold testDeclaration. rewrite (identifier_literal _ Hid). eauto. }
    destruct Ht as [b Ht]. rewrite Ht. simpl. destruct b.
    + exists (i + 1). split; [reflexivity | lia].
    + destruct j as [|j].
      * simpl in Hnth. injection Hnth as <-. unfold declares in Hdec.
        rewrite Hd, Ht in Hdec. discriminate.
      * simpl in Hnth. destruct (IH (S i) j l Hnth Hdec) as [k [Hk Hle]].
        exists k. split; [exact Hk | lia].
Qed.

(** X7.  For a name that is an identifier, the locator finds every
    declaration: if some line of a readable file is taken for a
    declaration of the name, the locator answers with that line or an
    earlier one. *)
Theorem findSymbolInFile_complete (filePath symbolName content l : string) (j : nat) :
  is_identifier symbolName = true ->
  readTextFile fs filePath = Ok content ->
  nth_error (split newline content) j = Some l ->
  declares symbolName (trim l) = true ->
  exists k, findSymbolInFile fs filePath symbolName = Some k /\ 1 <= k <= j + 1.
Proof.
  intros Hid Hread Hnth Hdec. unfold findSymbolInFile. rewrite Hread. simpl.
  destruct (findSymbolInLines_complete symbolName _ Hid 0 j l Hnth Hdec)
    as [k [Hk Hle]].
  rewrite Hk. simpl. exists k. split; [reflexivity|].
  apply findSymbolInLines_first in Hk. destruct Hk as [j' [_ [-> _]]]. lia.
Qed.

End Locator.

Module LocatorExamples.

Definition rt : Runtime := Posix.runtime "/repo" [].

Lemma findSymbolInFile_first_witness :
  exists content l,
    readTextFile Fixtures.fs "/repo/tests/types.ts" = Ok content
    /\ 1 <= 6 <= length (split newline content)
    /\ nth_error (split newline content) (6 - 1) = Some l
    /\ declares (RT := rt) "Server" (trim l) = true
    /\ forall j l', j < 6 - 1 -> nth_error (split newline content) j = Some l' ->
                    declares (RT := rt) "Server" (trim l') = false.
Proof.
  apply (findSymbolInFile_first (RT := rt) Fixtures.fs "/repo/tests/types.ts" "Server" 6).
  vm_compute. reflexivity.
Defined.

Lemma findSymbolInFile_complete_witness :
  exists k,
    findSymbolInFile (RT := rt) Fixtures.fs "/repo/tests/types.ts" "Server" = Some k
    /\ 1 <= k <= 5 + 1.
Proof.
  apply (findSymbolInFile_complete (RT := rt) Fixtures.fs "/repo/tests/types.ts"
           "Server" Fixtures.types_ts "export type Server = {" 5);
    vm_compute; reflexivity.
Defined.

End LocatorExamples.

(* ===================================================================== *)
(** ** Word boundaries in the locator *)
(* ===================================================================== *)

Definition k0 : option ascii -> string -> list string
  -> option (list string * option ascii * string) :=
  fun p' s' c => Some (c, p', s').

(** [P] matches at the current position. *)
Definition starts (P : regex) (prev : option ascii) (s : string) : bool :=
  match rmatch P prev s [] k0 with Some _ => true | None => false end.

Lemma bol_later (P : regex) : forall s c, exec_from (Seq Bol P) (Some c) s = None.
Proof.
  induction s as [|ch s IH]; intros c; simpl; [reflexivity|].
  rewrite IH. reflexivity.
Qed.

Lemma test_bol (P : regex) (s : string) : test (Seq Bol P) s = starts P None s.
Proof.
  unfold test, match_, starts, k0. destruct s as [|ch s]; simpl.
  - destruct (rmatch P None "" [] _) as [[[c p] r]|]; reflexivity.
  - destruct (rmatch P None (String ch s) [] _) as [[[c p] r]|]; [reflexivity|].
    rewrite bol_later. reflexivity.
Qed.

(** The common tail of the six patterns: [\s+], the name, [\b]. *)
Definition decl_tail (n : string) : regex := Seq ws1 (Seq (Lit n) WordBoundary).

Fixpoint last_char (l : string) (prev : option ascii) : option ascii :=
  match l with
  | EmptyString => prev
  | String c l' => last_char l' (Some c)
  end.

Lemma lit_app (l : string) : forall prev rest,
  lit l prev (l ++ rest) = Some (last_char l prev, rest).
Proof.
  induction l as [|c l IH]; intros prev rest; simpl; [reflexivity|].
  rewrite Ascii.eqb_refl. apply IH.
Qed.

Lemma word_not_space (a : ascii) : is_word a = true -> is_space a = false.
Proof.
  destruct a as [[] [] [] [] [] [] [] []]; vm_compute; congruence.
Qed.

Lemma last_char_word (l : string) : forall prev,
  all_chars is_word l = true -> word_at prev = true -> word_at (last_char l prev) = true.
Proof.
  induction l as [|c l IH]; intros prev Hall Hp; simpl in *; [exact Hp|].
  apply andb_prop in Hall. destruct Hall as [Hc Hl]. apply IH; assumption.
Qed.

Lemma starts_tail (n : string) (c : ascii) (rest : string) :
  is_identifier n = true ->
  starts (decl_tail n) (Some c) (String " " (n ++ rest))
  = negb (word_at (first_char rest)).
Proof.
  unfold is_identifier. intros Hid. apply andb_prop in Hid. destruct Hid as [Hne Hall].
  destruct n as [|a n]; [discriminate|]. simpl in Hall.
  apply andb_prop in Hall. destruct Hall as [Ha Hn].
  unfold starts, decl_tail. cbn [rmatch ws1].
  change (is_space " ") with true. cbn iota. cbn [append star].
  rewrite (word_not_space a Ha).
  cbn [rmatch lit]. rewrite Ascii.eqb_refl.
  change (String a n ++ rest)%string with (String a (n ++ rest)).
  rewrite lit_app.
  assert (Hw : word_at (last_char n (Some a)) = true)
    by (apply last_char_word; [exact Hn | exact Ha]).
  rewrite Hw. unfold k0. destruct (word_at (first_char rest)); reflexivity.
Qed.


(** The six patterns of the locator without [^] and the common tail. *)
Definition heads : list (regex -> regex) :=
  [ fun T => Seq (Opt (Seq (Lit "async") ws1)) (Seq (Lit "function") T);
    fun T => Seq (Lit "class") T;
    fun T => Seq (Lit "interface") T;
    fun T => Seq (Lit "type") T;
    fun T => Seq (Lit "enum") T;
    fun T => Seq const_let_var T ].

Section WordBoundaries.
Context {RT : Runtime}.

Lemma testDeclaration_starts (n line : string) :
  is_identifier n = true ->
  testDeclaration n line
  = Ok (existsb (fun K => starts (K (decl_tail n)) None line) heads).
Proof.
  intros Hid. unfold testDeclaration. rewrite (identifier_literal _ Hid). f_equal.
  unfold declarationPatterns, heads. cbn [existsb].
  rewrite <- !test_bol. reflexivity.
Qed.

(** The keywords that start a declaration that is not exported. *)
Definition keywords : list string :=
  ["function"; "async function"; "class"; "interface"; "type"; "enum";
   "const"; "let"; "var"].

(** X8.  For a name that is an identifier and a line made of a declaration
    keyword, a space, the name and a rest, the patterns of the locator
    match exactly when the rest is empty or starts with a character that
    is not a word character: a longer name that starts with the name is
    not taken for it. *)
Theorem declaration_word_boundary (kw n rest : string) :
  In kw keywords ->
  is_identifier n = true ->
  testDeclaration n (kw ++ " " ++ n ++ rest)
  = Ok (negb (word_at (first_char rest))).
Proof.
  intros Hkw Hid. rewrite (testDeclaration_starts _ _ Hid). f_equal.
  assert (Hs : forall c, starts (decl_tail n) (Some c) (String " " (n ++ rest))
                         = negb (word_at (first_char rest)))
    by (intros c; apply starts_tail, Hid).
  unfold starts in Hs. remember (decl_tail n) as T eqn:HT. clear HT.
  unfold keywords in Hkw. simpl in Hkw.
  repeat (destruct Hkw as [<-|Hkw]);
    try (unfold heads, starts; simpl;
         match goal with
         | |- context [rmatch T (Some ?c) ?s [] k0] =>
             specialize (Hs c); destruct (rmatch T (Some c) s [] k0);
             rewrite <- Hs; reflexivity
         end).
  destruct Hkw.
Qed.
End WordBoundaries.

Module BoundaryExamples.

Definition rt : Runtime := Posix.runtime "/repo" [].

Lemma declaration_word_boundary_witness :
  testDeclaration (RT := rt) "Server" "type ServerRateLimitDescription = {"
  = Ok false.
Proof.
  apply (declaration_word_boundary (RT := rt) "type" "Server"
           "RateLimitDescription = {").
  - simpl. tauto.
  - reflexivity.
Defined.

Example declaration_found :
  testDeclaration (RT := rt) "Server" "type Server = {" = Ok true.
Proof. vm_compute. reflexivity. Qed.

End BoundaryExamples.

(* ===================================================================== *)
(** ** Names of direct exports *)
(* ===================================================================== *)

(** [Captures r n]: every match of [r] captures [n] groups, each of them
    [(\w+)]. *)
Inductive Captures : regex -> nat -> Prop :=
| Cap_lit l : Captures (Lit l) 0
| Cap_chr p : Captures (Chr p) 0
| Cap_plus p : Captures (Plus p) 0
| Cap_star p : Captures (Star p) 0
| Cap_seq r1 r2 n1 n2 :
    Captures r1 n1 -> Captures r2 n2 -> Captures (Seq r1 r2) (n1 + n2)
| Cap_alt r1 r2 n : Captures r1 n -> Captures r2 n -> Captures (Alt r1 r2) n
| Cap_opt r : Captures r 0 -> Captures (Opt r) 0
| Cap_word : Captures (Cap (Plus is_word)) 1
| Cap_bol : Captures Bol 0
| Cap_boundary : Captures WordBoundary 0.

Section CaptureFacts.
Context {R : Type}.

Lemma star_text (p : ascii -> bool) :
  forall s prev caps (k : option ascii -> string -> list string -> option R) x,
    star p prev s caps k = Some x ->
    exists w s' p',
      s = (w ++ s')%string /\ all_chars p w = true /\ k p' s' caps = Some x.
Proof.
  induction s as [|c s IH]; intros prev caps k x; simpl.
  - intros H. exists "", "", prev. auto.
  - destruct (p c) eqn:Hc.
    + destruct (star p (Some c) s caps k) as [y|] eqn:E.
      * intros [= <-]. apply IH in E. destruct E as [w [s' [p' [-> [Hw Hk]]]]].
        exists (String c w), s', p'. simpl. rewrite Hc, Hw. auto.
      * intros H. exists "", (String c s), prev. auto.
    + intros H. exists "", (String c s), prev. auto.
Qed.

Lemma substring_app (w s' : string) :
  substring 0 (String.length (w ++ s') - String.length s') (w ++ s') = w.
Proof.
  assert (Happ : String.length (w ++ s') = String.length w + String.length s')
    by (induction w as [|c w IH]; simpl; [reflexivity | now rewrite IH]).
  replace (String.length (w ++ s') - String.length s') with (String.length w)
    by lia.
  clear Happ. induction w as [|c w IH]; simpl.
  - destruct s'; reflexivity.
  - now rewrite IH.
Qed.

Lemma rmatch_captures (r : regex) (n : nat) :
  Captures r n ->
  forall prev s caps (k : option ascii -> string -> list string -> option R) x,
    rmatch r prev s caps k = Some x ->
    exists p' s' new,
      k p' s' (caps ++ new) = Some x /\ length new = n
      /\ Forall (fun w => is_identifier w = true) new.
Proof.
  induction 1 as [l|p|p|p|r1 r2 n1 n2 H1 IH1 H2 IH2|r1 r2 n H1 IH1 H2 IH2
                  |r H IH| | |]; intros prev s caps k x; simpl.
  - destruct (lit l prev s) as [[p' s']|]; [|discriminate].
    intros Hk. exists p', s', []. rewrite app_nil_r. auto.
  - destruct s as [|c s]; [discriminate|]. destruct (p c); [|discriminate].
    intros Hk. exists (Some c), s, []. rewrite app_nil_r. auto.
  - destruct s as [|c s]; [discriminate|]. destruct (p c); [|discriminate].
    intros Hk. apply star_text in Hk. destruct Hk as [w [s' [p' [_ [_ Hk]]]]].
    exists p', s', []. rewrite app_nil_r. auto.
  - intros Hk. apply star_text in Hk. destruct Hk as [w [s' [p' [_ [_ Hk]]]]].
    exists p', s', []. rewrite app_nil_r. auto.
  - intros Hk. apply IH1 in Hk. destruct Hk as [p1 [s1 [new1 [Hk [Hl1 Hf1]]]]].
    apply IH2 in Hk. destruct Hk as [p2 [s2 [new2 [Hk [Hl2 Hf2]]]]].
    exists p2, s2, (new1 ++ new2). rewrite app_assoc, length_app.
    split; [exact Hk|]. split; [lia | apply Forall_app; auto].
  - destruct (rmatch r1 prev s caps k) as [y|] eqn:E.
    + intros [= <-]. eapply IH1; eauto.
    + apply IH2.
  - destruct (rmatch r prev s caps k) as [y|] eqn:E.
    + intros [= <-]. eapply IH; eauto.
    + intros Hk. exists prev, s, []. rewrite app_nil_r. auto.
  - destruct s as [|c s]; [discriminate|]. destruct (is_word c) eqn:Hc; [|discriminate].
    intros Hk. apply star_text in Hk. destruct Hk as [w [s' [p' [-> [Hw Hk]]]]].
    change (String c (w ++ s'))%string with (String c w ++ s')%string in Hk.
    rewrite substring_app in Hk.
    exists p', s', [String c w]. split; [exact Hk|]. split; [reflexivity|].
    constructor; [|constructor]. unfold is_identifier. simpl. rewrite Hc, Hw.
    reflexivity.
  - destruct prev; [discriminate|]. intros Hk. exists None, s, [].
    rewrite app_nil_r. auto.
  - destruct (xorb _ _); [|discriminate]. intros Hk. exists prev, s, [].
    rewrite app_nil_r. auto.
Qed.

End CaptureFacts.

Lemma match_captures (r : regex) (n : nat) (s : string) (caps : list string) :
  Captures r n ->
  match_ r s = Some caps ->
  length caps = n /\ Forall (fun w => is_identifier w = true) caps.
Proof.
  intros Hr. unfold match_.
  assert (H : forall s prev b c p' r',
             exec_from r prev s = Some (b, c, p', r') ->
             length c = n /\ Forall (fun w => is_identifier w = true) c).
  { clear s caps. induction s as [|ch s IH]; intros prev b c p' r'; simpl.
    - destruct (rmatch r prev "" [] _) as [[[c0 p0] r0]|] eqn:E; [|discriminate].
      intros [= _ <- _ _]. apply (rmatch_captures r n Hr) in E.
      destruct E as [p1 [s1 [new [[= <- _ _] H]]]]. exact H.
    - destruct (rmatch r prev (String ch s) [] _) as [[[c0 p0] r0]|] eqn:E.
      + intros [= _ <- _ _]. apply (rmatch_captures r n Hr) in E.
        destruct E as [p1 [s1 [new [[= <- _ _] H]]]]. exact H.
      + destruct (exec_from r (Some ch) s) as [[[[b0 c0] p0] r0]|] eqn:E2;
          [|discriminate].
        intros [= _ <- _ _]. eapply IH; eauto. }
  destruct (exec_from r None s) as [[[[b c] p'] r']|] eqn:E; [|discriminate].
  intros [= <-]. eapply H; eauto.
Qed.

Lemma exportNamePatterns_capture :
  Forall (fun r => Captures r 1) exportNamePatterns.
Proof.
  unfold exportNamePatterns, cat, word1, const_let_var.
  repeat constructor;
    repeat first
      [ apply Cap_word
      | apply (Cap_seq _ _ 0 1) | apply (Cap_seq _ _ 0 0)
      | constructor ].
Qed.

(** X9.  A name that [extractExportName] returns is an identifier: one or
    more word characters, never the empty string. *)
Theorem extractExportName_identifier (line n : string) :
  extractExportName line = Some n -> is_identifier n = true.
Proof.
  unfold extractExportName.
  destruct (first_match exportNamePatterns line) as [caps|] eqn:E.
  - intros [= <-].
    assert (H : forall ps, Forall (fun r => Captures r 1) ps ->
                           first_match ps line = Some caps ->
                           length caps = 1
                           /\ Forall (fun w => is_identifier w = true) caps).
    { induction ps as [|p ps IH]; intros Hps; simpl; [discriminate|].
      inversion Hps; subst.
      destruct (match_ p line) as [c|] eqn:Em.
      - intros [= <-]. eapply match_captures; eauto.
      - apply IH. assumption. }
    destruct (H _ exportNamePatterns_capture E) as [Hlen Hall].
    destruct caps as [|w [|w' caps]]; try discriminate.
    inversion Hall; subst. exact H2.
  - destruct (includes line "export default"); [|discriminate].
    intros [= <-]. reflexivity.
Qed.

Lemma extractExportName_identifier_witness :
  extractExportName "export async function load(p: string) {" = Some "load"
  /\ is_identifier "load" = true.
Proof.
  split; [reflexivity|].
  apply (extractExportName_identifier "export async function load(p: string) {" "load").
  reflexivity.
Defined.

(* ===================================================================== *)
(** ** Statistics by kind *)
(* ===================================================================== *)

Section ByType.

(** [byType[t]], with [(0, 0)] for a kind that has no entry. *)
Definition typeEntry (t : SymbolType) (m : list (SymbolType * (nat * nat)))
  : nat * nat :=
  match find (fun e => SymbolType_eqb (fst e) t) m with
  | Some e => snd e
  | None => (0, 0)
  end.

Lemma SymbolType_eqb_eq (a b : SymbolType) : SymbolType_eqb a b = true <-> a = b.
Proof. destruct a, b; simpl; split; congruence. Qed.

Lemma SymbolType_eqb_trans (a b c : SymbolType) :
  SymbolType_eqb a b = true -> SymbolType_eqb a c = SymbolType_eqb b c.
Proof. intros H. apply SymbolType_eqb_eq in H. now subst. Qed.

Lemma typeEntry_bump (t t' : SymbolType) (doc : bool)
  (m : list (SymbolType * (nat * nat))) :
  typeEntry t (bumpType t' doc m)
  = if SymbolType_eqb t' t
    then (fst (typeEntry t m) + 1, snd (typeEntry t m) + (if doc then 1 else 0))
    else typeEntry t m.
Proof.
  unfold typeEntry. induction m as [|[k [n d]] m IH]; simpl.
  - destruct (SymbolType_eqb t' t); destruct doc; reflexivity.
  - destruct (SymbolType_eqb k t') eqn:Hk; simpl.
    + rewrite <- (SymbolType_eqb_trans _ _ t Hk).
      destruct (SymbolType_eqb k t); simpl; [|reflexivity].
      destruct doc; f_equal; lia.
    + destruct (SymbolType_eqb k t) eqn:Hkt; simpl; [|exact IH].
      destruct (SymbolType_eqb t' t) eqn:Ht; [|reflexivity].
      apply SymbolType_eqb_eq in Hkt, Ht. subst.
      assert (SymbolType_eqb t t = true) by (apply SymbolType_eqb_eq; reflexivity).
      congruence.
Qed.

Lemma bumpType_keys (t : SymbolType) (doc : bool) (m : list (SymbolType * (nat * nat))) :
  NoDup (map fst m) -> NoDup (map fst (bumpType t doc m)).
Proof.
  assert (Hin : forall k m, In k (map fst (bumpType t doc m)) -> k = t \/ In k (map fst m)).
  { clear m. intros k m. induction m as [|[k' [n d]] m IH]; simpl.
    - intros [<-|[]]. now left.
    - destruct (SymbolType_eqb k' t); simpl.
      + intros [<-|H]; [right; now left | right; now right].
      + intros [<-|H]; [right; now left|].
        apply IH in H. destruct H; [now left | right; now right]. }
  induction m as [|[k [n d]] m IH]; simpl; intros Hnd.
  - constructor; [tauto | constructor].
  - inversion Hnd as [|? ? Hnotin Hrest]; subst.
    destruct (SymbolType_eqb k t) eqn:Hk; simpl.
    + constructor; assumption.
    + constructor; [|auto]. intros H. apply Hin in H. destruct H as [->|H]; [|auto].
      assert (SymbolType_eqb t t = true) by (apply SymbolType_eqb_eq; reflexivity).
      congruence.
Qed.

(** X10.  The entry of a kind in [byType] counts the symbols of that kind
    and the documented ones among them, and no kind has two entries. *)
Theorem byType_counts (symbols : list ExportedSymbol) (t : SymbolType) :
  typeEntry t (byType (calculateStats symbols))
  = (length (filter (fun s => SymbolType_eqb (type s) t) symbols),
     length (filter (fun s => SymbolType_eqb (type s) t && hasJSDoc s) symbols))
  /\ NoDup (map fst (byType (calculateStats symbols))).
Proof.
  cbn [byType calculateStats].
  assert (H : forall l m,
    NoDup (map fst m) ->
    typeEntry t (fold_left (fun m s => bumpType (type s) (hasJSDoc s) m) l m)
    = (fst (typeEntry t m)
       + length (filter (fun s => SymbolType_eqb (type s) t) l),
       snd (typeEntry t m)
       + length (filter (fun s => SymbolType_eqb (type s) t && hasJSDoc s) l))
    /\ NoDup (map fst (fold_left (fun m s => bumpType (type s) (hasJSDoc s) m) l m))).
  { induction l as [|s l IH]; intros m Hm; cbn [fold_left filter length].
    - split; [|exact Hm]. rewrite !Nat.add_0_r. now destruct (typeEntry t m).
    - destruct (IH (bumpType (type s) (hasJSDoc s) m) (bumpType_keys _ _ _ Hm))
        as [Hc Hk].
      split; [|exact Hk]. rewrite Hc, typeEntry_bump.
      destruct (SymbolType_eqb (type s) t); destruct (hasJSDoc s);
        cbn [andb length fst snd]; f_equal; lia. }
  destruct (H symbols [] ltac:(constructor)) as [Hc Hk]. split; [|exact Hk].
  rewrite Hc. reflexivity.
Qed.

End ByType.

(* ===================================================================== *)
(** ** Documentation associator *)
(* ===================================================================== *)

Section Associator.

(** A line that the lookahead skips: blank, or a line comment. *)
Definition skippable (l : string) : bool :=
  negb (truthy (trim l) && negb (startsWith (trim l) "//")).

Definition exportLike (l : string) : bool :=
  isDirectExport (trim l) || startsWith (trim l) "export ".

Lemma nextCodeLine_spec (rest : list string) :
  forall j j' nextLine,
    nextCodeLine rest j = Some (j', nextLine) ->
    j <= j'
    /\ exists l,
         nth_error rest (j' - j) = Some l /\ trim l = nextLine
         /\ skippable l = false
         /\ forall m l', m < j' - j -> nth_error rest m = Some l' ->
                         skippable l' = true.
Proof.
  induction rest as [|x rest IH]; intros j j' nextLine; simpl; [discriminate|].
  destruct (truthy (trim x) && negb (startsWith (trim x) "//")) eqn:E.
  - intros [= <- <-]. split; [lia|]. exists x. rewrite Nat.sub_diag.
    split; [reflexivity|]. split; [reflexivity|].
    split; [unfold skippable; rewrite E; reflexivity | intros; lia].
  - intros H. apply IH in H. destruct H as [Hle [l [Hnth [Ht [Hs Hbefore]]]]].
    split; [lia|]. exists l. replace (j' - j) with (S (j' - S j)) by lia.
    split; [exact Hnth|]. split; [exact Ht|]. split; [exact Hs|].
    intros m l' Hm Hn. destruct m as [|m].
    + simpl in Hn. injection Hn as <-. unfold skippable. rewrite E. reflexivity.
    + simpl in Hn. eapply Hbefore; [|exact Hn]. lia.
Qed.

Lemma blocks_has_set (k k' : nat) (c : string) (b : JsDocBlocks) :
  blocks_has k (blocks_set k' c b) = (k' =? k) || blocks_has k b.
Proof.
  unfold blocks_has, blocks_set. simpl. destruct (k' =? k); reflexivity.
Qed.

Lemma blocks_has_fold (k : nat) (c : string) (ks : list nat) :
  forall b,
    blocks_has k (fold_left (fun b k' => blocks_set k' c b) ks b) = true ->
    In k ks \/ blocks_has k b = true.
Proof.
  induction ks as [|k' ks IH]; intros b; simpl; [auto|].
  intros H. apply IH in H. destruct H as [H|H]; [left; now right|].
  rewrite blocks_has_set in H. apply orb_prop in H.
  destruct H as [H|H]; [left; left; now apply Nat.eqb_eq | now right].
Qed.

(** X11.  A documentation block that closes on line [i] is bound only to
    lines after it: the first following line that is neither blank nor a
    line comment, when that line is export-like, and at most the five
    lines after it, within the file. *)
Theorem bindExport_range (lines : list string) (i k : nat) (content : string)
  (blocks : JsDocBlocks) :
  blocks_has k (bindExport lines i content blocks) = true ->
  blocks_has k blocks = true
  \/ exists j l,
       i < j /\ j <= k <= j + 5 /\ k < length lines
       /\ nth_error lines j = Some l /\ exportLike l = true
       /\ forall m l', i < m < j -> nth_error lines m = Some l' ->
                       skippable l' = true.
Proof.
  unfold bindExport.
  destruct (nextCodeLine (skipn (i + 1) lines) (i + 1)) as [[j nextLine]|] eqn:E;
    [|auto].
  apply nextCodeLine_spec in E. destruct E as [Hle [l [Hnth [Ht [Hs Hbefore]]]]].
  destruct (isDirectExport nextLine || startsWith nextLine "export ") eqn:Hx; [|auto].
  unfold bindWindow. intros H. apply blocks_has_fold in H.
  destruct H as [H|H]; [|now left]. right.
  apply filter_In in H. destruct H as [Hseq Hlen].
  apply in_seq in Hseq. apply Nat.ltb_lt in Hlen.
  rewrite nth_error_skipn in Hnth. replace (i + 1 + (j - (i + 1))) with j in Hnth by lia.
  exists j, l. split; [lia|]. split; [lia|]. split; [exact Hlen|].
  split; [exact Hnth|]. split; [unfold exportLike; rewrite Ht; exact Hx|].
  intros m l' Hm Hn. apply (Hbefore (m - (i + 1))); [lia|].
  rewrite nth_error_skipn. replace (i + 1 + (m - (i + 1))) with m by lia. exact Hn.
Qed.

End Associator.

Lemma bindExport_range_witness :
  blocks_has 3 [] = true
  \/ exists j l,
       0 < j /\ j <= 3 <= j + 5 /\ 3 < length ["/** d */"; ""; "export function f("; "  a: A,"; ")"]
       /\ nth_error ["/** d */"; ""; "export function f("; "  a: A,"; ")"] j = Some l
       /\ exportLike l = true
       /\ forall m l', 0 < m < j ->
            nth_error ["/** d */"; ""; "export function f("; "  a: A,"; ")"] m = Some l' ->
            skippable l' = true.
Proof.
  apply (bindExport_range ["/** d */"; ""; "export function f("; "  a: A,"; ")"]
           0 3 "/** d */" []).
  reflexivity.
Defined.

Section Documented.
Variables (lines : list string) (source relativePath : string).
Variable sourceExports : list TracedExport.

Lemma isDirectExport_first (s : string) :
  isDirectExport s = true -> exists s', s = String "e" s'.
Proof.
  unfold isDirectExport, startsWith. destruct s as [|c s]; [discriminate|].
  cbn [String.prefix]. destruct (ascii_dec "e" c) as [<-|Hne]; [eauto|].
  cbn [orb]. discriminate.
Qed.

Lemma isDirectExport_code (s : string) :
  isDirectExport s = true ->
  truthy s = true /\ startsWith s "//" = false /\ startsWith s "/**" = false.
Proof.
  intros H. apply isDirectExport_first in H. destruct H as [s' ->].
  repeat split.
Qed.

Lemma indexed_pair (ls : list string) :
  forall k i d l,
    nth_error ls i = Some d -> nth_error ls (S i) = Some l ->
    exists pre post,
      combine (seq k (length ls)) ls = pre ++ (k + i, d) :: (k + S i, l) :: post.
Proof.
  induction ls as [|x ls IH]; intros k i d l Hd Hl; [destruct i; discriminate|].
  destruct i as [|i].
  - simpl in Hd. injection Hd as <-. destruct ls as [|y ls]; [discriminate|].
    simpl in Hl. injection Hl as <-.
    exists [], (combine (seq (S (S k)) (length ls)) ls). simpl.
    rewrite Nat.add_0_r, Nat.add_1_r. reflexivity.
  - simpl in Hd, Hl. destruct (IH (S k) i d l Hd Hl) as [pre [post Heq]].
    exists ((k, x) :: pre), post. simpl. rewrite Heq.
    replace (S k + i) with (k + S i) by lia.
    replace (S k + S i) with (k + S (S i)) by lia. reflexivity.
Qed.

Lemma blocks_get_fold (k : nat) (c : string) (ks : list nat) :
  forall b,
    blocks_get k b = Some c ->
    blocks_get k (fold_left (fun b k' => blocks_set k' c b) ks b) = Some c.
Proof.
  induction ks as [|k' ks IH]; intros b H; simpl; [exact H|].
  apply IH. unfold blocks_set. simpl. destruct (k' =? k); [reflexivity | exact H].
Qed.

(** A one-line block right before a direct export is bound to it. *)
Lemma bindExport_next (i : nat) (l c : string) (blocks : JsDocBlocks) :
  nth_error lines (S i) = Some l ->
  isDirectExport (trim l) = true ->
  blocks_get (S i) (bindExport lines i c blocks) = Some c.
Proof.
  intros Hl Hd. unfold bindExport.
  assert (Hskip : exists rest, skipn (i + 1) lines = l :: rest).
  { replace (i + 1) with (S i) by lia. clear Hd. revert i Hl.
    induction lines as [|x ls IH]; intros i Hl; [discriminate|].
    destruct i as [|i]; simpl in Hl.
    - destruct ls as [|y ls]; [discriminate|]. injection Hl as <-. simpl. eauto.
    - simpl. destruct ls as [|y ls]; [discriminate|]. apply (IH i). exact Hl. }
  destruct Hskip as [rest ->]. cbn [nextCodeLine].
  destruct (isDirectExport_code _ Hd) as [Ht [Hc _]]. rewrite Ht, Hc.
  cbn [andb negb]. rewrite Hd. cbn [orb].
  unfold bindWindow. replace (i + 1) with (S i) by lia. cbn [seq filter].
  assert (Hlen : (S i <? length lines) = true).
  { apply Nat.ltb_lt. apply nth_error_Some. congruence. }
  rewrite Hlen. cbn [fold_left]. apply blocks_get_fold.
  unfold blocks_set. simpl. rewrite Nat.eqb_refl. reflexivity.
Qed.

(** A direct export line leaves the blocks as they are, unless it also
    closes a block. *)
Lemma trackJSDoc_direct (i : nat) (l : string) (blocks : JsDocBlocks)
  (current : list string) :
  isDirectExport (trim l) = true ->
  endsWith (trim l) "*/" = false ->
  exists current',
    trackJSDoc lines i l blocks current = (blocks, current', false).
Proof.
  intros Hd He. unfold trackJSDoc.
  destruct (isDirectExport_code _ Hd) as [_ [_ Hs]]. rewrite Hs, He.
  destruct (0 <? length current); eauto.
Qed.

(** X12.  In the public-API mode, a direct export of a tracked name that
    follows a one-line documentation block without the module tag is
    reported as documented, with the text of the block. *)
Theorem documented_export (i : nat) (d l n : string) (exp : TracedExport)
  (sym : ExportedSymbol) :
  nth_error lines i = Some d ->
  nth_error lines (S i) = Some l ->
  startsWith (trim d) "/**" = true ->
  endsWith (trim d) "*/" = true ->
  includes (trim d) "@module" = false ->
  isDirectExport (trim l) = true ->
  endsWith (trim l) "*/" = false ->
  extractExportName (gather lines (S i) (trim l)) = Some n ->
  truthy n = true ->
  find (fun exp => (originalName exp =? n)%string
                   && (sourcePath exp =? source)%string) sourceExports = Some exp ->
  parseExportedSymbol (gather lines (S i) (trim l)) (S i) relativePath [] = Some sym ->
  exists s,
    In s (found_symbols
            (fold_left (docStep lines source relativePath sourceExports)
               (indexed lines) (mkDoc [] [] [])))
    /\ name s = exportedName exp /\ type s = type sym
    /\ line s = S i + 1
    /\ hasJSDoc s = true /\ jsDocContent s = Some (trim d).
Proof.
  intros Hd Hl Hstart Hend Hmod Hdirect Hopen Hname Htruthy Hfind Hparse.
  destruct (indexed_pair lines 0 i d l Hd Hl) as [pre [post Hsplit]].
  simpl in Hsplit. unfold indexed. rewrite Hsplit, fold_left_app.
  cbn [fold_left].
  set (st0 := fold_left (docStep lines source relativePath sourceExports) pre
                (mkDoc [] [] [])).
  set (st1 := docStep lines source relativePath sourceExports st0 (i, d)).
  assert (Hb1 : blocks_get (S i) (jsDocBlocks st1) = Some (trim d)).
  { subst st1. unfold docStep, trackJSDoc. rewrite Hstart, Hend, Hmod.
    cbn [negb jsDocBlocks]. apply (bindExport_next i l); assumption. }
  destruct (trackJSDoc_direct (S i) l (jsDocBlocks st1) (currentJSDoc st1)
              Hdirect Hopen) as [current' Htrack].
  destruct (DocFacts.parse_blocks _ _ _ _ (jsDocBlocks st1) _ Hparse)
    as [sym' [Hp' [Hn [Ht _]]]].
  destruct (DocFacts.parse_fields _ _ _ _ _ Hp') as [_ [Hline [Hhas Hget]]].
  exists (rename sym' (exportedName exp)). split.
  - apply scan_keeps. unfold docStep at 1. rewrite Htrack.
    cbn [found_symbols]. apply in_or_app. right.
    unfold synthesize. rewrite Hdirect, Hname, Htruthy, Hfind, Hp'. now left.
  - cbn [rename name type line hasJSDoc jsDocContent].
    split; [reflexivity|]. split; [exact Ht|]. split; [exact Hline|].
    split; [|rewrite Hget; exact Hb1].
    rewrite Hhas. unfold blocks_has. rewrite Hb1. reflexivity.
Qed.

End Documented.

Lemma documented_export_witness :
  exists s,
    In s (found_symbols
            (fold_left
               (docStep ["/** Doubles. */"; "export function twice(x: number) {"]
                  "/p/m.ts" "m.ts" [mkTraced "twice" "double" "/p/m.ts" 2])
               (indexed ["/** Doubles. */"; "export function twice(x: number) {"])
               (mkDoc [] [] [])))
    /\ name s = "double" /\ type s = TFunction
    /\ line s = 1 + 1
    /\ hasJSDoc s = true /\ jsDocContent s = Some "/** Doubles. */".
Proof.
  apply (documented_export ["/** Doubles. */"; "export function twice(x: number) {"]
           "/p/m.ts" "m.ts" [mkTraced "twice" "double" "/p/m.ts" 2] 0
           "/** Doubles. */" "export function twice(x: number) {" "twice"
           (mkTraced "twice" "double" "/p/m.ts" 2)
           (mkSymbol "twice" TFunction "m.ts" 2 false None Named));
    reflexivity.
Defined.

Section Undocumented.
Context {RT : Runtime}.
Variable fs : FileSystem.

Lemma synthesize_doc lines source relativePath sourceExports i l blocks s :
  In s (synthesize lines source relativePath sourceExports i l blocks) ->
  hasJSDoc s = blocks_has i blocks.
Proof.
  unfold synthesize. destruct (isDirectExport (trim l)).
  - destruct (extractExportName _) as [n|]; [|intros []].
    destruct (truthy n); [|intros []].
    destruct (find _ sourceExports) as [exp|]; [|intros []].
    destruct (parseExportedSymbol _ i relativePath blocks) as [sym|] eqn:Hp;
      [|intros []].
    intros [<-|[]]. apply DocFacts.parse_fields in Hp. simpl. apply Hp.
  - intros Hin. apply in_flat_map in Hin. destruct Hin as [exp [_ Hs]].
    destruct (existsb _ _); [|destruct Hs].
    destruct (parseExportedSymbol _ i relativePath blocks) as [sym|] eqn:Hp;
      [|destruct Hs].
    destruct Hs as [<-|[]]. apply DocFacts.parse_fields in Hp. simpl. apply Hp.
Qed.

(** No line of the file opens a documentation block. *)
Definition no_blocks (lines : list string) : Prop :=
  forall l, In l lines -> startsWith (trim l) "/**" = false.

Definition plain (st : DocState) : Prop :=
  jsDocBlocks st = [] /\ currentJSDoc st = []
  /\ Forall (fun s => hasJSDoc s = false) (found_symbols st).

Lemma docStep_plain lines source relativePath sourceExports st i l :
  startsWith (trim l) "/**" = false ->
  plain st ->
  plain (docStep lines source relativePath sourceExports st (i, l)).
Proof.
  intros Hs [Hb [Hc Hf]]. unfold docStep, trackJSDoc. rewrite Hs, Hb, Hc.
  cbn [length Nat.ltb Nat.leb]. repeat split; cbn; auto.
  apply Forall_app. split; [exact Hf|]. apply Forall_forall.
  intros s Hin. apply synthesize_doc in Hin. exact Hin.
Qed.

Lemma fileStep_plain lines relativePath st i l :
  startsWith (trim l) "/**" = false ->
  plain st ->
  plain (fileStep lines relativePath st (i, l)).
Proof.
  intros Hs [Hb [Hc Hf]]. unfold fileStep, trackJSDocAll. rewrite Hs, Hb, Hc.
  cbn [length Nat.ltb Nat.leb]. repeat split; cbn; auto.
  destruct (isExportLine (trim l)); [|exact Hf].
  destruct (parseExportedSymbol (trim l) i relativePath []) as [sym|] eqn:Hp;
    [|exact Hf].
  apply Forall_app. split; [exact Hf|]. constructor; [|constructor].
  apply DocFacts.parse_fields in Hp. destruct Hp as [_ [_ [Hh _]]]. exact Hh.
Qed.

Lemma fold_plain (step : DocState -> nat * string -> DocState) (lines : list string) :
  (forall st i l, In l lines -> plain st -> plain (step st (i, l))) ->
  forall il st,
    (forall i l, In (i, l) il -> In l lines) ->
    plain st -> plain (fold_left step il st).
Proof.
  intros Hstep. induction il as [|[i l] il IH]; intros st Hin Hst; cbn [fold_left];
    [exact Hst|].
  apply IH; [intros i' l' H; apply (Hin i' l'); now right|].
  apply Hstep; [apply (Hin i l); now left | exact Hst].
Qed.

Lemma indexed_In (lines : list string) i l : In (i, l) (indexed lines) -> In l lines.
Proof. unfold indexed. apply in_combine_r. Qed.

(** X13.  In a file without a line that opens a documentation block, no
    symbol is reported as documented, in the public-API mode and in the
    full-scan mode. *)
Theorem no_blocks_no_documentation (rootPath filePath content : string)
  (sourceExports : list TracedExport) :
  readTextFile fs filePath = Ok content ->
  no_blocks (split newline content) ->
  (forall syms, scanSource fs rootPath filePath sourceExports = Ok syms ->
                Forall (fun s => hasJSDoc s = false) syms)
  /\ (forall syms, analyzeFile fs filePath [] rootPath = Ok syms ->
                   Forall (fun s => hasJSDoc s = false) syms).
Proof.
  intros Hread Hno. split; intros syms.
  - unfold scanSource. rewrite Hread. simpl. intros [= <-].
    apply (fold_plain _ (split newline content)).
    + intros st i l Hin. apply docStep_plain, Hno, Hin.
    + intros i l. apply indexed_In.
    + repeat split. constructor.
  - unfold analyzeFile. rewrite Hread. simpl.
    destruct (stat fs rootPath) as [n|]; simpl; [|discriminate].
    intros [= <-].
    apply (fold_plain _ (split newline content)).
    + intros st i l Hin. apply fileStep_plain, Hno, Hin.
    + intros i l. apply indexed_In.
    + repeat split. constructor.
Qed.

End Undocumented.

Lemma no_blocks_witness :
  (forall syms,
     scanSource (RT := Fixtures.rt) Fixtures.fs "/repo" "/repo/tests/basic.ts"
       [mkTraced "undocumentedConst" "undocumentedConst" "/repo/tests/basic.ts" 13]
     = Ok syms -> Forall (fun s => hasJSDoc s = false) syms)
  /\ (forall syms,
        analyzeFile (RT := Fixtures.rt) Fixtures.fs "/repo/tests/basic.ts" [] "/repo"
        = Ok syms -> Forall (fun s => hasJSDoc s = false) syms).
Proof.
  apply (no_blocks_no_documentation (RT := Fixtures.rt) Fixtures.fs "/repo"
           "/repo/tests/basic.ts" Fixtures.basic_ts).
  - reflexivity.
  - intros l Hin. unfold Fixtures.basic_ts, text in Hin. vm_compute in Hin.
    repeat (destruct Hin as [<-|Hin]; [reflexivity|]). destruct Hin.
Defined.

(* ===================================================================== *)
(** ** Grouping by source file *)
(* ===================================================================== *)

Section Grouping.













End Grouping.

(* ===================================================================== *)
(** ** Full-scan mode: files one after the other *)
(* ===================================================================== *)

Section FullScan.
Context {RT : Runtime}.
Variable fs : FileSystem.

Lemma fileStep_prefix lines relativePath (il : list (nat * string)) :
  forall b c pre x,
    found_symbols (fold_left (fileStep lines relativePath) il (mkDoc b c (pre ++ x)))
    = pre ++ found_symbols (fold_left (fileStep lines relativePath) il (mkDoc b c x)).
Proof.
  induction il as [|[i l] il IH]; intros b c pre x; cbn [fold_left]; [reflexivity|].
  unfold fileStep at 2 4. cbn [jsDocBlocks currentJSDoc found_symbols].
  destruct (trackJSDocAll lines i l b c) as [b' c'].
  destruct (isExportLine (trim l)); [|apply IH].
  destruct (parseExportedSymbol (trim l) i relativePath b'); [|apply IH].
  rewrite <- app_assoc. apply IH.
Qed.

Lemma analyzeFile_appends (filePath rootPath : string) (symbols : list ExportedSymbol) :
  analyzeFile fs filePath symbols rootPath
  = (new <- analyzeFile fs filePath [] rootPath ;; Ok (symbols ++ new)).
Proof.
  unfold analyzeFile. destruct (readTextFile fs filePath) as [content|]; simpl;
    [|reflexivity].
  destruct (stat fs rootPath) as [n|]; simpl; [|reflexivity].
  f_equal. rewrite <- (app_nil_r symbols) at 1. apply fileStep_prefix.
Qed.

Lemma analyzeFiles_appends (rootPath : string) (files : list string) :
  forall symbols,
    analyzeFiles fs files symbols rootPath
    = (new <- analyzeFiles fs files [] rootPath ;; Ok (symbols ++ new)).
Proof.
  induction files as [|f files IH]; intros symbols; cbn [analyzeFiles].
  - simpl. now rewrite app_nil_r.
  - rewrite (analyzeFile_appends f rootPath symbols).
    destruct (analyzeFile fs f [] rootPath) as [s1|]; simpl; [|reflexivity].
    rewrite (IH (symbols ++ s1)), (IH s1).
    destruct (analyzeFiles fs files [] rootPath) as [s2|]; simpl; [|reflexivity].
    now rewrite app_assoc.
Qed.

(** X15.  In the full-scan mode the symbols of a file do not depend on the
    files scanned before it: scanning two lists of files one after the
    other gives the symbols of the first followed by the symbols of the
    second, and rejects when one of them does. *)
Theorem analyzeFiles_app (rootPath : string) (files1 files2 : list string) :
  analyzeFiles fs (files1 ++ files2) [] rootPath
  = (s1 <- analyzeFiles fs files1 [] rootPath ;;
     s2 <- analyzeFiles fs files2 [] rootPath ;;
     Ok (s1 ++ s2)).
Proof.
  induction files1 as [|f files1 IH]; cbn [app analyzeFiles].
  - simpl. destruct (analyzeFiles fs files2 [] rootPath); reflexivity.
  - destruct (analyzeFile fs f [] rootPath) as [s|]; simpl; [|reflexivity].
    rewrite (analyzeFiles_appends rootPath (files1 ++ files2) s), IH.
    rewrite (analyzeFiles_appends rootPath files1 s).
    destruct (analyzeFiles fs files1 [] rootPath) as [s1|]; simpl; [|reflexivity].
    destruct (analyzeFiles fs files2 [] rootPath) as [s2|]; simpl; [|reflexivity].
    now rewrite app_assoc.
Qed.

End FullScan.

(* ===================================================================== *)
(** ** Runs of [analyzeDirectory] *)
(* ===================================================================== *)

Section Runs.
Context {RT : Runtime}.
Variable fs : FileSystem.

(** X16.  Every run of [analyzeDirectory] comes to an end, with a result
    or rejected; it is rejected when the target path does not exist. *)
Theorem analyzeDirectory_returns (targetPath : string) :
  exists r,
    analyzeDirectory fs targetPath = Some r
    /\ (stat fs (resolve targetPath) = Throw -> r = Throw).
Proof.
  unfold analyzeDirectory.
  destruct (loadDenoConfig fs (resolve targetPath)) as [denoConfig|] eqn:Hload.
  - destruct (truthyExports denoConfig) as [exports|] eqn:Hexp.
    + destruct (analyzeFromExports_returns fs (resolve targetPath) exports []
                  (mkTrace [] [])) as [st' [_ Hrun]].
      rewrite Hrun. simpl. eexists. split; [reflexivity|].
      intros Hstat. unfold loadDenoConfig in Hload. rewrite Hstat in Hload.
      discriminate.
    + destruct (analyzeAllFiles fs (resolve targetPath) []) as [symbols|];
        eexists; (split; [reflexivity|]); intros Hstat;
        unfold loadDenoConfig in Hload; rewrite Hstat in Hload; discriminate.
  - eexists. split; [reflexivity | reflexivity].
Qed.

(** X17.  An [exports] field that is the empty mapping selects the
    public-API mode with no entry point: the report has no symbol, 100
    percent and no [exportPath], whatever the directory holds. *)
Theorem empty_exports_record (targetPath : string) (config : DenoConfig) :
  loadDenoConfig fs (resolve targetPath) = Ok (Some config) ->
  exports config = Some (ExportsRecord []) ->
  analyzeDirectory fs targetPath
  = Some (Ok (mkResult (resolve targetPath) true true None []
                (mkStats 0 0 0 100%Z []))).
Proof.
  intros Hload Hexp. unfold analyzeDirectory. rewrite Hload.
  unfold truthyExports, reportedExportPath. rewrite Hexp. reflexivity.
Qed.

(** X18.  An [exports] field that is the empty string is taken as absent:
    the run is a full scan and reports [hasExports = false], yet
    [exportPath] is the empty string. *)
Theorem empty_exports_string (targetPath : string) (config : DenoConfig) :
  loadDenoConfig fs (resolve targetPath) = Ok (Some config) ->
  exports config = Some (ExportsString "") ->
  analyzeDirectory fs targetPath
  = Some (symbols <- analyzeAllFiles fs (resolve targetPath) [] ;;
          Ok (mkResult (resolve targetPath) true false (Some "") symbols
                (calculateStats symbols))).
Proof.
  intros Hload Hexp. unfold analyzeDirectory. rewrite Hload.
  unfold truthyExports, reportedExportPath. rewrite Hexp. cbn [truthy String.eqb negb].
  destruct (analyzeAllFiles fs (resolve targetPath) []); reflexivity.
Qed.

(** A file without import statements names no import source. *)
Lemma findImportSource_none (content symbolName currentDir : string) :
  (forall l, In l (split newline content) -> startsWith (trim l) "import " = false) ->
  findImportSource fs content symbolName currentDir = None.
Proof.
  unfold findImportSource. intros H.
  induction (split newline content) as [|l ls IH]; [reflexivity|].
  rewrite (H l (or_introl eq_refl)). apply IH.
  intros l' Hl'. apply H. now right.
Qed.

Lemma localExport_here (filePath content currentDir item : string) (i : nat) :
  (forall l, In l (split newline content) -> startsWith (trim l) "import " = false) ->
  localExport fs filePath content currentDir i item
  = mkTraced (fst (splitAs item))
      (or_else (snd (splitAs item)) (fst (splitAs item))) filePath
      (num_or (findSymbolInFile fs filePath (fst (splitAs item))) (i + 1)).
Proof.
  intros H. unfold localExport. destruct (splitAs item) as [original alias].
  rewrite (findImportSource_none content original currentDir H). reflexivity.
Qed.

Lemma traceLocal_from filePath content dir i items :
  forall st e',
    In e' (bucket (exportMap (traceLocal fs filePath content dir i items st)) filePath) ->
    In e' (bucket (exportMap st) filePath)
    \/ exists item, In item items /\ e' = localExport fs filePath content dir i item.
Proof.
  induction items as [|x items IH]; intros st e' H; [now left|].
  rewrite traceLocal_cons in H. apply IH in H. destruct H as [H|[item [Hin ->]]].
  - unfold withExport in H. cbn [exportMap] in H. rewrite bucket_addExport in H.
    destruct (isDuplicate _ _); [now left|].
    apply in_app_or in H. destruct H as [H|[<-|[]]]; [now left|].
    right. exists x. split; [now left | reflexivity].
  - right. exists item. split; [now right | reflexivity].
Qed.

(** X19.  In a file without import statements, the tracer records every
    item of a block export without a [from] clause under the file, with the
    file itself as source; what the block adds to the table is, for an
    item, the export of the name before [as] under the name after it, at
    the line the locator finds in the file, or else at the line of the
    block. *)
Theorem local_block_source (self : string -> TraceState -> option TraceState)
  (filePath content currentDir l : string) (i : nat) (st : TraceState)
  (exportsMatch : list string) :
  (forall l', In l' (split newline content) ->
              startsWith (trim l') "import " = false) ->
  startsWith (trim l) "export {" || startsWith (trim l) "export type {" = true ->
  match_ re_from (trim l) = None ->
  match_ re_export_list (trim l) = Some exportsMatch ->
  exists st',
    traceLine fs self filePath content currentDir i l st = Some st'
    /\ (forall item, In item (listItems (group 1 exportsMatch)) ->
          exists e', In e' (bucket (exportMap st') filePath)
                     /\ exportedName e'
                        = or_else (snd (splitAs item)) (fst (splitAs item))
                     /\ sourcePath e' = filePath)
    /\ (forall e', In e' (bucket (exportMap st') filePath) ->
          In e' (bucket (exportMap st) filePath)
          \/ exists item,
               In item (listItems (group 1 exportsMatch))
               /\ e' = mkTraced (fst (splitAs item))
                         (or_else (snd (splitAs item)) (fst (splitAs item))) filePath
                         (num_or (findSymbolInFile fs filePath (fst (splitAs item)))
                            (i + 1))).
Proof.
  intros Himp Hblock Hfrom Hlist.
  eexists. split; [apply traceLine_local; eassumption|]. split.
  - intros item Hin.
    destruct (traceLocal_records fs filePath content currentDir i _ st item Hin)
      as [e' [He [Hn Hs]]].
    exists e'. split; [exact He|]. split; [exact Hn|].
    rewrite Hs, (localExport_here _ _ _ _ _ Himp). reflexivity.
  - intros e' He. apply traceLocal_from in He.
    destruct He as [He|[item [Hin ->]]]; [now left|].
    right. exists item. split; [exact Hin|]. apply localExport_here, Himp.
Qed.

End Runs.

Module RunExamples.

Definition empty_record : DenoConfig := mkConfig (Some (ExportsRecord [])) None None.
Definition empty_record_text : string := json "{ 'exports': {} }".
Definition empty_string : DenoConfig := mkConfig (Some (ExportsString "")) None None.
Definition empty_string_text : string := json "{ 'exports': '' }".

Definition rt : Runtime :=
  Posix.runtime "/p" [(empty_record_text, empty_record); (empty_string_text, empty_string)].

Definition fs_record : FileSystem :=
  [ ("/p", Directory); ("/p/deno.json", File empty_record_text);
    ("/p/lib.ts", File (text ["export const x = 1;"])) ].

Definition fs_string : FileSystem :=
  [ ("/p", Directory); ("/p/deno.json", File empty_string_text);
    ("/p/lib.ts", File (text ["export const x = 1;"])) ].

Lemma empty_exports_record_witness :
  analyzeDirectory (RT := rt) fs_record "/p"
  = Some (Ok (mkResult "/p" true true None [] (mkStats 0 0 0 100%Z []))).
Proof.
  apply (empty_exports_record (RT := rt) fs_record "/p" empty_record);
    vm_compute; reflexivity.
Defined.

Lemma empty_exports_string_witness :
  analyzeDirectory (RT := rt) fs_string "/p"
  = Some (symbols <- analyzeAllFiles (RT := rt) fs_string "/p" [] ;;
          Ok (mkResult "/p" true false (Some "") symbols (calculateStats symbols))).
Proof.
  apply (empty_exports_string (RT := rt) fs_string "/p" empty_string);
    vm_compute; reflexivity.
Defined.

Example empty_string_scans :
  Fixtures.summary (analyzeDirectory (RT := rt) fs_string "/p")
  = Some ([("x", TConst, 1, false)], (1, 0, 1, 0%Z)).
Proof. vm_compute. reflexivity. Qed.

Lemma local_block_source_witness :
  exists st',
    traceLine (RT := rt) Blocks.fs_api (fun _ s => Some s) "/p/lib.ts" Blocks.lib_ts
      "/p" 2 "export { a, b as c };" (mkTrace ["/p/lib.ts"] []) = Some st'
    /\ (forall item, In item ["a"; "b as c"] ->
          exists e', In e' (bucket (exportMap st') "/p/lib.ts")
                     /\ exportedName e'
                        = or_else (snd (splitAs item)) (fst (splitAs item))
                     /\ sourcePath e' = "/p/lib.ts")
    /\ (forall e', In e' (bucket (exportMap st') "/p/lib.ts") ->
          In e' []
          \/ exists item,
               In item ["a"; "b as c"]
               /\ e' = mkTraced (fst (splitAs item))
                         (or_else (snd (splitAs item)) (fst (splitAs item)))
                         "/p/lib.ts"
                         (num_or (findSymbolInFile (RT := rt) Blocks.fs_api "/p/lib.ts"
                                    (fst (splitAs item))) (2 + 1))).
Proof.
  apply (local_block_source (RT := rt) Blocks.fs_api (fun _ s => Some s)
           "/p/lib.ts" Blocks.lib_ts "/p" "export { a, b as c };" 2
           (mkTrace ["/p/lib.ts"] []) ["a, b as c "]).
  - intros l Hin. vm_compute in Hin.
    repeat (destruct Hin as [<-|Hin]; [reflexivity|]). destruct Hin.
  - reflexivity.
  - reflexivity.
  - reflexivity.
Defined.

End RunExamples.

(* ===================================================================== *)
(** ** Workspace analyzer (workspace.ts) *)
(* ===================================================================== *)

(** The field [stats] of a [WorkspaceMemberStats]. *)
Record MemberStats : Type := mkMemberStats {
  mTotal : nat;
  mDocumented : nat;
  mUndocumented : nat;
  mPercentage : Z
}.

(** [WorkspaceMemberStats]; the fields are named [member...] here. *)
Record WorkspaceMemberStats : Type := mkMember {
  memberName : string;
  memberPath : string;
  memberHasDenoJson : bool;
  memberHasExports : bool;
  memberExportPath : option string;
  memberStats : MemberStats;
  memberByType : option (list (SymbolType * (nat * nat)))
}.

(** [WorkspaceReport["aggregate"]] *)
Record Aggregate : Type := mkAggregate {
  totalMembers : nat;
  totalExports : nat;
  totalDocumented : nat;
  totalUndocumented : nat;
  averagePercentage : Z
}.

Section WorkspaceAnalyzer.
Context {RT : Runtime}.
Variable fs : FileSystem.

(** [analyzeMember]; [None] as for [analyzeDirectory]. *)
Definition analyzeMember (memberPath memberName : string)
  : option (result WorkspaceMemberStats) :=
  match analyzeDirectory fs memberPath with
  | Some (Ok r) =>
      Some (Ok (mkMember memberName memberPath (hasDenoJson r) (hasExports r)
                  (exportPath r)
                  (mkMemberStats (total (stats r)) (documented (stats r))
                     (undocumented (stats r)) (percentage (stats r)))
                  (Some (byType (stats r)))))
  | Some Throw => Some Throw
  | None => None
  end.

(** The member that the [catch] of the loop pushes. *)
Definition failedMember (memberPath fullPath : string) : WorkspaceMemberStats :=
  mkMember memberPath fullPath false false None (mkMemberStats 0 0 0 0%Z) None.

(** The loop over [workspaceConfig.workspace] of [analyze]: the members
    in the order they are pushed. *)
Fixpoint analyzeMembers (rootPath : string) (workspace : list string)
  : option (list WorkspaceMemberStats) :=
  match workspace with
  | [] => Some []
  | memberPath :: rest =>
      let fullPath := join rootPath memberPath in
      match analyzeMember fullPath memberPath with
      | Some outcome =>
          let member := try_catch outcome (failedMember memberPath fullPath) in
          option_map (cons member) (analyzeMembers rootPath rest)
      | None => None
      end
  end.

(** [members.reduce((sum, m) => sum + f(m), 0)] *)
Definition sumOf (f : WorkspaceMemberStats -> nat) (members : list WorkspaceMemberStats)
  : nat :=
  fold_left (fun sum m => sum + f m) members 0.

Definition calculateAggregate (members : list WorkspaceMemberStats) : Aggregate :=
  let totalMembers := length members in
  let totalExports := sumOf (fun m => mTotal (memberStats m)) members in
  let totalDocumented := sumOf (fun m => mDocumented (memberStats m)) members in
  let totalUndocumented := sumOf (fun m => mUndocumented (memberStats m)) members in
  let averagePercentage :=
    if 0 <? totalExports
    then Math_round
           (Double.mul (Double.div (inject_Z (Z.of_nat totalDocumented))
                          (inject_Z (Z.of_nat totalExports))) 100%Q)
    else 0%Z in
  mkAggregate totalMembers totalExports totalDocumented totalUndocumented
    averagePercentage.

(** The counts of a member add up. *)
Definition consistent (m : WorkspaceMemberStats) : Prop :=
  mDocumented (memberStats m) + mUndocumented (memberStats m) = mTotal (memberStats m)
  /\ (0 <= mPercentage (memberStats m) <= 100)%Z.

Lemma analyzeDirectory_stats (targetPath : string) (r : AnalysisResult) :
  analyzeDirectory fs targetPath = Some (Ok r) ->
  stats r = calculateStats (symbols r).
Proof.
  unfold analyzeDirectory.
  destruct (loadDenoConfig fs (resolve targetPath)) as [denoConfig|]; [|discriminate].
  destruct (truthyExports denoConfig) as [exports|].
  - destruct (analyzeFromExports fs _ exports [] _) as [syms|]; simpl; [|discriminate].
    intros [= <-]. reflexivity.
  - destruct (analyzeAllFiles fs _ []) as [syms|]; [|discriminate].
    intros [= <-]. reflexivity.
Qed.

Lemma analyzeDirectory_some (targetPath : string) :
  exists r, analyzeDirectory fs targetPath = Some r.
Proof.
  unfold analyzeDirectory.
  destruct (loadDenoConfig fs (resolve targetPath)) as [denoConfig|]; [|eauto].
  destruct (truthyExports denoConfig) as [exports|].
  - destruct (analyzeFromExports_returns fs (resolve targetPath) exports []
                (mkTrace [] [])) as [st' [_ Hrun]].
    rewrite Hrun. simpl. eauto.
  - destruct (analyzeAllFiles fs (resolve targetPath) []); eauto.
Qed.

Lemma analyzeMember_ok (p n : string) (m : WorkspaceMemberStats) :
  analyzeMember p n = Some (Ok m) ->
  consistent m /\ memberName m = n /\ memberPath m = p.
Proof.
  unfold analyzeMember.
  destruct (analyzeDirectory fs p) as [[r|]|] eqn:E; try discriminate.
  intros [= <-]. apply analyzeDirectory_stats in E.
  split; [|split; reflexivity].
  unfold consistent. cbn [memberStats mDocumented mUndocumented mTotal mPercentage].
  rewrite E. split; [apply StatsFacts.split_by_doc | apply percentage_range].
Qed.

Lemma failedMember_consistent (memberPath fullPath : string) :
  consistent (failedMember memberPath fullPath).
Proof. unfold consistent. simpl. lia. Qed.

(** X20.  The workspace analyzer reports one member for every path of the
    workspace, in order, under the name and the joined path of the member.
    A member whose analysis is rejected does not stop the others: it is
    reported with no exports and 0 percent.  The counts of every member add
    up. *)
Theorem workspace_members (rootPath : string) (workspace : list string) :
  exists members,
    analyzeMembers rootPath workspace = Some members
    /\ map memberName members = workspace
    /\ map memberPath members = map (join rootPath) workspace
    /\ Forall consistent members
    /\ forall p, In p workspace ->
         analyzeDirectory fs (join rootPath p) = Some Throw ->
         In (failedMember p (join rootPath p)) members.
Proof.
  induction workspace as [|p ws IH]; cbn [analyzeMembers].
  - exists []. repeat split; [constructor | intros p []].
  - destruct IH as [members [Hrun [Hnames [Hpaths [Hcons Hfail]]]]].
    rewrite Hrun. cbn [option_map].
    destruct (analyzeDirectory_some (join rootPath p)) as [r Hr].
    unfold analyzeMember at 1. rewrite Hr. destruct r as [r|].
    + eexists. split; [reflexivity|].
      cbn [try_catch map memberName memberPath]. rewrite Hnames, Hpaths.
      split; [reflexivity|]. split; [reflexivity|]. split.
      * constructor; [|exact Hcons].
        apply (analyzeMember_ok (join rootPath p) p). unfold analyzeMember.
        rewrite Hr. reflexivity.
      * intros q [<-|Hq] Hthrow; [congruence|]. right. apply Hfail; assumption.
    + eexists. split; [reflexivity|].
      cbn [try_catch map memberName memberPath failedMember].
      rewrite Hnames, Hpaths.
      split; [reflexivity|]. split; [reflexivity|]. split.
      * constructor; [apply failedMember_consistent | exact Hcons].
      * intros q [<-|Hq] Hthrow; [now left|]. right. apply Hfail; assumption.
Qed.

Lemma sumOf_cons (f : WorkspaceMemberStats -> nat) m (members : list WorkspaceMemberStats) :
  sumOf f (m :: members) = f m + sumOf f members.
Proof.
  unfold sumOf. simpl.
  assert (H : forall l a, fold_left (fun sum m => sum + f m) l a
                          = a + fold_left (fun sum m => sum + f m) l 0).
  { induction l as [|x l IH]; intros a; simpl; [lia|].
    rewrite (IH (a + f x)), (IH (f x)). lia. }
  apply H.
Qed.

Lemma sums_consistent (members : list WorkspaceMemberStats) :
  Forall consistent members ->
  sumOf (fun m => mDocumented (memberStats m)) members
  + sumOf (fun m => mUndocumented (memberStats m)) members
  = sumOf (fun m => mTotal (memberStats m)) members.
Proof.
  induction 1 as [|m l [Hm _] Hl IH]; [reflexivity|].
  rewrite !sumOf_cons. lia.
Qed.

(** X21.  For members whose counts add up, the counts of the aggregate add
    up as well, and the coverage of the workspace is between 0 and 100.
    It is 0 when the workspace has no exports at all, where a single
    package without exports reports 100. *)
Theorem calculateAggregate_consistent (members : list WorkspaceMemberStats) :
  Forall consistent members ->
  let a := calculateAggregate members in
  totalMembers a = length members
  /\ totalDocumented a + totalUndocumented a = totalExports a
  /\ (0 <= averagePercentage a <= 100)%Z
  /\ (totalExports a = 0 -> averagePercentage a = 0%Z).
Proof.
  intros Hcons a. pose proof (sums_consistent members Hcons) as Hsum.
  subst a. unfold calculateAggregate.
  cbn [totalMembers totalDocumented totalUndocumented totalExports averagePercentage].
  set (t := sumOf (fun m => mTotal (memberStats m)) members) in *.
  set (d := sumOf (fun m => mDocumented (memberStats m)) members) in *.
  split; [reflexivity|]. split; [exact Hsum|]. split.
  - destruct (Nat.ltb_spec 0 t) as [Hpos|Hzero]; [|lia].
    apply DoubleFacts.pct_range; lia.
  - intros Hz. rewrite Hz. reflexivity.
Qed.

(** X27.  The coverage of a workspace with exports is a nearest integer
    of [100 * totalDocumented / totalExports]: the two roundings of the
    doubles never move it past one half.  The counts are sums of array
    lengths, below [2^32] here. *)
Theorem averagePercentage_nearest (members : list WorkspaceMemberStats) :
  Forall consistent members ->
  let a := calculateAggregate members in
  let t := Z.of_nat (totalExports a) in
  let d := Z.of_nat (totalDocumented a) in
  (0 < t < 4294967296)%Z ->
  (2 * t * averagePercentage a - t <= 200 * d <= 2 * t * averagePercentage a + t)%Z.
Proof.
  intros Hcons a t d Ht. pose proof (sums_consistent members Hcons) as Hsum.
  subst a t d. unfold calculateAggregate in *.
  cbn [totalDocumented totalExports averagePercentage] in *.
  set (t := sumOf (fun m => mTotal (memberStats m)) members) in *.
  set (d := sumOf (fun m => mDocumented (memberStats m)) members) in *.
  destruct (Nat.ltb_spec 0 t) as [Hpos|Hzero]; [|lia].
  pose proof (DoubleFacts.pct_nearest (Z.of_nat d) (Z.of_nat t) ltac:(lia) Ht) as Hn.
  unfold DoubleFacts.pct in Hn. lia.
Qed.

End WorkspaceAnalyzer.

Module WorkspaceExamples.

Definition rt : Runtime := Posix.runtime "/w" [].

(** Two members: a package with one undocumented export, and a path that
    does not exist. *)
Definition fs : FileSystem :=
  [ ("/w", Directory); ("/w/a", Directory);
    ("/w/a/mod.ts", File (text ["export const a = 1;"])) ].

Example members_run :
  option_map (map (fun m => (memberName m, mTotal (memberStats m),
                             mPercentage (memberStats m))))
    (analyzeMembers (RT := rt) fs "/w" ["a"; "gone"])
  = Some [("a", 1, 0%Z); ("gone", 0, 0%Z)].
Proof. vm_compute. reflexivity. Qed.

(** A package without exports reports 100 percent, a workspace of such
    packages 0 percent. *)
Example empty_packages :
  percentage (calculateStats []) = 100%Z
  /\ averagePercentage
       (calculateAggregate
          [mkMember "a" "/w/a" false false None (mkMemberStats 0 0 0 100%Z) (Some [])])
     = 0%Z.
Proof. split; reflexivity. Qed.

Lemma calculateAggregate_witness :
  let a := calculateAggregate
             [mkMember "a" "/w/a" false false None (mkMemberStats 3 2 1 67%Z) None;
              failedMember "gone" "/w/gone"] in
  totalMembers a = 2
  /\ totalDocumented a + totalUndocumented a = totalExports a
  /\ (0 <= averagePercentage a <= 100)%Z
  /\ (totalExports a = 0 -> averagePercentage a = 0%Z).
Proof.
  apply (calculateAggregate_consistent
           [mkMember "a" "/w/a" false false None (mkMemberStats 3 2 1 67%Z) None;
            failedMember "gone" "/w/gone"]).
  repeat constructor; simpl; lia.
Defined.

Lemma averagePercentage_nearest_witness :
  let a := calculateAggregate
             [mkMember "a" "/w/a" false false None (mkMemberStats 3 2 1 67%Z) None;
              failedMember "gone" "/w/gone"] in
  (2 * 3 * averagePercentage a - 3 <= 200 * 2 <= 2 * 3 * averagePercentage a + 3)%Z.
Proof.
  apply (averagePercentage_nearest
           [mkMember "a" "/w/a" false false None (mkMemberStats 3 2 1 67%Z) None;
            failedMember "gone" "/w/gone"]).
  - repeat constructor; simpl; lia.
  - vm_compute. split; reflexivity.
Defined.

(** 29 documented exports of 200 are 14.5 percent; the doubles give 14. *)
Example aggregate_at_a_tie :
  averagePercentage
    (calculateAggregate
       [mkMember "a" "/w/a" false false None (mkMemberStats 200 29 171 14%Z) None])
  = 14%Z.
Proof. vm_compute. reflexivity. Qed.

End WorkspaceExamples.

(* ===================================================================== *)
(** ** Direct exports of a traced file *)
(* ===================================================================== *)

Section DirectExports.
Context {RT : Runtime}.
Variable fs : FileSystem.
Variable rootPath : string.

(** A direct export line is neither [export *] nor [export {]. *)
Lemma direct_not_block (s : string) :
  isDirectExport s = true ->
  startsWith s "export *" = false /\ startsWith s "export {" = false.
Proof.
  intros H.
  assert (Hc : forall c rest, startsWith s ("export " ++ String c rest) = true ->
                              c <> "*"%char -> c <> "{"%char ->
                              startsWith s "export *" = false
                              /\ startsWith s "export {" = false).
  { intros c rest Hs H1 H2. split.
    - destruct (startsWith s "export *") eqn:E; [|reflexivity].
      exfalso. apply H1. exact (prefix_agree "export " c "*" rest "" s Hs E).
    - destruct (startsWith s "export {") eqn:E; [|reflexivity].
      exfalso. apply H2. exact (prefix_agree "export " c "{" rest "" s Hs E). }
  unfold isDirectExport in H.
  repeat (apply orb_prop in H; destruct H as [H|H]);
    (eapply (Hc _ _ H); discriminate).
Qed.

(** What a direct export line does to the state. *)
Lemma traceLine_direct self filePath content dir i l st n :
  isDirectExport (trim l) = true ->
  startsWith (trim l) "export type {" = false ->
  extractExportName (trim l) = Some n ->
  truthy n = true ->
  traceLine fs self filePath content dir i l st
  = Some (withExport st filePath (mkTraced n n filePath (i + 1))).
Proof.
  intros Hd Ht Hn Htr. destruct (direct_not_block _ Hd) as [Hs Hb].
  unfold traceLine. rewrite Hs, Hb, Ht, Hd, Hn, Htr. reflexivity.
Qed.

(** The bucket of [filePath] holds [e]. *)
Definition holds (filePath : string) (e : TracedExport) (st : TraceState) : Prop :=
  In e (bucket (exportMap st) filePath).

Lemma holds_export filePath e st p e' :
  holds filePath e st -> holds filePath e (withExport st p e').
Proof.
  unfold holds, withExport. cbn [exportMap]. intros H.
  destruct (String.eqb_spec p filePath) as [->|Hne].
  - apply addExport_keeps, H.
  - rewrite bucket_addExport_other by exact Hne. exact H.
Qed.

Lemma traceLines_records self filePath content dir n lines :
  (forall e q s s', holds filePath e s -> self q s = Some s' -> holds filePath e s') ->
  forall j l i st st',
    nth_error lines j = Some l ->
    isDirectExport (trim l) = true ->
    startsWith (trim l) "export type {" = false ->
    extractExportName (trim l) = Some n ->
    truthy n = true ->
    traceLines fs self filePath content dir lines i st = Some st' ->
    exists e, holds filePath e st' /\ exportedName e = n /\ sourcePath e = filePath.
Proof.
  intros Hself. induction lines as [|x lines IH]; intros j l i st st' Hnth;
    [destruct j; discriminate|].
  intros Hd Ht Hn Htr. cbn [traceLines].
  destruct (traceLine fs self filePath content dir i x st) as [s1|] eqn:E;
    [|discriminate].
  intros Hrest. destruct j as [|j].
  - simpl in Hnth. injection Hnth as ->.
    rewrite (traceLine_direct _ _ _ _ _ _ _ _ Hd Ht Hn Htr) in E. injection E as <-.
    destruct (addExport_present (exportMap st) filePath
                (mkTraced n n filePath (i + 1))) as [e [He [Hname Hsrc]]].
    exists e. split; [|split; assumption].
    apply (traceLines_at fs (holds filePath e) self filePath content dir lines)
      with (i := S i) (st := withExport st filePath (mkTraced n n filePath (i + 1)));
      [intros s e' Hs; apply holds_export, Hs | apply Hself | exact He | exact Hrest].
  - simpl in Hnth. eapply IH; eauto.
Qed.

(** X22.  Tracing a file that was not visited and can be read records
    every direct export line of it: afterwards the bucket of the file has
    an export with the declared name and the file itself as source. *)
Theorem direct_exports_recorded (filePath content l n : string) (i : nat)
  (st : TraceState) :
  visited filePath st = false ->
  readTextFile fs filePath = Ok content ->
  nth_error (split newline content) i = Some l ->
  isDirectExport (trim l) = true ->
  startsWith (trim l) "export type {" = false ->
  extractExportName (trim l) = Some n ->
  truthy n = true ->
  exists st' e,
    traceExportsFromFile fs (S (length fs)) filePath st rootPath = Some st'
    /\ In e (bucket (exportMap st') filePath)
    /\ exportedName e = n /\ sourcePath e = filePath.
Proof.
  intros Hnew Hread Hnth Hd Ht Hn Htr.
  destruct (trace_returns fs rootPath filePath st) as [st' [Hrun _]].
  exists st'. pose proof Hrun as Hrun'. cbn [traceExportsFromFile] in Hrun'.
  rewrite Hnew, Hread in Hrun'. simpl in Hrun'.
  destruct (traceLines_records
              (fun p s => traceExportsFromFile fs (length fs) p s rootPath)
              filePath content (dirname filePath) n
              (split newline content)) with
    (j := i) (l := l) (i := 0)
    (st := mkTrace (filePath :: analyzedFiles st) (exportMap st)) (st' := st')
    as [e [He [Hname Hsrc]]]; try assumption.
  - intros e q s s' Hs Hq.
    apply (trace_invariant fs rootPath (holds filePath e)) with
      (fuel := length fs) (filePath := q) (st := s); try assumption.
    + intros s0 p e' Hs0 _. apply holds_export, Hs0.
    + intros s0 p Hs0. exact Hs0.
  - exists e. auto.
Qed.

End DirectExports.

Lemma direct_exports_recorded_witness :
  exists st' e,
    traceExportsFromFile (RT := Fixtures.rt) Fixtures.fs (S (length Fixtures.fs))
      "/repo/tests/basic.ts" (mkTrace [] []) "/repo" = Some st'
    /\ In e (bucket (exportMap st') "/repo/tests/basic.ts")
    /\ exportedName e = "UndocumentedClass" /\ sourcePath e = "/repo/tests/basic.ts".
Proof.
  apply (direct_exports_recorded (RT := Fixtures.rt) Fixtures.fs "/repo"
           "/repo/tests/basic.ts" Fixtures.basic_ts "export class UndocumentedClass {"
           "UndocumentedClass" 4 (mkTrace [] [])); reflexivity.
Defined.
